(** * logpad: the storage and reconstruction engine of the worker

    A shallow embedding of the SQLite worker of logpad (the message
    handlers that write, [create_table] ... [delete_foreign_key], the
    handlers that read, [get_tables], [get_columns], [get_rows],
    [get_row_history], [get_foreign_keys] and [get_fk_options], the SQL
    they issue and the schema of [_create_fresh_schema]), followed by
    theorems about the event log, the reconstruction and the validators.

    Modelling choices, all taken from the source:
    - the four SQL tables are lists of records in rowid order; a query is
      a list comprehension over them, written to follow the SQL text;
    - integer keys are [nat]: every key is [INTEGER PRIMARY KEY
      AUTOINCREMENT] and no row is ever physically removed, so a fresh key
      is one more than the greatest key present;
    - [REFERENCES] clauses are not enforced (the worker never issues
      [PRAGMA foreign_keys]); [NOT NULL] and [UNIQUE] are;
    - a timestamp [strftime('%Y-%m-%dT%H:%M:%f','now')] is a [nat] (the
      text is of fixed width, so its order is the order of the instants);
    - a cell value coming from a request is [option string] ([None] is
      JavaScript's [null]); a plain object used as a dictionary is a
      [gmap], or an association list where the order of its entries is
      observed ([Object.entries], [Object.values]);
    - a handler is a computation in a state-and-exception monad: it reads
      the clock and the random source from an environment, and the storage
      layer may refuse any write statement. A thrown error leaves the
      database as the statements before it left it: the handlers open no
      transaction ([BEGIN] occurs in [_migrate_legacy_db] only).

    Left out of the model:
    - the legacy migration and the message transport;
    - property names a plain object inherits from [Object.prototype]
      (["constructor"], ["__proto__"], ...): a lookup of a name that was
      not inserted is [undefined] here;
    - the rule by which JavaScript lists integer-like keys of an object
      first: entries are kept in insertion order;
    - refusals of a read statement by the storage layer. *)

From Stdlib Require Import Ascii String ZArith.
From stdpp Require Import base decidable option list list_numbers sorting strings gmap pretty.

Open Scope string_scope.

(** ** JavaScript strings *)

Module Js.

(** The double-quote character, used by the message templates. *)
Definition dq : string := String (ascii_of_nat 34) EmptyString.

Definition bytes_of_string (s : string) : list nat :=
  nat_of_ascii <$> String.list_ascii_of_string s.

Definition string_of_bytes (l : list nat) : string :=
  String.string_of_list_ascii (ascii_of_nat <$> l).

(** The code points [String.prototype.trim] removes (WhiteSpace and
    LineTerminator of ECMAScript), each as its UTF-8 bytes. *)
Definition white_space : list (list nat) :=
  [ [9]; [10]; [11]; [12]; [13]; [32];
    [194; 160];                      (* U+00A0 *)
    [225; 154; 128];                 (* U+1680 *)
    [226; 128; 128]; [226; 128; 129]; [226; 128; 130]; [226; 128; 131];
    [226; 128; 132]; [226; 128; 133]; [226; 128; 134]; [226; 128; 135];
    [226; 128; 136]; [226; 128; 137]; [226; 128; 138];   (* U+2000..U+200A *)
    [226; 128; 168]; [226; 128; 169];                    (* U+2028, U+2029 *)
    [226; 128; 175];                 (* U+202F *)
    [226; 129; 159];                 (* U+205F *)
    [227; 128; 128];                 (* U+3000 *)
    [239; 187; 191] ].               (* U+FEFF *)

Fixpoint is_prefix (p l : list nat) : bool :=
  match p, l with
  | [], _ => true
  | x :: p', y :: l' => bool_decide (x = y) && is_prefix p' l'
  | _ :: _, [] => false
  end.

(** Drops the white space at the head of [l]; [tokens] are the byte
    sequences to drop, [fuel] bounds the number of rounds. *)
Fixpoint drop_space (tokens : list (list nat)) (fuel : nat) (l : list nat) : list nat :=
  match fuel with
  | 0 => l
  | S fuel' =>
      match List.find (λ t, is_prefix t l) tokens with
      | Some t => drop_space tokens fuel' (drop (length t) l)
      | None => l
      end
  end.

(** [s.trim()] *)
Definition trim (s : string) : string :=
  let l := bytes_of_string s in
  let l1 := drop_space white_space (length l) l in
  let l2 := drop_space (reverse <$> white_space) (length l1) (reverse l1) in
  string_of_bytes (reverse l2).

(** [s.includes(p)] *)
Fixpoint includes_bytes (p l : list nat) : bool :=
  is_prefix p l ||
  match l with
  | [] => false
  | _ :: l' => includes_bytes p l'
  end.

Definition includes (s p : string) : bool :=
  includes_bytes (bytes_of_string p) (bytes_of_string s).

(** A number interpolated in a template string. *)
Definition show (n : nat) : string := pretty n.

(** Truthiness of a request value that is [null] or a string:
    [null] and the empty string are falsy. *)
Definition truthy (v : option string) : bool :=
  match v with
  | None => false
  | Some s => negb (bool_decide (s = ""))
  end.

End Js.

(** ** The schema ([_create_fresh_schema]) *)

(** [tables]: [name] is [NOT NULL UNIQUE]. *)
Record Table := {
  t_id : nat;
  t_name : string;
  t_created_at : nat;
  t_deleted_at : option nat
}.

(** [columns]: [UNIQUE(table_id, name)]. *)
Record Column := {
  c_id : nat;
  c_table_id : nat;
  c_name : string;
  c_display_order : Z;
  c_is_unique : nat;
  c_created_at : nat;
  c_deleted_at : option nat
}.

(** [cell_history]: the event log. [sentinel] is [NULL] for a cell write,
    ['__new__'] for a row creation, ['__deleted__'] for a lifecycle
    marking whose [value] is ['1'] (deleted) or ['0'] (restored). *)
Record CellEvent := {
  ch_id : nat;
  ch_table_id : nat;
  ch_row_id : string;
  ch_column_id : option nat;
  ch_sentinel : option string;
  ch_value : option string;
  ch_timestamp : nat
}.

(** [foreign_keys] *)
Record ForeignKey := {
  fk_id : nat;
  fk_from_column_id : nat;
  fk_to_table_id : nat;
  fk_created_at : nat;
  fk_deleted_at : option nat
}.

Record DB := {
  tables : list Table;
  columns : list Column;
  cell_history : list CellEvent;
  foreign_keys : list ForeignKey
}.

(** The database right after [_create_fresh_schema]. *)
Definition fresh_db : DB :=
  {| tables := []; columns := []; cell_history := []; foreign_keys := [] |}.

Definition with_tables (d : DB) (l : list Table) : DB :=
  {| tables := l; columns := columns d; cell_history := cell_history d;
     foreign_keys := foreign_keys d |}.
Definition with_columns (d : DB) (l : list Column) : DB :=
  {| tables := tables d; columns := l; cell_history := cell_history d;
     foreign_keys := foreign_keys d |}.
Definition with_cell_history (d : DB) (l : list CellEvent) : DB :=
  {| tables := tables d; columns := columns d; cell_history := l;
     foreign_keys := foreign_keys d |}.
Definition with_foreign_keys (d : DB) (l : list ForeignKey) : DB :=
  {| tables := tables d; columns := columns d; cell_history := cell_history d;
     foreign_keys := l |}.

Definition NEW : string := "__new__".
Definition DELETED : string := "__deleted__".

(** The key the next [INSERT] receives. *)
Definition next_id (ids : list nat) : nat := S (max_list ids).

(** ** The common table expressions of the queries *)

(** A row of [latest]. *)
Record Latest := {
  l_row_id : string;
  l_column_id : option nat;
  l_max_id : nat
}.

(** [FROM cell_history WHERE table_id = ? AND sentinel IS NULL] *)
Definition cell_events (d : DB) (table_id : nat) : list CellEvent :=
  filter (λ e, ch_table_id e = table_id ∧ ch_sentinel e = None) (cell_history d).

(** [SELECT row_id, column_id, MAX(id) AS max_id FROM cell_history
     WHERE table_id = ? AND sentinel IS NULL GROUP BY row_id, column_id] *)
Definition latest (d : DB) (table_id : nat) : list Latest :=
  let evs := cell_events d table_id in
  (λ k : string * option nat,
     {| l_row_id := k.1; l_column_id := k.2;
        l_max_id := max_list (ch_id <$>
          filter (λ e, (ch_row_id e, ch_column_id e) = k) evs) |})
  <$> remove_dups ((λ e, (ch_row_id e, ch_column_id e)) <$> evs).

(** [FROM cell_history WHERE table_id = ? AND sentinel = '__deleted__'] *)
Definition lifecycle_events (d : DB) (table_id : nat) : list CellEvent :=
  filter (λ e, ch_table_id e = table_id ∧ ch_sentinel e = Some DELETED) (cell_history d).

(** [MAX(CASE WHEN value = v THEN id ELSE 0 END)] over a group. *)
Definition max_case (v : string) (group : list CellEvent) : nat :=
  max_list ((λ e, if decide (ch_value e = Some v) then ch_id e else 0) <$> group).

(** [SELECT row_id FROM cell_history
     WHERE table_id = ? AND sentinel = '__deleted__' GROUP BY row_id
     HAVING MAX(CASE WHEN value = '1' THEN id ELSE 0 END) >
            MAX(CASE WHEN value = '0' THEN id ELSE 0 END)] *)
Definition deleted_rows (d : DB) (table_id : nat) : list string :=
  let evs := lifecycle_events d table_id in
  filter (λ r,
            let group := filter (λ e, ch_row_id e = r) evs in
            max_case "0" group < max_case "1" group)
         (remove_dups (ch_row_id <$> evs)).

(** [FROM latest l JOIN cell_history ch ON ch.id = l.max_id]: the rows of
    [latest], each with the event that carries its [max_id]. *)
Definition latest_joined (d : DB) (table_id : nat) : list (Latest * CellEvent) :=
  l ← latest d table_id;
  ch ← filter (λ ch, ch_id ch = l_max_id l) (cell_history d);
  [(l, ch)].

(** ** Row reconstruction *)

(** A record of [_reconstruction_sql]. *)
Record Recon := {
  r_row_id : string;
  r_column_id : nat;
  r_column_name : string;
  r_display_order : Z;
  r_is_unique : nat;
  r_value : option string;
  r_last_modified : nat
}.

(** [ORDER BY l.row_id, c.display_order]; text compares byte-wise. *)
Definition recon_leb (x y : Recon) : bool :=
  match String.compare (r_row_id x) (r_row_id y) with
  | Lt => true
  | Eq => (r_display_order x <=? r_display_order y)%Z
  | Gt => false
  end.

Definition recon_le (x y : Recon) : Prop := Is_true (recon_leb x y).

(** The rows of [_reconstruction_sql] before [ORDER BY]. *)
Definition reconstruction_rows (d : DB) (table_id : nat) : list Recon :=
  '(l, ch) ← latest_joined d table_id;
  c ← filter (λ c, Some (c_id c) = l_column_id l) (columns d);
  if decide (c_deleted_at c = None ∧ l_row_id l ∉ deleted_rows d table_id)
  then [ {| r_row_id := l_row_id l; r_column_id := c_id c;
            r_column_name := c_name c; r_display_order := c_display_order c;
            r_is_unique := c_is_unique c; r_value := ch_value ch;
            r_last_modified := ch_timestamp ch |} ]
  else [].

(** [exec(_reconstruction_sql(), [table_id, table_id])]. The order among
    records that tie under [ORDER BY] is the one of the sort. *)
Definition reconstruction (d : DB) (table_id : nat) : list Recon :=
  merge_sort recon_le (reconstruction_rows d table_id).

(** [exec(_empty_rows_sql(), [table_id, table_id, table_id])]: pairs
    [(row_id, timestamp)], [DISTINCT]. *)
Definition empty_rows (d : DB) (table_id : nat) : list (string * nat) :=
  remove_dups (
    (λ ch, (ch_row_id ch, ch_timestamp ch)) <$>
    filter (λ ch, ch_table_id ch = table_id ∧ ch_sentinel ch = Some NEW
                  ∧ (ch_row_id ch ∉ ch_row_id <$> cell_events d table_id)
                  ∧ (ch_row_id ch ∉ deleted_rows d table_id))
           (cell_history d)).

(** An element of the array [get_rows] returns. *)
Record RowObj := {
  row_id : string;
  cells : gmap string (option string);
  _last_modified : nat
}.

(** A plain object whose entries are read back in insertion order. *)
Fixpoint alist_get {A} (k : string) (m : list (string * A)) : option A :=
  match m with
  | [] => None
  | (k', v) :: m' => if decide (k = k') then Some v else alist_get k m'
  end.

Fixpoint alist_set {A} (k : string) (v : A) (m : list (string * A)) : list (string * A) :=
  match m with
  | [] => [(k, v)]
  | (k', v') :: m' =>
      if decide (k = k') then (k, v) :: m' else (k', v') :: alist_set k v m'
  end.

(** The body of the first loop of [get_rows]. *)
Definition get_rows_record (rowMap : list (string * RowObj)) (record : Recon)
  : list (string * RowObj) :=
  let rid := r_row_id record in
  let o := default {| row_id := rid; cells := ∅;
                      _last_modified := r_last_modified record |}
                   (alist_get rid rowMap) in
  let o := {| row_id := row_id o;
              cells := <[r_column_name record := r_value record]> (cells o);
              _last_modified :=
                if decide (_last_modified o < r_last_modified record)
                then r_last_modified record else _last_modified o |} in
  alist_set rid o rowMap.

(** The body of the second loop of [get_rows]. *)
Definition get_rows_empty (rowMap : list (string * RowObj)) (record : string * nat)
  : list (string * RowObj) :=
  match alist_get record.1 rowMap with
  | Some _ => rowMap
  | None => alist_set record.1
              {| row_id := record.1; cells := ∅; _last_modified := record.2 |} rowMap
  end.

Definition get_rows (d : DB) (table_id : nat) : list RowObj :=
  let rowMap := foldl get_rows_record [] (reconstruction d table_id) in
  let rowMap := foldl get_rows_empty rowMap (empty_rows d table_id) in
  snd <$> rowMap.

(** ** Handlers as computations *)

(** The outcome of an awaited call: a value, or a thrown [Error] with its
    [message]. *)
Inductive Res (A : Type) : Type :=
  | Ok (a : A)
  | Throw (message : string).
Arguments Ok {A} a.
Arguments Throw {A} message.

(** What a handler takes from outside the database: the clock read by the
    n-th write statement of the call, whether the storage layer refuses
    that statement (and with which message), and the value of
    [crypto.randomUUID()]. *)
Record Env := {
  clock : nat → nat;
  storage : nat → option string;
  randomUUID : string
}.

(** A storage layer that never refuses a statement. *)
Definition healthy (env : Env) : Prop := ∀ n, storage env n = None.

(** The state is the number of write statements issued so far in the call
    and the database. A thrown error keeps the state: no handler below
    opens a transaction, so what was written stays written. *)
Definition M (A : Type) : Type := nat * DB → Res A * (nat * DB).

Definition ret {A} (a : A) : M A := λ s, (Ok a, s).

Definition throw {A} (message : string) : M A := λ s, (Throw message, s).

Definition bind {A B} (m : M A) (k : A → M B) : M B :=
  λ s, match m s with
       | (Ok a, s') => k a s'
       | (Throw e, s') => (Throw e, s')
       end.

Notation "'let*' x ':=' m 'in' k" := (bind m (λ x, k))
  (at level 10, x name, m at level 100, k at level 200).
Notation "m1 ';;' m2" := (bind m1 (λ _, m2))
  (at level 100, m2 at level 200, right associativity, only parsing).

Definition try_catch {A} (m : M A) (handler : string → M A) : M A :=
  λ s, match m s with
       | (Ok a, s') => (Ok a, s')
       | (Throw e, s') => handler e s'
       end.

(** [await exec(sql, bind)] for a [SELECT]. *)
Definition select {A} (query : DB → A) : M A := λ s, (Ok (query s.2), s).

(** [for (const x of l) { body }] *)
Fixpoint for_each {A} (l : list A) (body : A → M unit) : M unit :=
  match l with
  | [] => ret tt
  | x :: l' => body x ;; for_each l' body
  end.

(** A loop that updates a local variable. *)
Fixpoint for_fold {A S} (l : list A) (acc : S) (body : S → A → M S) : M S :=
  match l with
  | [] => ret acc
  | x :: l' => let* acc' := body acc x in for_fold l' acc' body
  end.

(** The handlers' result when run on a database. *)
Definition run_handler {A} (m : M A) (d : DB) : Res A * DB :=
  let r := m (0, d) in (r.1, r.2.2).

(** *** SQL statements that write *)

Definition live_table (t : Table) : Prop := t_deleted_at t = None.
Definition live_column (c : Column) : Prop := c_deleted_at c = None.
Definition live_fk (fk : ForeignKey) : Prop := fk_deleted_at fk = None.

(** [INSERT INTO tables (name) VALUES (?)] *)
Definition sql_insert_table (name : string) (now : nat) (d : DB) : Res (nat * DB) :=
  if decide (name ∈ t_name <$> tables d)
  then Throw "UNIQUE constraint failed: tables.name"
  else
    let id := next_id (t_id <$> tables d) in
    Ok (id, with_tables d (tables d ++
          [ {| t_id := id; t_name := name; t_created_at := now; t_deleted_at := None |} ])).

(** [UPDATE tables SET name = ? WHERE id = ? AND deleted_at IS NULL] *)
Definition sql_rename_table (name : string) (id : nat) (now : nat) (d : DB)
  : Res (unit * DB) :=
  if decide (Exists (λ t, t_id t = id ∧ live_table t) (tables d) ∧
             Exists (λ t, t_id t ≠ id ∧ t_name t = name) (tables d))
  then Throw "UNIQUE constraint failed: tables.name"
  else Ok (tt, with_tables d (
         (λ t, if decide (t_id t = id ∧ live_table t)
               then {| t_id := t_id t; t_name := name;
                       t_created_at := t_created_at t; t_deleted_at := t_deleted_at t |}
               else t) <$> tables d)).

(** [UPDATE foreign_keys SET deleted_at = strftime(...) WHERE deleted_at IS NULL
     AND from_column_id IN (SELECT id FROM columns WHERE table_id = ? AND deleted_at IS NULL)] *)
Definition sql_delete_fks_of_table (table_id : nat) (now : nat) (d : DB)
  : Res (unit * DB) :=
  let cols := c_id <$> filter (λ c, c_table_id c = table_id ∧ live_column c) (columns d) in
  Ok (tt, with_foreign_keys d (
        (λ fk, if decide (live_fk fk ∧ fk_from_column_id fk ∈ cols)
               then {| fk_id := fk_id fk; fk_from_column_id := fk_from_column_id fk;
                       fk_to_table_id := fk_to_table_id fk;
                       fk_created_at := fk_created_at fk; fk_deleted_at := Some now |}
               else fk) <$> foreign_keys d)).

Definition tombstone_column (now : nat) (c : Column) : Column :=
  {| c_id := c_id c; c_table_id := c_table_id c; c_name := c_name c;
     c_display_order := c_display_order c; c_is_unique := c_is_unique c;
     c_created_at := c_created_at c; c_deleted_at := Some now |}.

(** [UPDATE columns SET deleted_at = strftime(...) WHERE table_id = ? AND deleted_at IS NULL] *)
Definition sql_delete_columns_of_table (table_id : nat) (now : nat) (d : DB)
  : Res (unit * DB) :=
  Ok (tt, with_columns d (
        (λ c, if decide (c_table_id c = table_id ∧ live_column c)
              then tombstone_column now c else c) <$> columns d)).

(** [UPDATE tables SET deleted_at = strftime(...) WHERE id = ? AND deleted_at IS NULL] *)
Definition sql_delete_table (id : nat) (now : nat) (d : DB) : Res (unit * DB) :=
  Ok (tt, with_tables d (
        (λ t, if decide (t_id t = id ∧ live_table t)
              then {| t_id := t_id t; t_name := t_name t;
                      t_created_at := t_created_at t; t_deleted_at := Some now |}
              else t) <$> tables d)).

(** [INSERT INTO columns (table_id, name, display_order, is_unique) VALUES (?, ?, ?, ?)] *)
Definition sql_insert_column (table_id : nat) (name : string) (display_order : Z)
    (is_unique : nat) (now : nat) (d : DB) : Res (nat * DB) :=
  if decide (Exists (λ c, c_table_id c = table_id ∧ c_name c = name) (columns d))
  then Throw "UNIQUE constraint failed: columns.table_id, columns.name"
  else
    let id := next_id (c_id <$> columns d) in
    Ok (id, with_columns d (columns d ++
          [ {| c_id := id; c_table_id := table_id; c_name := name;
               c_display_order := display_order; c_is_unique := is_unique;
               c_created_at := now; c_deleted_at := None |} ])).

(** [UPDATE columns SET name = ? WHERE id = ? AND deleted_at IS NULL] *)
Definition sql_rename_column (name : string) (id : nat) (now : nat) (d : DB)
  : Res (unit * DB) :=
  if decide (Exists (λ c, c_id c = id ∧ live_column c ∧
                          Exists (λ c', c_id c' ≠ id ∧ c_table_id c' = c_table_id c
                                        ∧ c_name c' = name) (columns d))
                    (columns d))
  then Throw "UNIQUE constraint failed: columns.table_id, columns.name"
  else Ok (tt, with_columns d (
         (λ c, if decide (c_id c = id ∧ live_column c)
               then {| c_id := c_id c; c_table_id := c_table_id c; c_name := name;
                       c_display_order := c_display_order c;
                       c_is_unique := c_is_unique c;
                       c_created_at := c_created_at c; c_deleted_at := c_deleted_at c |}
               else c) <$> columns d)).

(** [UPDATE columns SET is_unique = ? WHERE id = ? AND deleted_at IS NULL] *)
Definition sql_set_unique (is_unique : nat) (id : nat) (now : nat) (d : DB)
  : Res (unit * DB) :=
  Ok (tt, with_columns d (
        (λ c, if decide (c_id c = id ∧ live_column c)
              then {| c_id := c_id c; c_table_id := c_table_id c; c_name := c_name c;
                      c_display_order := c_display_order c; c_is_unique := is_unique;
                      c_created_at := c_created_at c; c_deleted_at := c_deleted_at c |}
              else c) <$> columns d)).

(** [UPDATE foreign_keys SET deleted_at = strftime(...)
     WHERE from_column_id = ? AND deleted_at IS NULL] *)
Definition sql_delete_fks_of_column (column_id : nat) (now : nat) (d : DB)
  : Res (unit * DB) :=
  Ok (tt, with_foreign_keys d (
        (λ fk, if decide (fk_from_column_id fk = column_id ∧ live_fk fk)
               then {| fk_id := fk_id fk; fk_from_column_id := fk_from_column_id fk;
                       fk_to_table_id := fk_to_table_id fk;
                       fk_created_at := fk_created_at fk; fk_deleted_at := Some now |}
               else fk) <$> foreign_keys d)).

(** [UPDATE columns SET deleted_at = strftime(...) WHERE id = ? AND deleted_at IS NULL] *)
Definition sql_delete_column (id : nat) (now : nat) (d : DB) : Res (unit * DB) :=
  Ok (tt, with_columns d (
        (λ c, if decide (c_id c = id ∧ live_column c)
              then tombstone_column now c else c) <$> columns d)).

(** [INSERT INTO cell_history (table_id, row_id, column_id, sentinel, value)
     VALUES (?, ?, ?, ?, ?)] *)
Definition sql_insert_event (table_id : nat) (row_id : string) (column_id : option nat)
    (sentinel value : option string) (now : nat) (d : DB) : Res (unit * DB) :=
  Ok (tt, with_cell_history d (cell_history d ++
        [ {| ch_id := next_id (ch_id <$> cell_history d); ch_table_id := table_id;
             ch_row_id := row_id; ch_column_id := column_id;
             ch_sentinel := sentinel; ch_value := value; ch_timestamp := now |} ])).

(** [INSERT INTO foreign_keys (from_column_id, to_table_id) VALUES (?, ?)] *)
Definition sql_insert_fk (from_column_id to_table_id : nat) (now : nat) (d : DB)
  : Res (nat * DB) :=
  let id := next_id (fk_id <$> foreign_keys d) in
  Ok (id, with_foreign_keys d (foreign_keys d ++
        [ {| fk_id := id; fk_from_column_id := from_column_id;
             fk_to_table_id := to_table_id; fk_created_at := now;
             fk_deleted_at := None |} ])).

(** [UPDATE foreign_keys SET deleted_at = strftime(...) WHERE id = ? AND deleted_at IS NULL] *)
Definition sql_delete_fk (id : nat) (now : nat) (d : DB) : Res (unit * DB) :=
  Ok (tt, with_foreign_keys d (
        (λ fk, if decide (fk_id fk = id ∧ live_fk fk)
               then {| fk_id := fk_id fk; fk_from_column_id := fk_from_column_id fk;
                       fk_to_table_id := fk_to_table_id fk;
                       fk_created_at := fk_created_at fk; fk_deleted_at := Some now |}
               else fk) <$> foreign_keys d)).

(** *** Queries shared by the validators *)

(** An entry of the object [_col_map_for_table] returns. *)
Record ColInfo := {
  col_id : nat;
  col_is_unique : nat
}.

(** [_col_map_for_table(table_id)] *)
Definition _col_map_for_table (table_id : nat) (d : DB) : gmap string ColInfo :=
  let cols := filter (λ c, c_table_id c = table_id ∧ live_column c) (columns d) in
  foldl (λ map c, <[c_name c := {| col_id := c_id c; col_is_unique := c_is_unique c |}]> map)
        ∅ cols.

(** [_get_fk_map_for_table(table_id)] *)
Definition _get_fk_map_for_table (table_id : nat) (d : DB) : gmap nat nat :=
  let fks :=
    fk ← foreign_keys d;
    c ← filter (λ c, c_id c = fk_from_column_id fk) (columns d);
    if decide (c_table_id c = table_id ∧ live_fk fk ∧ live_column c) then [fk] else [] in
  foldl (λ map fk, <[fk_from_column_id fk := fk_to_table_id fk]> map) ∅ fks.

(** The rows the query of [_check_uniqueness] returns before [LIMIT 1]. *)
Definition uniqueness_conflicts (table_id column_id : nat) (value : string)
    (excluding_row_id : string) (d : DB) : list (option string) :=
  '(l, ch) ← latest_joined d table_id;
  if decide (l_column_id l = Some column_id ∧ ch_value ch = Some value
             ∧ l_row_id l ≠ excluding_row_id
             ∧ l_row_id l ∉ deleted_rows d table_id)
  then [ch_value ch] else [].

(** [_check_uniqueness(table_id, column_id, col_name, value, excluding_row_id)] *)
Definition _check_uniqueness (table_id column_id : nat) (col_name : string)
    (value : option string) (excluding_row_id : string) : M unit :=
  match value with
  | None => ret tt
  | Some v =>
      if decide (v = "") then ret tt
      else
        let* rows := select (λ d, take 1
                        (uniqueness_conflicts table_id column_id v excluding_row_id d)) in
        if decide (0 < length rows)
        then throw ("Value " ++ Js.dq ++ v ++ Js.dq ++ " already exists in column "
                    ++ Js.dq ++ col_name ++ Js.dq ++ " (unique constraint)")
        else ret tt
  end.

(** The rows the query of [_check_fk_exists] returns before [LIMIT 1]. *)
Definition fk_targets (to_table_id : nat) (value : string) (d : DB) : list string :=
  ch_row_id <$>
  filter (λ ch, ch_table_id ch = to_table_id ∧ ch_sentinel ch = Some NEW
                ∧ ch_row_id ch = value
                ∧ (ch_row_id ch ∉ deleted_rows d to_table_id))
         (cell_history d).

(** [_check_fk_exists(to_table_id, value, col_name)] *)
Definition _check_fk_exists (to_table_id : nat) (value : option string)
    (col_name : string) : M unit :=
  match value with
  | None => ret tt
  | Some v =>
      if decide (v = "") then ret tt
      else
        let* rows := select (λ d, take 1 (fk_targets to_table_id v d)) in
        if decide (length rows = 0)
        then throw ("Value in column " ++ Js.dq ++ col_name ++ Js.dq
                    ++ " does not reference a valid row in the linked table")
        else ret tt
  end.

(** [SELECT DISTINCT row_id FROM cell_history
     WHERE table_id = ? AND sentinel = '__new__'
       AND row_id NOT IN (SELECT row_id FROM deleted_rows)] *)
Definition live_rows (id : nat) (d : DB) : list string :=
  remove_dups (ch_row_id <$>
    filter (λ ch, ch_table_id ch = id ∧ ch_sentinel ch = Some NEW
                  ∧ (ch_row_id ch ∉ deleted_rows d id))
           (cell_history d)).

(** [SELECT COUNT(DISTINCT row_id) AS cnt FROM cell_history
     WHERE table_id = ? AND sentinel = '__new__'
       AND row_id NOT IN (SELECT row_id FROM deleted_rows)] *)
Definition live_row_count (id : nat) (d : DB) : nat := length (live_rows id d).

(** [COALESCE(MAX(display_order), -1)] over the live columns of a table. *)
Definition max_order (table_id : nat) (d : DB) : Z :=
  match c_display_order <$> filter (λ c, c_table_id c = table_id ∧ live_column c) (columns d) with
  | [] => (-1)%Z
  | x :: l => foldl Z.max x l
  end.

(** The duplicate groups of [set_column_unique], before [LIMIT 1]. *)
Definition duplicate_values (table_id column_id : nat) (d : DB) : list (string * nat) :=
  let vals : list string :=
    '(l, ch) ← latest_joined d table_id;
    match ch_value ch with
    | Some v =>
        if decide (l_column_id l = Some column_id ∧ v ≠ ""
                   ∧ l_row_id l ∉ deleted_rows d table_id)
        then [v] else []
    | None => []
    end in
  filter (λ g, 1 < g.2)
         ((λ v, (v, length (filter (λ x, x = v) vals))) <$> remove_dups vals).

(** A row of the [inbound] query of [delete_row]. *)
Record Inbound := {
  in_from_column_id : nat;
  in_from_table_id : nat;
  in_from_table_name : string
}.

(** [SELECT fk.from_column_id, c.table_id AS from_table_id, t.name AS from_table_name
     FROM foreign_keys fk JOIN columns c ON c.id = fk.from_column_id
     JOIN tables t ON t.id = c.table_id
     WHERE fk.to_table_id = ? AND fk.deleted_at IS NULL
       AND c.deleted_at IS NULL AND t.deleted_at IS NULL] *)
Definition inbound (table_id : nat) (d : DB) : list Inbound :=
  fk ← foreign_keys d;
  c ← filter (λ c, c_id c = fk_from_column_id fk) (columns d);
  t ← filter (λ t, t_id t = c_table_id c) (tables d);
  if decide (fk_to_table_id fk = table_id ∧ live_fk fk ∧ live_column c ∧ live_table t)
  then [ {| in_from_column_id := fk_from_column_id fk;
            in_from_table_id := c_table_id c;
            in_from_table_name := t_name t |} ]
  else [].

(** The rows the reference query of [delete_row] counts:
    [FROM latest l JOIN cell_history ch ON ch.id = l.max_id
     WHERE l.column_id = ? AND ch.value = ?
       AND l.row_id NOT IN (SELECT row_id FROM deleted_rows)] *)
Definition referencing_rows (from_table_id from_column_id : nat) (row_id : string)
    (d : DB) : list string :=
  '(l, ch) ← latest_joined d from_table_id;
  if decide (l_column_id l = Some from_column_id ∧ ch_value ch = Some row_id
             ∧ l_row_id l ∉ deleted_rows d from_table_id)
  then [l_row_id l] else [].

(** Its [COUNT( * )]. *)
Definition referencing_count (from_table_id from_column_id : nat) (row_id : string)
    (d : DB) : nat :=
  length (referencing_rows from_table_id from_column_id row_id d).

(** ** The message handlers *)

Section Handlers.

Variable env : Env.

(** [await exec(sql, bind)] (or [run(sql, bind)]) for a statement that
    writes: refused by the storage layer, or rejected by a constraint,
    or applied. *)
Definition statement {A} (sql : nat → DB → Res (A * DB)) : M A :=
  λ s, match storage env s.1 with
       | Some message => (Throw message, (S s.1, s.2))
       | None =>
           match sql (clock env s.1) s.2 with
           | Ok (a, d') => (Ok a, (S s.1, d'))
           | Throw e => (Throw e, (S s.1, s.2))
           end
       end.

Definition create_table (name : string) : M (nat * string) :=
  let name := Js.trim name in
  if decide (name = "") then throw "Table name cannot be empty"
  else
    let* existing := select (λ d,
        filter (λ t, t_name t = name ∧ live_table t) (tables d)) in
    if decide (0 < length existing)
    then throw ("Table " ++ Js.dq ++ name ++ Js.dq ++ " already exists")
    else
      let* id := statement (sql_insert_table name) in
      ret (id, name).

Definition rename_table (id : nat) (name : string) : M (nat * string) :=
  let name := Js.trim name in
  if decide (name = "") then throw "Table name cannot be empty"
  else
    let* conflict := select (λ d,
        filter (λ t, t_name t = name ∧ t_id t ≠ id ∧ live_table t) (tables d)) in
    if decide (0 < length conflict)
    then throw ("Table " ++ Js.dq ++ name ++ Js.dq ++ " already exists")
    else
      statement (sql_rename_table name id) ;;
      ret (id, name).

Definition delete_table (id : nat) : M unit :=
  let* cnt := select (live_row_count id) in
  if decide (0 < cnt)
  then throw ("Cannot delete table: it still has " ++ Js.show cnt
              ++ " live row(s). Delete all rows first.")
  else
    statement (sql_delete_fks_of_table id) ;;
    statement (sql_delete_columns_of_table id) ;;
    statement (sql_delete_table id) ;;
    ret tt.

Definition create_column (table_id : nat) (name : string) (is_unique : nat)
  : M (nat * string * Z * nat) :=
  let name := Js.trim name in
  if decide (name = "") then throw "Column name cannot be empty"
  else
    let* max_order := select (max_order table_id) in
    let display_order := (max_order + 1)%Z in
    let* id :=
      try_catch
        (statement (sql_insert_column table_id name display_order is_unique))
        (λ e, if Js.includes e "UNIQUE"
              then throw ("Column " ++ Js.dq ++ name ++ Js.dq
                          ++ " already exists in this table")
              else throw e) in
    ret (id, name, display_order, is_unique).

Definition rename_column (id : nat) (name : string) : M (nat * string) :=
  let name := Js.trim name in
  if decide (name = "") then throw "Column name cannot be empty"
  else
    let* col := select (λ d,
        head (filter (λ c, c_id c = id ∧ live_column c) (columns d))) in
    match col with
    | None => throw "Column not found"
    | Some col =>
        let* conflict := select (λ d,
            filter (λ c, c_table_id c = c_table_id col ∧ c_name c = name
                         ∧ c_id c ≠ id ∧ live_column c) (columns d)) in
        if decide (0 < length conflict)
        then throw ("Column " ++ Js.dq ++ name ++ Js.dq
                    ++ " already exists in this table")
        else
          statement (sql_rename_column name id) ;;
          ret (id, name)
    end.

Definition set_column_unique (id : nat) (is_unique : bool) : M (nat * nat) :=
  let* col := select (λ d,
      head (filter (λ c, c_id c = id ∧ live_column c) (columns d))) in
  match col with
  | None => throw "Column not found"
  | Some col =>
      (if is_unique
       then
         let* dupes := select (λ d, take 1 (duplicate_values (c_table_id col) id d)) in
         if decide (0 < length dupes)
         then throw ("Cannot enable unique constraint on " ++ Js.dq ++ c_name col
                     ++ Js.dq ++ ": column already has duplicate values")
         else ret tt
       else ret tt) ;;
      statement (sql_set_unique (if is_unique then 1 else 0) id) ;;
      ret (id, if is_unique then 1 else 0)
  end.

Definition delete_column (id : nat) : M unit :=
  statement (sql_delete_fks_of_column id) ;;
  statement (sql_delete_column id) ;;
  ret tt.

(** The first loop of [create_row]: "Validate before writing anything". *)
Definition create_row_validate (table_id : nat) (row_id : string)
    (colMap : gmap string ColInfo) (fkMap : gmap nat nat)
    (cells : list (string * option string)) : M unit :=
  for_each cells (λ '(colName, value),
    match colMap !! colName with
    | None => ret tt
    | Some col =>
        if negb (Js.truthy value) then ret tt
        else
          (if decide (col_is_unique col ≠ 0)
           then _check_uniqueness table_id (col_id col) colName value row_id
           else ret tt) ;;
          match fkMap !! col_id col with
          | Some to_table_id => _check_fk_exists to_table_id value colName
          | None => ret tt
          end
    end).

(** The second loop of [create_row]: "Write initial cells". *)
Definition create_row_write (table_id : nat) (row_id : string)
    (colMap : gmap string ColInfo) (cells : list (string * option string)) : M unit :=
  for_each cells (λ '(colName, value),
    match colMap !! colName with
    | Some col =>
        if Js.truthy value
        then statement (sql_insert_event table_id row_id (Some (col_id col)) None value)
        else ret tt
    | None => ret tt
    end).

Definition create_row (table_id : nat) (cells : list (string * option string))
  : M string :=
  let* colMap := select (_col_map_for_table table_id) in
  let* fkMap := select (_get_fk_map_for_table table_id) in
  let row_id := randomUUID env in
  create_row_validate table_id row_id colMap fkMap cells ;;
  (* Write __new__ sentinel *)
  statement (sql_insert_event table_id row_id None (Some NEW) None) ;;
  create_row_write table_id row_id colMap cells ;;
  ret row_id.

(** The first loop of [update_row]: "Validate first". *)
Definition update_row_validate (table_id : nat) (row_id : string)
    (colMap : gmap string ColInfo) (fkMap : gmap nat nat)
    (cells : list (string * option string)) : M unit :=
  for_each cells (λ '(colName, value),
    match colMap !! colName with
    | None => ret tt
    | Some col =>
        (if Js.truthy value && bool_decide (col_is_unique col ≠ 0)
         then _check_uniqueness table_id (col_id col) colName value row_id
         else ret tt) ;;
        match fkMap !! col_id col with
        | Some to_table_id =>
            if Js.truthy value
            then _check_fk_exists to_table_id value colName
            else ret tt
        | None => ret tt
        end
    end).

(** The second loop of [update_row]: "Write"; the result is the final
    value of [inserted]. *)
Definition update_row_write (table_id : nat) (row_id : string)
    (colMap : gmap string ColInfo) (cells : list (string * option string)) : M bool :=
  for_fold cells false (λ inserted '(colName, value),
    match colMap !! colName with
    | None => ret inserted
    | Some col =>
        statement (sql_insert_event table_id row_id (Some (col_id col)) None value) ;;
        ret true
    end).

Definition update_row (table_id : nat) (row_id : string)
    (cells : list (string * option string)) : M string :=
  let* colMap := select (_col_map_for_table table_id) in
  let* fkMap := select (_get_fk_map_for_table table_id) in
  update_row_validate table_id row_id colMap fkMap cells ;;
  let* inserted := update_row_write table_id row_id colMap cells in
  if negb inserted then throw "No valid columns found in update"
  else ret row_id.

Definition delete_row (table_id : nat) (row_id : string) : M unit :=
  (* Check all inbound FK references to this table *)
  let* inbound := select (inbound table_id) in
  for_each inbound (λ fk,
    let* cnt := select (referencing_count (in_from_table_id fk)
                          (in_from_column_id fk) row_id) in
    if decide (0 < cnt)
    then throw ("Cannot delete: " ++ Js.show cnt ++ " row(s) in " ++ Js.dq
                ++ in_from_table_name fk ++ Js.dq ++ " reference this row")
    else ret tt) ;;
  statement (sql_insert_event table_id row_id None (Some DELETED) (Some "1")) ;;
  ret tt.

Definition create_foreign_key (from_column_id to_table_id : nat)
  : M (nat * nat * nat) :=
  (* Validate from_column exists *)
  let* fromCol := select (λ d,
      head (filter (λ c, c_id c = from_column_id ∧ live_column c) (columns d))) in
  match fromCol with
  | None => throw "Column not found"
  | Some fromCol =>
      (* Prevent self-reference *)
      if decide (c_table_id fromCol = to_table_id)
      then throw "A table cannot reference itself"
      else
        (* Validate to_table exists *)
        let* toTable := select (λ d,
            head (filter (λ t, t_id t = to_table_id ∧ live_table t) (tables d))) in
        match toTable with
        | None => throw "Target table not found"
        | Some _ =>
            (* Check only one FK per column *)
            let* existing := select (λ d,
                filter (λ fk, fk_from_column_id fk = from_column_id ∧ live_fk fk)
                       (foreign_keys d)) in
            if decide (0 < length existing)
            then throw "Column already has a foreign key defined"
            else
              let* id := statement (sql_insert_fk from_column_id to_table_id) in
              ret (id, from_column_id, to_table_id)
        end
  end.

Definition delete_foreign_key (id : nat) : M unit :=
  statement (sql_delete_fk id) ;;
  ret tt.

End Handlers.

(** ** The handlers that read *)

(** A row of [get_tables]. *)
Record TableRow := {
  tr_id : nat;
  tr_name : string;
  tr_created_at : nat
}.

(** [ORDER BY created_at, id] *)
Definition table_le (x y : Table) : Prop :=
  (t_created_at x < t_created_at y)%nat
  ∨ (t_created_at x = t_created_at y ∧ (t_id x ≤ t_id y)%nat).

(** [SELECT id, name, created_at FROM tables WHERE deleted_at IS NULL
     ORDER BY created_at, id] *)
Definition get_tables (d : DB) : list TableRow :=
  (λ t, {| tr_id := t_id t; tr_name := t_name t; tr_created_at := t_created_at t |})
  <$> merge_sort table_le (filter live_table (tables d)).

(** A row of [get_columns]. *)
Record ColumnRow := {
  cr_id : nat;
  cr_name : string;
  cr_display_order : Z;
  cr_is_unique : nat;
  cr_created_at : nat
}.

(** [ORDER BY display_order, id] *)
Definition column_le (x y : Column) : Prop :=
  (c_display_order x < c_display_order y)%Z
  ∨ (c_display_order x = c_display_order y ∧ (c_id x ≤ c_id y)%nat).

(** [SELECT id, name, display_order, is_unique, created_at FROM columns
     WHERE table_id = ? AND deleted_at IS NULL ORDER BY display_order, id] *)
Definition get_columns (d : DB) (table_id : nat) : list ColumnRow :=
  (λ c, {| cr_id := c_id c; cr_name := c_name c;
           cr_display_order := c_display_order c; cr_is_unique := c_is_unique c;
           cr_created_at := c_created_at c |})
  <$> merge_sort column_le
        (filter (λ c, c_table_id c = table_id ∧ live_column c) (columns d)).

(** A record of the query of [get_row_history]. *)
Record HistoryRow := {
  h_id : nat;
  h_row_id : string;
  h_sentinel : option string;
  h_column_name : option string;
  h_column_id : option nat;
  h_value : option string;
  h_timestamp : nat
}.

(** [ORDER BY ch.timestamp ASC, ch.id ASC] *)
Definition history_le (x y : HistoryRow) : Prop :=
  (h_timestamp x < h_timestamp y)%nat
  ∨ (h_timestamp x = h_timestamp y ∧ (h_id x ≤ h_id y)%nat).






(** A row of [get_foreign_keys]. *)
Record FkRow := {
  fr_id : nat;
  fr_from_column_id : nat;
  fr_from_column_name : string;
  fr_to_table_id : nat;
  fr_to_table_name : string;
  fr_created_at : nat
}.

(** [ORDER BY fk.created_at]; the order among ties is the one of the
    sort. *)
Definition fk_row_le (x y : FkRow) : Prop := (fr_created_at x ≤ fr_created_at y)%nat.

#[global] Instance fk_row_le_dec : RelDecision fk_row_le.
Proof. intros x y. unfold fk_row_le. apply _. Defined.

(** [SELECT fk.id, fk.from_column_id, c.name AS from_column_name,
            fk.to_table_id, t.name AS to_table_name
     FROM foreign_keys fk JOIN columns c ON c.id = fk.from_column_id
     JOIN tables t ON t.id = fk.to_table_id
     WHERE c.table_id = ? AND fk.deleted_at IS NULL
       AND c.deleted_at IS NULL AND t.deleted_at IS NULL
     ORDER BY fk.created_at] *)
Definition get_foreign_keys (d : DB) (table_id : nat) : list FkRow :=
  merge_sort fk_row_le (
    fk ← foreign_keys d;
    c ← filter (λ c, c_id c = fk_from_column_id fk) (columns d);
    t ← filter (λ t, t_id t = fk_to_table_id fk) (tables d);
    if decide (c_table_id c = table_id ∧ live_fk fk ∧ live_column c ∧ live_table t)
    then [ {| fr_id := fk_id fk; fr_from_column_id := fk_from_column_id fk;
              fr_from_column_name := c_name c; fr_to_table_id := fk_to_table_id fk;
              fr_to_table_name := t_name t; fr_created_at := fk_created_at fk |} ]
    else []).

(** A row of [ranked], before the numbering. *)
Record Ranked := {
  rk_row_id : string;
  rk_value : string;
  rk_display_order : Z;
  rk_column_id : nat
}.

(** [ORDER BY c.display_order, c.id] *)
Definition ranked_le (x y : Ranked) : Prop :=
  (rk_display_order x < rk_display_order y)%Z
  ∨ (rk_display_order x = rk_display_order y ∧ (rk_column_id x ≤ rk_column_id y)%nat).

(** [FROM latest l JOIN cell_history ch ON ch.id = l.max_id
     JOIN columns c ON c.id = l.column_id
     WHERE l.row_id IN (SELECT row_id FROM live_rows)
       AND ch.value IS NOT NULL AND ch.value != '' AND c.deleted_at IS NULL] *)
Definition ranked (d : DB) (to_table_id : nat) : list Ranked :=
  '(l, ch) ← latest_joined d to_table_id;
  c ← filter (λ c, Some (c_id c) = l_column_id l) (columns d);
  match ch_value ch with
  | Some v =>
      if decide (l_row_id l ∈ live_rows to_table_id d ∧ v ≠ "" ∧ live_column c)
      then [ {| rk_row_id := l_row_id l; rk_value := v;
                rk_display_order := c_display_order c; rk_column_id := c_id c |} ]
      else []
  | None => []
  end.

(** The row of [ranked] whose [ROW_NUMBER() OVER (PARTITION BY l.row_id
    ORDER BY c.display_order, c.id)] is 1, for one row identifier. *)
Definition first_ranked (d : DB) (to_table_id : nat) (r : string) : option Ranked :=
  head (merge_sort ranked_le (filter (λ x, rk_row_id x = r) (ranked d to_table_id))).

(** [ORDER BY lr.row_id]; text compares byte-wise. *)
Definition row_id_le (x y : string) : Prop := Is_true (String.leb x y).

#[global] Instance row_id_le_dec : RelDecision row_id_le.
Proof. intros x y. unfold row_id_le. apply _. Defined.

(** [get_fk_options({ column_id })]: pairs [{row_id, label}]. *)
Definition get_fk_options (d : DB) (column_id : nat) : list (string * option string) :=
  match head (filter (λ fk, fk_from_column_id fk = column_id ∧ live_fk fk)
                     (foreign_keys d)) with
  | None => []
  | Some fkDef =>
      let to_table_id := fk_to_table_id fkDef in
      (λ r, (r, rk_value <$> first_ranked d to_table_id r))
      <$> merge_sort row_id_le (live_rows to_table_id d)
  end.

(** ** The dispatcher *)

(** The database a handler leaves behind. *)
Definition after {A} (m : M A) (d : DB) : DB := (run_handler m d).2.

(** A request to the worker: the [type] and [payload] of a message. *)
Inductive Request : Type :=
  | CreateTable (name : string)
  | RenameTable (id : nat) (name : string)
  | DeleteTable (id : nat)
  | CreateColumn (table_id : nat) (name : string) (is_unique : nat)
  | RenameColumn (id : nat) (name : string)
  | SetColumnUnique (id : nat) (is_unique : bool)
  | DeleteColumn (id : nat)
  | CreateRow (table_id : nat) (cells : list (string * option string))
  | UpdateRow (table_id : nat) (row_id : string) (cells : list (string * option string))
  | DeleteRow (table_id : nat) (row_id : string)
  | CreateForeignKey (from_column_id to_table_id : nat)
  | DeleteForeignKey (id : nat).

(** The database after [handlers[type](payload)], whether the handler
    returned or threw. *)
Definition handle (env : Env) (q : Request) (d : DB) : DB :=
  match q with
  | CreateTable name => after (create_table env name) d
  | RenameTable id name => after (rename_table env id name) d
  | DeleteTable id => after (delete_table env id) d
  | CreateColumn table_id name is_unique =>
      after (create_column env table_id name is_unique) d
  | RenameColumn id name => after (rename_column env id name) d
  | SetColumnUnique id is_unique => after (set_column_unique env id is_unique) d
  | DeleteColumn id => after (delete_column env id) d
  | CreateRow table_id cells => after (create_row env table_id cells) d
  | UpdateRow table_id row_id cells => after (update_row env table_id row_id cells) d
  | DeleteRow table_id row_id => after (delete_row env table_id row_id) d
  | CreateForeignKey from_column_id to_table_id =>
      after (create_foreign_key env from_column_id to_table_id) d
  | DeleteForeignKey id => after (delete_foreign_key env id) d
  end.

(** The databases reached from a fresh one by requests, each in an
    environment of its own. *)
Inductive reachable : DB → Prop :=
  | reachable_fresh : reachable fresh_db
  | reachable_handle env q d : reachable d → reachable (handle env q d).

(** ** The notions the specification speaks of *)

(** The row has a row-created event in the table. *)
Definition row_created (d : DB) (table_id : nat) (r : string) : Prop :=
  ∃ e, e ∈ cell_history d ∧ ch_table_id e = table_id ∧ ch_row_id e = r
       ∧ ch_sentinel e = Some NEW.

(** The greatest id among the lifecycle events of the row whose value is
    [v] (["1"] marks deleted, ["0"] restored); 0 when there is none. *)
Definition max_marking (v : string) (d : DB) (table_id : nat) (r : string) : nat :=
  max_list (ch_id <$>
    filter (λ e, ch_table_id e = table_id ∧ ch_row_id e = r
                 ∧ ch_sentinel e = Some DELETED ∧ ch_value e = Some v)
           (cell_history d)).

(** The latest "deleted" marking is more recent than the latest
    "restored" one. *)
Definition net_deleted (d : DB) (table_id : nat) (r : string) : Prop :=
  max_marking "0" d table_id r < max_marking "1" d table_id r.

(** Liveness of a row as the data model defines it. *)
Definition row_live (d : DB) (table_id : nat) (r : string) : Prop :=
  row_created d table_id r ∧ ¬ net_deleted d table_id r.

(** [e] is a cell event (not a lifecycle event) of the pair. *)
Definition cell_event_of (d : DB) (table_id : nat) (r : string) (column_id : option nat)
    (e : CellEvent) : Prop :=
  e ∈ cell_history d ∧ ch_table_id e = table_id ∧ ch_sentinel e = None
  ∧ ch_row_id e = r ∧ ch_column_id e = column_id.

(** [e] is the cell event with the greatest id for the pair. *)
Definition is_latest (d : DB) (table_id : nat) (r : string) (column_id : option nat)
    (e : CellEvent) : Prop :=
  cell_event_of d table_id r column_id e ∧
  ∀ e', cell_event_of d table_id r column_id e' → (ch_id e' ≤ ch_id e)%nat.

(** The current value of the pair is [v]. *)
Definition holds_value (d : DB) (table_id : nat) (r : string) (column_id : nat)
    (v : option string) : Prop :=
  ∃ e, is_latest d table_id r (Some column_id) e ∧ ch_value e = v.

(** The row has a cell event on a live column. *)
Definition has_live_cell (d : DB) (table_id : nat) (r : string) : Prop :=
  ∃ e c, cell_event_of d table_id r (Some (c_id c)) e ∧ c ∈ columns d ∧ live_column c.

(** The row has no cell event at all in the table. *)
Definition no_cell_event (d : DB) (table_id : nat) (r : string) : Prop :=
  ∀ e column_id, ¬ cell_event_of d table_id r column_id e.

(** The row identifiers [get_rows] returns. *)
Definition appears (d : DB) (table_id : nat) (r : string) : Prop :=
  r ∈ row_id <$> get_rows d table_id.

(** *** Constraints the schema maintains *)

(** [id INTEGER PRIMARY KEY] on [cell_history] and on [columns]. *)
Definition event_ids_unique (d : DB) : Prop := NoDup (ch_id <$> cell_history d).
Definition column_ids_unique (d : DB) : Prop := NoDup (c_id <$> columns d).

(** [UNIQUE(table_id, name)] on [columns]. *)
Definition column_names_unique (d : DB) : Prop :=
  ∀ c1 c2, c1 ∈ columns d → c2 ∈ columns d →
    c_table_id c1 = c_table_id c2 → c_name c1 = c_name c2 → c_id c1 = c_id c2.

(** A cell event is recorded for a column of its own table. *)
Definition events_in_own_table (d : DB) : Prop :=
  ∀ e c, e ∈ cell_history d → c ∈ columns d →
    ch_column_id e = Some (c_id c) → c_table_id c = ch_table_id e.

(** No foreign key is anchored on a column of its target table. *)
Definition no_self_reference (d : DB) : Prop :=
  ∀ fk c, fk ∈ foreign_keys d → c ∈ columns d →
    c_id c = fk_from_column_id fk → c_table_id c ≠ fk_to_table_id fk.

(** A column has at most one live foreign key. *)
Definition one_live_fk_per_column (d : DB) : Prop :=
  ∀ i j fk1 fk2, foreign_keys d !! i = Some fk1 → foreign_keys d !! j = Some fk2 →
    live_fk fk1 → live_fk fk2 →
    fk_from_column_id fk1 = fk_from_column_id fk2 → i = j.

(** A foreign key is anchored on a recorded column. *)
Definition fks_on_columns (d : DB) : Prop :=
  ∀ fk, fk ∈ foreign_keys d → fk_from_column_id fk ∈ c_id <$> columns d.

(** *** Tombstoning *)

(** The foreign key is anchored on a live column of the table. *)
Definition anchored_on (d : DB) (table_id : nat) (fk : ForeignKey) : Prop :=
  ∃ c, c ∈ columns d ∧ c_id c = fk_from_column_id fk ∧ c_table_id c = table_id
       ∧ live_column c.

Definition fk_tombstoned (fk fk' : ForeignKey) : Prop :=
  fk_id fk' = fk_id fk ∧ fk_from_column_id fk' = fk_from_column_id fk
  ∧ fk_to_table_id fk' = fk_to_table_id fk ∧ fk_created_at fk' = fk_created_at fk
  ∧ fk_deleted_at fk' ≠ None.

Definition column_tombstoned (c c' : Column) : Prop :=
  c_id c' = c_id c ∧ c_table_id c' = c_table_id c ∧ c_name c' = c_name c
  ∧ c_display_order c' = c_display_order c ∧ c_is_unique c' = c_is_unique c
  ∧ c_created_at c' = c_created_at c ∧ c_deleted_at c' ≠ None.

Definition table_tombstoned (t t' : Table) : Prop :=
  t_id t' = t_id t ∧ t_name t' = t_name t ∧ t_created_at t' = t_created_at t
  ∧ t_deleted_at t' ≠ None.

(** [l'] is [l] with the elements that satisfy [P] tombstoned and the
    others untouched. *)
Definition tombstones {A} (P : A → Prop) (T : A → A → Prop) (l l' : list A) : Prop :=
  Forall2 (λ x x', (P x → T x x') ∧ (¬ P x → x' = x)) l l'.

(** The three statements of [delete_table], as relations between the
    database before and after. *)
Definition fks_step (table_id : nat) (d d' : DB) : Prop :=
  tombstones (λ fk, live_fk fk ∧ anchored_on d table_id fk) fk_tombstoned
             (foreign_keys d) (foreign_keys d')
  ∧ tables d' = tables d ∧ columns d' = columns d
  ∧ cell_history d' = cell_history d.

Definition columns_step (table_id : nat) (d d' : DB) : Prop :=
  tombstones (λ c, c_table_id c = table_id ∧ live_column c) column_tombstoned
             (columns d) (columns d')
  ∧ tables d' = tables d ∧ foreign_keys d' = foreign_keys d
  ∧ cell_history d' = cell_history d.

Definition table_step (table_id : nat) (d d' : DB) : Prop :=
  tombstones (λ t, t_id t = table_id ∧ live_table t) table_tombstoned
             (tables d) (tables d')
  ∧ columns d' = columns d ∧ foreign_keys d' = foreign_keys d
  ∧ cell_history d' = cell_history d.

(** *** Foreign keys *)

(** The reasons for which [create_foreign_key] refuses a request. *)
Definition fk_refused (d : DB) (from_column_id to_table_id : nat) : Prop :=
  (¬ ∃ c, c ∈ columns d ∧ c_id c = from_column_id ∧ live_column c)
  ∨ (∃ c, c ∈ columns d ∧ c_id c = from_column_id ∧ live_column c
          ∧ c_table_id c = to_table_id)
  ∨ (¬ ∃ t, t ∈ tables d ∧ t_id t = to_table_id ∧ live_table t)
  ∨ (∃ fk, fk ∈ foreign_keys d ∧ fk_from_column_id fk = from_column_id ∧ live_fk fk).

(** *** Writing cells *)

(** [d'] is [d] with the events [new] appended, their keys being the
    next ones. *)
Definition appended (d d' : DB) (new : list CellEvent) : Prop :=
  d' = with_cell_history d (cell_history d ++ new) ∧
  ch_id <$> new = seq (next_id (ch_id <$> cell_history d)) (length new).

(** The name is the name of a live column of the table. *)
Definition recognized (d : DB) (table_id : nat) (name : string) : Prop :=
  Exists (λ c, c_table_id c = table_id ∧ live_column c ∧ c_name c = name) (columns d).

(** The supplied entries whose name is recognized. *)
Definition accepted (d : DB) (table_id : nat) (cells : list (string * option string))
  : list (string * option string) :=
  filter (λ nv, recognized d table_id nv.1) cells.

(** [e] is a cell event of the row for the entry [nv]: its column is a
    live column of the table with the entry's name, its value the
    entry's value. *)
Definition cell_event_for (d : DB) (table_id : nat) (row_id : string)
    (nv : string * option string) (e : CellEvent) : Prop :=
  ch_table_id e = table_id ∧ ch_row_id e = row_id ∧ ch_sentinel e = None
  ∧ ch_value e = nv.2
  ∧ ∃ c, c ∈ columns d ∧ c_table_id c = table_id ∧ live_column c
         ∧ c_name c = nv.1 ∧ ch_column_id e = Some (c_id c).

(** No other row that is not net-deleted holds the value in the column. *)
Definition unique_ok (d : DB) (table_id : nat) (row_id : string) (column_id : nat)
    (v : string) : Prop :=
  ¬ ∃ r, r ≠ row_id ∧ ¬ net_deleted d table_id r
         ∧ holds_value d table_id r column_id (Some v).

(** What the validation loops of [create_row] and [update_row] require of
    a supplied entry: when the name is that of a live column and the
    value is neither [null] nor empty, the value is not taken if the
    column is unique, and is a live row of the target if the column has a
    foreign key. *)
Definition cell_validates (d : DB) (table_id : nat) (row_id : string)
    (nv : string * option string) : Prop :=
  ∀ v col, nv.2 = Some v → v ≠ "" →
    _col_map_for_table table_id d !! nv.1 = Some col →
    (col_is_unique col ≠ 0 → unique_ok d table_id row_id (col_id col) v) ∧
    (∀ to_table_id, _get_fk_map_for_table table_id d !! col_id col = Some to_table_id →
                    row_live d to_table_id v).

Definition validates (d : DB) (table_id : nat) (row_id : string)
    (cells : list (string * option string)) : Prop :=
  Forall (cell_validates d table_id row_id) cells.

(** *** References *)

(** The row [r] of the table is not net-deleted and currently holds [v]
    in the column. *)
Definition holder (d : DB) (table_id column_id : nat) (v : string) (r : string) : Prop :=
  ¬ net_deleted d table_id r ∧ holds_value d table_id r column_id (Some v).

(** [fk] is a live foreign key that targets the table, anchored on the
    live column [c] of the live table [tb]. *)
Definition inbound_fk (d : DB) (table_id : nat) (fk : ForeignKey) (c : Column)
    (tb : Table) : Prop :=
  fk ∈ foreign_keys d ∧ live_fk fk ∧ fk_to_table_id fk = table_id
  ∧ c ∈ columns d ∧ c_id c = fk_from_column_id fk ∧ live_column c
  ∧ tb ∈ tables d ∧ t_id tb = c_table_id c ∧ live_table tb.

(** Some row of another table that is not net-deleted holds the
    identifier in a column that bears a live foreign key to the table. *)
Definition referenced (d : DB) (table_id : nat) (row_id : string) : Prop :=
  ∃ fk c tb r, inbound_fk d table_id fk c tb ∧ t_id tb ≠ table_id
               ∧ holder d (t_id tb) (c_id c) row_id r.

(** *** Unique columns *)


(** [c'] is [c] with its uniqueness flag set to [u]. *)
Definition flag_set (u : nat) (c c' : Column) : Prop :=
  c_id c' = c_id c ∧ c_table_id c' = c_table_id c ∧ c_name c' = c_name c
  ∧ c_display_order c' = c_display_order c ∧ c_created_at c' = c_created_at c
  ∧ c_deleted_at c' = c_deleted_at c ∧ c_is_unique c' = u.

(** [d'] is [d] with the flag of the live column [id] set to [u]. *)
Definition unique_flag_step (id u : nat) (d d' : DB) : Prop :=
  Forall2 (λ c c', (c_id c = id ∧ live_column c → flag_set u c c')
                   ∧ (¬ (c_id c = id ∧ live_column c) → c' = c))
          (columns d) (columns d')
  ∧ tables d' = tables d ∧ foreign_keys d' = foreign_keys d
  ∧ cell_history d' = cell_history d.

(** *** States the worker can reach *)

(** A cell event refers to a recorded column. *)
Definition events_on_columns (d : DB) : Prop :=
  ∀ e cid, e ∈ cell_history d → ch_column_id e = Some cid → cid ∈ c_id <$> columns d.

(** The constraints the schema and the handlers maintain together. *)
Record wf (d : DB) : Prop := {
  wf_event_ids : event_ids_unique d;
  wf_column_ids : column_ids_unique d;
  wf_column_names : column_names_unique d;
  wf_own_table : events_in_own_table d;
  wf_on_columns : events_on_columns d;
  wf_no_self : no_self_reference d;
  wf_one_fk : one_live_fk_per_column d;
  wf_fks : fks_on_columns d
}.

(** *** Notions used in the proofs *)


(** What the two loops of [get_rows] maintain: keys are distinct and each
    object carries its key. *)
Definition row_map_ok (m : list (string * RowObj)) : Prop :=
  NoDup m.*1 ∧ ∀ k o, (k, o) ∈ m → row_id o = k.

(** The computation leaves the property [I] of the database in place,
    whatever its outcome. *)
Definition keeps (I : DB → Prop) {A} (m : M A) : Prop :=
  ∀ s, I s.2 → I (m s).2.2.

(** *** What a request can change *)

(** The three kinds of events the handlers insert: a row creation, a
    cell write on a column, a "deleted" marking. *)
Definition event_shape (column_id : option nat) (sentinel value : option string) : Prop :=
  (column_id = None ∧ sentinel = Some NEW ∧ value = None)
  ∨ (is_Some column_id ∧ sentinel = None)
  ∨ (column_id = None ∧ sentinel = Some DELETED ∧ value = Some "1").

(** The write statements of the handlers, as a relation between the
    database before and after a statement that was applied. *)
Inductive Write : DB → DB → Prop :=
  | write_insert_table name now d id d' :
      sql_insert_table name now d = Ok (id, d') → Write d d'
  | write_rename_table name id now d d' :
      sql_rename_table name id now d = Ok (tt, d') → Write d d'
  | write_delete_fks_of_table table_id now d d' :
      sql_delete_fks_of_table table_id now d = Ok (tt, d') → Write d d'
  | write_delete_columns_of_table table_id now d d' :
      sql_delete_columns_of_table table_id now d = Ok (tt, d') → Write d d'
  | write_delete_table id now d d' :
      sql_delete_table id now d = Ok (tt, d') → Write d d'
  | write_insert_column table_id name display_order is_unique now d id d' :
      sql_insert_column table_id name display_order is_unique now d = Ok (id, d') →
      Write d d'
  | write_rename_column name id now d d' :
      sql_rename_column name id now d = Ok (tt, d') → Write d d'
  | write_set_unique is_unique id now d d' :
      sql_set_unique is_unique id now d = Ok (tt, d') → Write d d'
  | write_delete_fks_of_column column_id now d d' :
      sql_delete_fks_of_column column_id now d = Ok (tt, d') → Write d d'
  | write_delete_column id now d d' :
      sql_delete_column id now d = Ok (tt, d') → Write d d'
  | write_insert_event table_id row_id column_id sentinel value now d d' :
      event_shape column_id sentinel value →
      sql_insert_event table_id row_id column_id sentinel value now d = Ok (tt, d') →
      Write d d'
  | write_insert_fk from_column_id to_table_id now d id d' :
      sql_insert_fk from_column_id to_table_id now d = Ok (id, d') → Write d d'
  | write_delete_fk id now d d' :
      sql_delete_fk id now d = Ok (tt, d') → Write d d'.

(** [l'] is [l] with each element related to its successor by [R], and
    possibly new elements after them. *)
Definition extends {A} (R : A → A → Prop) (l l' : list A) : Prop :=
  ∃ k new : list A, l' = (k ++ new)%list ∧ Forall2 R l k.

(** What stays of a table, a column and a foreign key: the key and the
    fields no statement updates, and the whole record once it is
    tombstoned. *)
Definition table_kept (t t' : Table) : Prop :=
  t_id t' = t_id t ∧ t_created_at t' = t_created_at t
  ∧ (¬ live_table t → t' = t).

Definition column_kept (c c' : Column) : Prop :=
  c_id c' = c_id c ∧ c_table_id c' = c_table_id c
  ∧ c_display_order c' = c_display_order c ∧ c_created_at c' = c_created_at c
  ∧ (¬ live_column c → c' = c).

Definition fk_kept (fk fk' : ForeignKey) : Prop :=
  fk_id fk' = fk_id fk ∧ fk_from_column_id fk' = fk_from_column_id fk
  ∧ fk_to_table_id fk' = fk_to_table_id fk ∧ fk_created_at fk' = fk_created_at fk
  ∧ (¬ live_fk fk → fk' = fk).

(** [d'] comes from [d] by appending events and by updating or adding
    records, none being removed. *)
Definition evolves (d d' : DB) : Prop :=
  cell_history d `prefix_of` cell_history d'
  ∧ extends table_kept (tables d) (tables d')
  ∧ extends column_kept (columns d) (columns d')
  ∧ extends fk_kept (foreign_keys d) (foreign_keys d').

(** [e.message] of the error a call ends with, if it throws. *)
Definition error_of {A} (r : Res A * DB) : option string :=
  match r.1 with
  | Ok _ => None
  | Throw message => Some message
  end.

(** The [error] of the message the dispatcher posts back for a request,
    if it posts one. *)
Definition response_error (env : Env) (q : Request) (d : DB) : option string :=
  match q with
  | CreateTable name => error_of (run_handler (create_table env name) d)
  | RenameTable id name => error_of (run_handler (rename_table env id name) d)
  | DeleteTable id => error_of (run_handler (delete_table env id) d)
  | CreateColumn table_id name is_unique =>
      error_of (run_handler (create_column env table_id name is_unique) d)
  | RenameColumn id name => error_of (run_handler (rename_column env id name) d)
  | SetColumnUnique id is_unique =>
      error_of (run_handler (set_column_unique env id is_unique) d)
  | DeleteColumn id => error_of (run_handler (delete_column env id) d)
  | CreateRow table_id cells => error_of (run_handler (create_row env table_id cells) d)
  | UpdateRow table_id row_id cells =>
      error_of (run_handler (update_row env table_id row_id cells) d)
  | DeleteRow table_id row_id =>
      error_of (run_handler (delete_row env table_id row_id) d)
  | CreateForeignKey from_column_id to_table_id =>
      error_of (run_handler (create_foreign_key env from_column_id to_table_id) d)
  | DeleteForeignKey id => error_of (run_handler (delete_foreign_key env id) d)
  end.

(** Event keys are positive and grow along the log. *)
Definition event_ids_increase (d : DB) : Prop :=
  StronglySorted lt (0 :: (ch_id <$> cell_history d)).

(** Every event of the log has one of the three shapes. *)
Definition events_shaped (d : DB) : Prop :=
  Forall (λ e, event_shape (ch_column_id e) (ch_sentinel e) (ch_value e)) (cell_history d).

(** The database after a sequence of requests, each in an environment of
    its own. *)
Fixpoint handle_all (qs : list (Env * Request)) (d : DB) : DB :=
  match qs with
  | [] => d
  | (env, q) :: qs' => handle_all qs' (handle env q d)
  end.

(** The computation never changes the state. *)
Definition read_only {A} (m : M A) : Prop := ∀ s, (m s).2 = s.

(** The computation always returns. *)
Definition never_throws {A} (m : M A) : Prop := ∀ s, ∃ a s', m s = (Ok a, s').

(** When the computation throws, the database is the one it started
    from. *)
Definition fails_clean {A} (m : M A) : Prop :=
  ∀ s e s', m s = (Throw e, s') → s'.2 = s.2.

(** The statements of [delete_column] and [delete_foreign_key], as
    relations between the database before and after. *)
Definition fks_of_column_step (column_id : nat) (d d' : DB) : Prop :=
  tombstones (λ fk, fk_from_column_id fk = column_id ∧ live_fk fk) fk_tombstoned
             (foreign_keys d) (foreign_keys d')
  ∧ tables d' = tables d ∧ columns d' = columns d
  ∧ cell_history d' = cell_history d.

Definition column_step (id : nat) (d d' : DB) : Prop :=
  tombstones (λ c, c_id c = id ∧ live_column c) column_tombstoned
             (columns d) (columns d')
  ∧ tables d' = tables d ∧ foreign_keys d' = foreign_keys d
  ∧ cell_history d' = cell_history d.

Definition fk_step (id : nat) (d d' : DB) : Prop :=
  tombstones (λ fk, fk_id fk = id ∧ live_fk fk) fk_tombstoned
             (foreign_keys d) (foreign_keys d')
  ∧ tables d' = tables d ∧ columns d' = columns d
  ∧ cell_history d' = cell_history d.

(** [d'] is [d] with the live column [id] renamed to [name]. *)
Definition column_renamed (id : nat) (name : string) (d d' : DB) : Prop :=
  Forall2 (λ c c', if decide (c_id c = id ∧ live_column c)
                   then c_id c' = c_id c ∧ c_table_id c' = c_table_id c
                        ∧ c_name c' = name
                        ∧ c_display_order c' = c_display_order c
                        ∧ c_is_unique c' = c_is_unique c
                        ∧ c_created_at c' = c_created_at c ∧ live_column c'
                   else c' = c) (columns d) (columns d')
  ∧ tables d' = tables d ∧ foreign_keys d' = foreign_keys d
  ∧ cell_history d' = cell_history d.

(** *** Reading a cell *)




(** The value (possibly [null]) an entry list supplies for a name: the
    one of the last entry with the name. *)
Definition supplied (cells : list (string * option string)) (n : string)
  : option (option string) :=
  snd <$> last (filter (λ nv, nv.1 = n) cells).

#[global] Instance net_deleted_dec d table_id r : Decision (net_deleted d table_id r).
Proof. unfold net_deleted. apply _. Defined.




(** ** Example databases *)

(** An environment with a healthy storage layer. *)
Definition env0 : Env :=
  {| clock := λ n, 100 + n; storage := λ _, None; randomUUID := "row-1" |}.

(** A table with one column and a cell written by [update_row] under an
    identifier that [create_row] never produced. *)
Definition ghost_db : DB :=
  {| tables := [ {| t_id := 1; t_name := "Tasks"; t_created_at := 100;
                    t_deleted_at := None |} ];
     columns := [ {| c_id := 1; c_table_id := 1; c_name := "Title";
                     c_display_order := 0; c_is_unique := 0; c_created_at := 100;
                     c_deleted_at := None |} ];
     cell_history := [ {| ch_id := 1; ch_table_id := 1; ch_row_id := "ghost";
                          ch_column_id := Some 1; ch_sentinel := None;
                          ch_value := Some "x"; ch_timestamp := 100 |} ];
     foreign_keys := [] |}.

(** A row created with one cell, whose column is deleted afterwards. *)
Definition orphan_db : DB :=
  {| tables := [ {| t_id := 1; t_name := "Tasks"; t_created_at := 100;
                    t_deleted_at := None |} ];
     columns := [ {| c_id := 1; c_table_id := 1; c_name := "Title";
                     c_display_order := 0; c_is_unique := 0; c_created_at := 100;
                     c_deleted_at := Some 101 |} ];
     cell_history := [ {| ch_id := 1; ch_table_id := 1; ch_row_id := "row-1";
                          ch_column_id := None; ch_sentinel := Some NEW;
                          ch_value := None; ch_timestamp := 100 |};
                       {| ch_id := 2; ch_table_id := 1; ch_row_id := "row-1";
                          ch_column_id := Some 1; ch_sentinel := None;
                          ch_value := Some "x"; ch_timestamp := 101 |} ];
     foreign_keys := [] |}.

(** Two columns written in turn for one row:
    [create_row {Title: "a1"}], then [update_row] with [Note], [Title],
    [Note] again. *)
Definition interleaved_db : DB :=
  {| tables := [ {| t_id := 1; t_name := "Tasks"; t_created_at := 100;
                    t_deleted_at := None |} ];
     columns := [ {| c_id := 1; c_table_id := 1; c_name := "Title";
                     c_display_order := 0; c_is_unique := 0; c_created_at := 100;
                     c_deleted_at := None |};
                  {| c_id := 2; c_table_id := 1; c_name := "Note";
                     c_display_order := 1; c_is_unique := 0; c_created_at := 100;
                     c_deleted_at := None |} ];
     cell_history := [ {| ch_id := 1; ch_table_id := 1; ch_row_id := "row-1";
                          ch_column_id := None; ch_sentinel := Some NEW;
                          ch_value := None; ch_timestamp := 100 |};
                       {| ch_id := 2; ch_table_id := 1; ch_row_id := "row-1";
                          ch_column_id := Some 1; ch_sentinel := None;
                          ch_value := Some "a1"; ch_timestamp := 101 |};
                       {| ch_id := 3; ch_table_id := 1; ch_row_id := "row-1";
                          ch_column_id := Some 2; ch_sentinel := None;
                          ch_value := Some "b1"; ch_timestamp := 100 |};
                       {| ch_id := 4; ch_table_id := 1; ch_row_id := "row-1";
                          ch_column_id := Some 1; ch_sentinel := None;
                          ch_value := Some "a2"; ch_timestamp := 100 |};
                       {| ch_id := 5; ch_table_id := 1; ch_row_id := "row-1";
                          ch_column_id := Some 2; ch_sentinel := None;
                          ch_value := None; ch_timestamp := 100 |} ];
     foreign_keys := [] |}.

(** A soft-deleted table "Tasks" beside a live table "Projects" whose
    column "Title" is soft-deleted. *)
Definition reuse_db : DB :=
  {| tables := [ {| t_id := 1; t_name := "Tasks"; t_created_at := 100;
                    t_deleted_at := Some 102 |};
                 {| t_id := 2; t_name := "Projects"; t_created_at := 100;
                    t_deleted_at := None |} ];
     columns := [ {| c_id := 1; c_table_id := 2; c_name := "Title";
                     c_display_order := 0; c_is_unique := 0; c_created_at := 100;
                     c_deleted_at := Some 101 |} ];
     cell_history := [];
     foreign_keys := [] |}.

(** A storage layer that refuses the second write statement of a call. *)
Definition env_io : Env :=
  {| clock := λ n, 100 + n;
     storage := λ n, if decide (n = 1) then Some "disk I/O error" else None;
     randomUUID := "row-1" |}.

(** Table "Tasks" with a column "Owner" that references table "People";
    no rows. *)
Definition fk_db : DB :=
  {| tables := [ {| t_id := 1; t_name := "Tasks"; t_created_at := 100;
                    t_deleted_at := None |};
                 {| t_id := 2; t_name := "People"; t_created_at := 100;
                    t_deleted_at := None |} ];
     columns := [ {| c_id := 1; c_table_id := 1; c_name := "Owner";
                     c_display_order := 0; c_is_unique := 0; c_created_at := 100;
                     c_deleted_at := None |} ];
     cell_history := [];
     foreign_keys := [ {| fk_id := 1; fk_from_column_id := 1; fk_to_table_id := 2;
                          fk_created_at := 100; fk_deleted_at := None |} ] |}.

(** [fk_db] with its foreign key tombstoned and nothing else. *)
Definition fk_db_half : DB :=
  with_foreign_keys fk_db
    [ {| fk_id := 1; fk_from_column_id := 1; fk_to_table_id := 2;
         fk_created_at := 100; fk_deleted_at := Some 100 |} ].

(** Table "Tasks" with a unique column "Title" and one row. *)
Definition tasks_db : DB :=
  {| tables := [ {| t_id := 1; t_name := "Tasks"; t_created_at := 100;
                    t_deleted_at := None |} ];
     columns := [ {| c_id := 1; c_table_id := 1; c_name := "Title";
                     c_display_order := 0; c_is_unique := 1; c_created_at := 100;
                     c_deleted_at := None |} ];
     cell_history := [ {| ch_id := 1; ch_table_id := 1; ch_row_id := "row-1";
                          ch_column_id := None; ch_sentinel := Some NEW;
                          ch_value := None; ch_timestamp := 100 |};
                       {| ch_id := 2; ch_table_id := 1; ch_row_id := "row-1";
                          ch_column_id := Some 1; ch_sentinel := None;
                          ch_value := Some "Buy milk"; ch_timestamp := 101 |} ];
     foreign_keys := [] |}.

(** The environment of a later request. *)
Definition env1 : Env :=
  {| clock := λ n, 200 + n; storage := λ _, None; randomUUID := "row-2" |}.

(** "People" and "Tasks"; the column "Owner" of "Tasks" references
    "People"; the task [t1] is owned by the person [p1]. *)
Definition people_db : DB :=
  {| tables := [ {| t_id := 1; t_name := "People"; t_created_at := 100;
                    t_deleted_at := None |};
                 {| t_id := 2; t_name := "Tasks"; t_created_at := 100;
                    t_deleted_at := None |} ];
     columns := [ {| c_id := 1; c_table_id := 2; c_name := "Owner";
                     c_display_order := 0; c_is_unique := 0; c_created_at := 100;
                     c_deleted_at := None |} ];
     cell_history := [ {| ch_id := 1; ch_table_id := 1; ch_row_id := "p1";
                          ch_column_id := None; ch_sentinel := Some NEW;
                          ch_value := None; ch_timestamp := 100 |};
                       {| ch_id := 2; ch_table_id := 2; ch_row_id := "t1";
                          ch_column_id := None; ch_sentinel := Some NEW;
                          ch_value := None; ch_timestamp := 100 |};
                       {| ch_id := 3; ch_table_id := 2; ch_row_id := "t1";
                          ch_column_id := Some 1; ch_sentinel := None;
                          ch_value := Some "p1"; ch_timestamp := 101 |} ];
     foreign_keys := [ {| fk_id := 1; fk_from_column_id := 1; fk_to_table_id := 1;
                          fk_created_at := 100; fk_deleted_at := None |} ] |}.

(** Two rows of "Tasks" with the same title, the column not unique. *)
Definition twins_db : DB :=
  {| tables := [ {| t_id := 1; t_name := "Tasks"; t_created_at := 100;
                    t_deleted_at := None |} ];
     columns := [ {| c_id := 1; c_table_id := 1; c_name := "Title";
                     c_display_order := 0; c_is_unique := 0; c_created_at := 100;
                     c_deleted_at := None |} ];
     cell_history := [ {| ch_id := 1; ch_table_id := 1; ch_row_id := "row-1";
                          ch_column_id := None; ch_sentinel := Some NEW;
                          ch_value := None; ch_timestamp := 100 |};
                       {| ch_id := 2; ch_table_id := 1; ch_row_id := "row-1";
                          ch_column_id := Some 1; ch_sentinel := None;
                          ch_value := Some "Buy milk"; ch_timestamp := 101 |};
                       {| ch_id := 3; ch_table_id := 1; ch_row_id := "row-2";
                          ch_column_id := None; ch_sentinel := Some NEW;
                          ch_value := None; ch_timestamp := 200 |};
                       {| ch_id := 4; ch_table_id := 1; ch_row_id := "row-2";
                          ch_column_id := Some 1; ch_sentinel := None;
                          ch_value := Some "Buy milk"; ch_timestamp := 201 |} ];
     foreign_keys := [] |}.

(** A table with one row, created and then deleted. *)
Definition deleted_db : DB :=
  handle_all [ (env0, CreateTable "Tasks"); (env0, CreateColumn 1 "Title" 1);
               (env0, CreateRow 1 [("Title", Some "Buy milk")]);
               (env0, DeleteRow 1 "row-1") ] fresh_db.

(** * Properties *)

(** ** The monad *)

Lemma run_handler_eq {A} (m : M A) (d : DB) r n d' :
  m (0, d) = (r, (n, d')) → run_handler m d = (r, d').
Proof. unfold run_handler. by intros ->. Qed.

Lemma bind_select {A B} (query : DB → A) (k : A → M B) s :
  bind (select query) k s = k (query s.2) s.
Proof. reflexivity. Qed.

Lemma bind_ok {A B} (m : M A) (k : A → M B) s a s' :
  m s = (Ok a, s') → bind m k s = k a s'.
Proof. unfold bind. by intros ->. Qed.

Lemma bind_throw {A B} (m : M A) (k : A → M B) s e s' :
  m s = (Throw e, s') → bind m k s = (Throw e, s').
Proof. unfold bind. by intros ->. Qed.

Lemma for_each_cons_ok {A} (body : A → M unit) x l s s' :
  body x s = (Ok tt, s') → for_each (x :: l) body s = for_each l body s'.
Proof. intros E. cbn [for_each]. by rewrite (bind_ok _ _ _ _ _ E). Qed.

Lemma for_each_cons_throw {A} (body : A → M unit) x l s e s' :
  body x s = (Throw e, s') → for_each (x :: l) body s = (Throw e, s').
Proof. intros E. cbn [for_each]. by rewrite (bind_throw _ _ _ _ _ E). Qed.

(** ** Lifecycle markings *)

Lemma max_case_filter v (l : list CellEvent) :
  max_case v l = max_list (ch_id <$> filter (λ e, ch_value e = Some v) l).
Proof.
  unfold max_case. induction l as [|e l IH]; [done|].
  rewrite fmap_cons. cbn [max_list_with]. rewrite filter_cons.
  destruct (decide (ch_value e = Some v)) as [Hv|Hv].
  - rewrite fmap_cons. cbn [max_list_with]. unfold id at 1 3. by rewrite IH.
  - unfold id at 1. rewrite IH. lia.
Qed.

Lemma max_case_marking v d t r :
  max_case v (filter (λ e, ch_row_id e = r) (lifecycle_events d t)) = max_marking v d t r.
Proof.
  rewrite max_case_filter. unfold max_marking, lifecycle_events.
  f_equal. f_equal.
  induction (cell_history d) as [|e l IH]; [done|].
  rewrite !filter_cons.
  destruct (decide (ch_table_id e = t ∧ ch_sentinel e = Some DELETED)) as [[H1 H2]|H1].
  - rewrite filter_cons. destruct (decide (ch_row_id e = r)) as [H3|H3].
    + rewrite filter_cons. destruct (decide (ch_value e = Some v)) as [H4|H4].
      * rewrite decide_True by done. by rewrite IH.
      * rewrite decide_False by tauto. done.
    + rewrite decide_False by tauto. done.
  - rewrite decide_False by tauto. done.
Qed.

Lemma max_marking_pos v d t r :
  0 < max_marking v d t r →
  ∃ e, e ∈ lifecycle_events d t ∧ ch_row_id e = r.
Proof.
  unfold max_marking. intros H.
  destruct (filter _ (cell_history d)) as [|e l] eqn:E; [simpl in H; lia|].
  assert (He : e ∈ e :: l) by left. rewrite <- E in He.
  apply list_elem_of_filter in He as [(?&?&?&?) ?].
  exists e. split; [|done]. apply list_elem_of_filter. done.
Qed.

(** The rows of [deleted_rows] are the net-deleted rows. *)
Lemma deleted_rows_spec d t r :
  r ∈ deleted_rows d t ↔ net_deleted d t r.
Proof.
  unfold deleted_rows, net_deleted. rewrite list_elem_of_filter.
  cbv zeta. rewrite !max_case_marking. rewrite elem_of_remove_dups.
  split; [by intros [? _]|]. intros H. split; [done|].
  destruct (max_marking_pos "1" d t r) as (e & He & <-); [lia|].
  by apply list_elem_of_fmap_2.
Qed.

(** ** The [latest] expression *)

Lemma NoDup_fmap_eq {A B} (f : A → B) (l : list A) x y :
  NoDup (f <$> l) → x ∈ l → y ∈ l → f x = f y → x = y.
Proof.
  induction l as [|a l IH]; [by inversion 2|].
  rewrite fmap_cons, NoDup_cons. intros [Hna Hnd] Hx Hy Hf.
  apply elem_of_cons in Hx as [->|Hx]; apply elem_of_cons in Hy as [->|Hy]; auto.
  - exfalso. apply Hna. rewrite Hf. by apply list_elem_of_fmap_2.
  - exfalso. apply Hna. rewrite <- Hf. by apply list_elem_of_fmap_2.
Qed.

Lemma cell_events_spec d t e :
  e ∈ cell_events d t ↔
  e ∈ cell_history d ∧ ch_table_id e = t ∧ ch_sentinel e = None.
Proof. unfold cell_events. rewrite list_elem_of_filter. tauto. Qed.

Lemma cell_event_of_group d t r cid e :
  cell_event_of d t r cid e ↔
  e ∈ filter (λ e, (ch_row_id e, ch_column_id e) = (r, cid)) (cell_events d t).
Proof.
  unfold cell_event_of. rewrite list_elem_of_filter, cell_events_spec.
  split.
  - intros (?&?&?&?&?). split; [congruence|done].
  - intros [Hk ?]. inversion Hk. tauto.
Qed.

(** A row of [latest] is a pair that has a cell event, with the id of its
    latest event. *)
Lemma latest_spec d t l :
  l ∈ latest d t ↔
  ∃ e, is_latest d t (l_row_id l) (l_column_id l) e ∧ l_max_id l = ch_id e.
Proof.
  unfold latest. cbv zeta. rewrite list_elem_of_fmap. split.
  - intros (k & -> & Hk). cbn [l_row_id l_column_id l_max_id].
    apply elem_of_remove_dups, list_elem_of_fmap in Hk as (e0 & Hk & He0).
    set (g := filter (λ e, (ch_row_id e, ch_column_id e) = k) (cell_events d t)).
    assert (Hne : ch_id <$> g ≠ []).
    { intros Hnil. apply fmap_nil_inv in Hnil.
      assert (e0 ∈ g) as Hin by (apply list_elem_of_filter; done).
      rewrite Hnil in Hin. by apply not_elem_of_nil in Hin. }
    apply max_list_elem_of, list_elem_of_fmap in Hne as (e & Hmax & He).
    exists e. split; [|done]. destruct k as [r cid]. split.
    + by apply cell_event_of_group.
    + intros e' He'%cell_event_of_group. rewrite <- Hmax.
      apply max_list_elem_of_le. by apply list_elem_of_fmap_2.
  - intros (e & [He Hmax] & Hid).
    exists (l_row_id l, l_column_id l). split.
    + destruct l as [r cid m]. cbn in *. f_equal.
      set (g := filter _ _).
      assert (Hin : e ∈ g) by by apply cell_event_of_group.
      assert (Hle : (ch_id e ≤ max_list (ch_id <$> g))%nat).
      { apply max_list_elem_of_le. by apply list_elem_of_fmap_2. }
      assert (Hne : ch_id <$> g ≠ []).
      { intros Hnil. apply fmap_nil_inv in Hnil. rewrite Hnil in Hin.
        by apply not_elem_of_nil in Hin. }
      apply max_list_elem_of, list_elem_of_fmap in Hne as (e' & Hmax' & He').
      apply cell_event_of_group, Hmax in He'. lia.
    + apply elem_of_remove_dups, list_elem_of_fmap. exists e. split.
      * destruct He as (?&?&?&?&?). congruence.
      * apply cell_events_spec. destruct He as (?&?&?&?&?). done.
Qed.

Lemma latest_joined_spec d t l ch :
  (l, ch) ∈ latest_joined d t ↔
  l ∈ latest d t ∧ ch ∈ cell_history d ∧ ch_id ch = l_max_id l.
Proof.
  unfold latest_joined. rewrite list_elem_of_bind. split.
  - intros (l' & Hin & Hl). apply list_elem_of_bind in Hin as (ch' & Hin & Hch).
    apply list_elem_of_singleton in Hin. inversion Hin; subst.
    apply list_elem_of_filter in Hch. tauto.
  - intros (Hl & Hch & Hid). exists l. split; [|done].
    apply list_elem_of_bind. exists ch. split; [by apply list_elem_of_singleton|].
    by apply list_elem_of_filter.
Qed.

(** The event with the greatest id of a pair is joined to its row of
    [latest]. *)
Lemma is_latest_joined d t r cid e :
  is_latest d t r cid e →
  ({| l_row_id := r; l_column_id := cid; l_max_id := ch_id e |}, e) ∈ latest_joined d t.
Proof.
  intros He. apply latest_joined_spec. split; [|split; [|done]].
  - apply latest_spec. by exists e.
  - by destruct He as [(?&_) _].
Qed.

(** With unique event ids, the event joined to a row of [latest] is the
    latest event of the pair. *)
Lemma latest_joined_is_latest d t l ch :
  event_ids_unique d →
  (l, ch) ∈ latest_joined d t →
  is_latest d t (l_row_id l) (l_column_id l) ch.
Proof.
  intros Hnd (Hl & Hch & Hid)%latest_joined_spec.
  apply latest_spec in Hl as (e & He & Hmax).
  assert (e = ch) as ->; [|done].
  apply (NoDup_fmap_eq ch_id (cell_history d)); [done| |done|congruence].
  by destruct He as [(?&_) _].
Qed.


(** A pair with a cell event has a latest one. *)
Lemma cell_event_has_latest d t r cid e :
  cell_event_of d t r cid e → ∃ e', is_latest d t r cid e'.
Proof.
  intros He.
  assert (Hk : (r, cid) ∈ remove_dups
            ((λ e, (ch_row_id e, ch_column_id e)) <$> cell_events d t)).
  { apply elem_of_remove_dups, list_elem_of_fmap. exists e.
    destruct He as (?&?&?&?&?). split; [congruence|]. by apply cell_events_spec. }
  assert (Hl : {| l_row_id := r; l_column_id := cid;
                  l_max_id := max_list (ch_id <$>
                    filter (λ e, (ch_row_id e, ch_column_id e) = (r, cid))
                           (cell_events d t)) |} ∈ latest d t).
  { unfold latest. cbv zeta. apply list_elem_of_fmap. by exists (r, cid). }
  apply latest_spec in Hl as (e' & He' & _). by exists e'.
Qed.

(** ** Reconstruction *)

Lemma reconstruction_rows_spec d t x :
  x ∈ reconstruction_rows d t ↔
  ∃ l ch c, (l, ch) ∈ latest_joined d t ∧ c ∈ columns d
    ∧ Some (c_id c) = l_column_id l ∧ live_column c
    ∧ (l_row_id l ∉ deleted_rows d t)
    ∧ x = {| r_row_id := l_row_id l; r_column_id := c_id c;
             r_column_name := c_name c; r_display_order := c_display_order c;
             r_is_unique := c_is_unique c; r_value := ch_value ch;
             r_last_modified := ch_timestamp ch |}.
Proof.
  unfold reconstruction_rows. rewrite list_elem_of_bind. split.
  - intros ([l ch] & Hx & Hl). apply list_elem_of_bind in Hx as (c & Hx & Hc).
    apply list_elem_of_filter in Hc as [Hc1 Hc2].
    destruct (decide _) as [[Hlive Hdel]|]; [|by apply not_elem_of_nil in Hx].
    apply list_elem_of_singleton in Hx. exists l, ch, c. done.
  - intros (l & ch & c & Hl & Hc & Hid & Hlive & Hdel & ->).
    exists (l, ch). split; [|done]. apply list_elem_of_bind. exists c.
    split; [|by apply list_elem_of_filter].
    rewrite decide_True by done. by apply list_elem_of_singleton.
Qed.

Lemma reconstruction_elem d t x :
  x ∈ reconstruction d t ↔ x ∈ reconstruction_rows d t.
Proof. unfold reconstruction. by rewrite merge_sort_Permutation. Qed.

(** The rows with a record in the reconstruction query. *)
Lemma reconstruction_row_ids d t r :
  r ∈ r_row_id <$> reconstruction d t ↔ ¬ net_deleted d t r ∧ has_live_cell d t r.
Proof.
  rewrite list_elem_of_fmap. split.
  - intros (x & -> & Hx). apply reconstruction_elem, reconstruction_rows_spec in Hx
      as (l & ch & c & Hl & Hc & Hid & Hlive & Hdel & ->). cbn.
    split; [by rewrite <- deleted_rows_spec|].
    apply latest_joined_spec in Hl as (Hl & _).
    apply latest_spec in Hl as (e & [He _] & _).
    exists e, c. by rewrite Hid.
  - intros (Hdel & e & c & He & Hc & Hlive).
    apply cell_event_has_latest in He as (e' & He').
    eexists. split; [|apply reconstruction_elem, reconstruction_rows_spec].
    2:{ eexists _, e', c. split; [by apply is_latest_joined|].
        split; [done|]. split; [done|]. split; [done|].
        split; [|reflexivity]. cbn. by rewrite deleted_rows_spec. }
    done.
Qed.

(** The rows the empty-rows query returns. *)
Lemma empty_rows_ids d t r :
  r ∈ fst <$> empty_rows d t ↔
  row_created d t r ∧ no_cell_event d t r ∧ ¬ net_deleted d t r.
Proof.
  unfold empty_rows. rewrite list_elem_of_fmap. split.
  - intros ([r' ts] & -> & Hx). cbn.
    apply elem_of_remove_dups, list_elem_of_fmap in Hx as (e & Hx & He).
    inversion Hx; subst. apply list_elem_of_filter in He as [(Ht & Hs & Hc & Hd) He].
    split; [by exists e|]. split; [|by rewrite <- deleted_rows_spec].
    intros e' cid (?&?&?&?&?). apply Hc. apply list_elem_of_fmap.
    exists e'. split; [done|]. by apply cell_events_spec.
  - intros ((e & He & Ht & Hr & Hs) & Hc & Hd).
    exists (r, ch_timestamp e). split; [done|].
    apply elem_of_remove_dups, list_elem_of_fmap. exists e.
    split; [by rewrite Hr|]. apply list_elem_of_filter. split; [|done].
    split; [done|]. split; [done|]. split.
    + intros (e' & Hr' & He')%list_elem_of_fmap. apply cell_events_spec in He'.
      apply (Hc e' (ch_column_id e')). unfold cell_event_of.
      destruct He' as (?&?&?). rewrite Hr in Hr'. done.
    + by rewrite Hr, deleted_rows_spec.
Qed.

(** ** The row map of [get_rows] *)



Lemma alist_set_keys {A} k (v : A) m k' :
  k' ∈ (alist_set k v m).*1 ↔ k' = k ∨ k' ∈ m.*1.
Proof.
  induction m as [|[k'' v''] m IH]; cbn.
  - rewrite list_elem_of_singleton. set_solver.
  - destruct (decide (k = k'')) as [->|]; cbn; set_solver.
Qed.

Lemma alist_set_NoDup {A} k (v : A) m : NoDup m.*1 → NoDup (alist_set k v m).*1.
Proof.
  induction m as [|[k'' v''] m IH]; cbn.
  - intros _. apply NoDup_singleton.
  - rewrite NoDup_cons. intros [Hn Hd].
    destruct (decide (k = k'')) as [->|]; cbn; rewrite NoDup_cons.
    + done.
    + split; [|auto]. rewrite alist_set_keys. intros [->|]; done.
Qed.

Lemma alist_get_Some {A} k (v : A) m : alist_get k m = Some v → (k, v) ∈ m.
Proof.
  induction m as [|[k' v'] m IH]; cbn; [done|].
  destruct (decide (k = k')) as [->|].
  - intros [= ->]. left.
  - intros H. right. auto.
Qed.

Lemma alist_get_None {A} k (m : list (string * A)) : alist_get k m = None ↔ k ∉ m.*1.
Proof.
  induction m as [|[k' v'] m IH]; cbn.
  - split; [intros _; apply not_elem_of_nil|done].
  - rewrite not_elem_of_cons. destruct (decide (k = k')) as [->|]; [|tauto].
    split; [done|tauto].
Qed.


Lemma alist_set_elem {A} k (v : A) m k' v' :
  (k', v') ∈ alist_set k v m → (k' = k ∧ v' = v) ∨ (k', v') ∈ m.
Proof.
  induction m as [|[k'' v''] m IH]; cbn.
  - intros ?%list_elem_of_singleton. left. by simplify_eq.
  - destruct (decide (k = k'')) as [->|]; cbn.
    + intros [?|?]%elem_of_cons; [left; by simplify_eq|right; by right].
    + intros [?|?]%elem_of_cons; [right; simplify_eq; left|].
      destruct IH as [?|?]; [done|by left|right; by right].
Qed.

Lemma row_map_ok_set m k o : row_map_ok m → row_id o = k → row_map_ok (alist_set k o m).
Proof.
  intros [Hnd Hk] Ho. split; [by apply alist_set_NoDup|].
  intros k' o' [[-> ->]|Hin]%alist_set_elem; auto.
Qed.

Lemma get_rows_record_ok m x : row_map_ok m → row_map_ok (get_rows_record m x).
Proof.
  intros Hm. unfold get_rows_record. cbv zeta. apply row_map_ok_set; [done|]. cbn.
  destruct (alist_get (r_row_id x) m) as [o|] eqn:E; cbn; [|done].
  apply alist_get_Some in E. by apply Hm.
Qed.

Lemma get_rows_empty_ok m x : row_map_ok m → row_map_ok (get_rows_empty m x).
Proof.
  intros Hm. unfold get_rows_empty. destruct (alist_get x.1 m); [done|].
  by apply row_map_ok_set.
Qed.

Lemma foldl_record_ok l m :
  row_map_ok m → row_map_ok (foldl get_rows_record m l).
Proof. revert m. induction l; cbn; auto using get_rows_record_ok. Qed.

Lemma foldl_empty_ok l m :
  row_map_ok m → row_map_ok (foldl get_rows_empty m l).
Proof. revert m. induction l; cbn; auto using get_rows_empty_ok. Qed.

Lemma foldl_record_keys l m k :
  k ∈ (foldl get_rows_record m l).*1 ↔ k ∈ m.*1 ∨ k ∈ r_row_id <$> l.
Proof.
  revert m. induction l as [|x l IH]; intros m; cbn.
  - set_solver.
  - rewrite IH. unfold get_rows_record at 1. cbv zeta. rewrite alist_set_keys.
    set_solver.
Qed.

Lemma foldl_empty_keys l m k :
  k ∈ (foldl get_rows_empty m l).*1 ↔ k ∈ m.*1 ∨ k ∈ l.*1.
Proof.
  revert m. induction l as [|x l IH]; intros m; cbn.
  - set_solver.
  - rewrite IH. unfold get_rows_empty at 1.
    destruct (alist_get x.1 m) eqn:E.
    + assert (x.1 ∈ m.*1).
      { apply alist_get_Some in E. apply list_elem_of_fmap. by eexists (_, _). }
      set_solver.
    + rewrite alist_set_keys. set_solver.
Qed.

Lemma row_map_ids m r :
  row_map_ok m → r ∈ row_id <$> m.*2 ↔ r ∈ m.*1.
Proof.
  intros [_ Hk]. rewrite !list_elem_of_fmap. split.
  - intros (o & -> & (x & -> & Hx)%list_elem_of_fmap). exists x. split; [|done].
    destruct x as [k o]. cbn. by apply Hk.
  - intros ([k o] & -> & Hx). exists o. split; [cbn; symmetry; by apply Hk|].
    apply list_elem_of_fmap. by exists (k, o).
Qed.

Lemma get_rows_row_map_ok d t :
  row_map_ok (foldl get_rows_empty (foldl get_rows_record [] (reconstruction d t))
                    (empty_rows d t)).
Proof.
  apply foldl_empty_ok, foldl_record_ok. split; [constructor|].
  intros ?? []%not_elem_of_nil.
Qed.

(** The rows of [get_rows]: those with a record in the reconstruction
    query and those the empty-rows query adds. *)
Lemma appears_iff d t r :
  appears d t r ↔
  ¬ net_deleted d t r ∧
  (has_live_cell d t r ∨ (row_created d t r ∧ no_cell_event d t r)).
Proof.
  unfold appears, get_rows. cbv zeta.
  rewrite row_map_ids by apply get_rows_row_map_ok.
  rewrite foldl_empty_keys, foldl_record_keys, reconstruction_row_ids, empty_rows_ids.
  cbn. rewrite elem_of_nil. tauto.
Qed.

(** ** Which rows [get_rows] returns *)

(** The rows the validators count are rows of the reconstruction: a row
    that is not net-deleted and holds a value in a live column is returned
    by [get_rows], with or without a row-created event. *)
Lemma holder_appears d c v r :
  c ∈ columns d → live_column c →
  holder d (c_table_id c) (c_id c) v r → appears d (c_table_id c) r.
Proof.
  intros Hc Hlive [Hdel (e & [He _] & _)].
  apply appears_iff. split; [done|]. left. by exists e, c.
Qed.

Lemma ghost_db_reached :
  after (update_row env0 1 "ghost" [("Title", Some "x")])
    (after (create_column env0 1 "Title" 0)
       (after (create_table env0 "Tasks") fresh_db)) = ghost_db.
Proof. vm_compute. reflexivity. Qed.

Lemma orphan_db_reached :
  after (delete_column env0 1)
    (after (create_row env0 1 [("Title", Some "x")])
       (after (create_column env0 1 "Title" 0)
          (after (create_table env0 "Tasks") fresh_db))) = orphan_db.
Proof. vm_compute. reflexivity. Qed.


(** The other direction fails as well: a created row that is not deleted
    is not returned once the only columns it has cells for are deleted. *)
Lemma get_rows_orphan_row :
  row_live orphan_db 1 "row-1" ∧ ¬ appears orphan_db 1 "row-1".
Proof.
  split.
  - split.
    + eexists. split; [left|]. done.
    + unfold net_deleted. vm_compute. lia.
  - unfold appears. intros H. pose proof (bool_decide_pack ("row-1" ∈ row_id <$> get_rows orphan_db 1) H) as Hb.
    vm_compute in Hb. exact Hb.
Qed.



(** ** Which values [get_rows] returns *)

(** Splits a membership in a list given by its elements. *)
Ltac elem_cases H :=
  repeat (apply elem_of_cons in H as [H|H]; [try subst|]);
  try (by apply not_elem_of_nil in H).







Lemma interleaved_db_reached :
  after (update_row env0 1 "row-1" [("Note", None)])
    (after (update_row env0 1 "row-1" [("Title", Some "a2")])
       (after (update_row env0 1 "row-1" [("Note", Some "b1")])
          (after (create_row env0 1 [("Title", Some "a1")])
             (after (create_column env0 1 "Note" 0)
                (after (create_column env0 1 "Title" 0)
                   (after (create_table env0 "Tasks") fresh_db)))))) = interleaved_db.
Proof. vm_compute. reflexivity. Qed.


(** ** Statements and the storage layer *)

Lemma statement_healthy {A} env (sql : nat → DB → Res (A * DB)) n d :
  healthy env →
  statement env sql (n, d) =
  match sql (clock env n) d with
  | Ok (a, d') => (Ok a, (S n, d'))
  | Throw e => (Throw e, (S n, d))
  end.
Proof. intros H. unfold statement. cbn. by rewrite H. Qed.

Lemma filter_nil_elem {A} (P : A → Prop) `{∀ x, Decision (P x)} (l : list A) :
  (∀ x, x ∈ l → ¬ P x) → filter P l = [].
Proof.
  intros Hall. destruct (filter P l) as [|x l'] eqn:E; [done|].
  assert (Hx : x ∈ filter P l) by (rewrite E; left).
  apply list_elem_of_filter in Hx as [HP Hx]. by destruct (Hall x Hx).
Qed.

(** ** Names of soft-deleted tables and columns *)

(** [create_table] on the name of a soft-deleted table passes the check
    against the live tables and is then rejected by the [UNIQUE]
    constraint of the schema. *)
Lemma create_table_deleted_name env d name :
  healthy env → Js.trim name ≠ "" →
  (∃ t, t ∈ tables d ∧ t_name t = Js.trim name) →
  (∀ t, t ∈ tables d → t_name t = Js.trim name → ¬ live_table t) →
  run_handler (create_table env name) d
  = (Throw "UNIQUE constraint failed: tables.name", d).
Proof.
  intros Hh Hne (t & Ht & Hn) Hlive.
  unfold create_table. cbv zeta. rewrite decide_False by done.
  unfold run_handler, bind, select. cbn [snd].
  rewrite filter_nil_elem by (intros t' Ht' [? ?]; by apply (Hlive t')).
  cbn [length]. rewrite decide_False by lia.
  rewrite statement_healthy by done. unfold sql_insert_table.
  rewrite decide_True; [done|]. rewrite <- Hn. by apply list_elem_of_fmap_2.
Qed.

(** [create_column] on a name a column of the table bears, deleted or
    not, is rejected by [UNIQUE(table_id, name)] and reported as a
    conflict. *)
Lemma create_column_taken_name env d table_id name is_unique :
  healthy env → Js.trim name ≠ "" →
  (∃ c, c ∈ columns d ∧ c_table_id c = table_id ∧ c_name c = Js.trim name) →
  run_handler (create_column env table_id name is_unique) d
  = (Throw ("Column " ++ Js.dq ++ Js.trim name ++ Js.dq
            ++ " already exists in this table"), d).
Proof.
  intros Hh Hne (c & Hc & Ht & Hn).
  unfold create_column. cbv zeta. rewrite decide_False by done.
  unfold run_handler, bind, select, try_catch. cbn [snd].
  rewrite statement_healthy by done. unfold sql_insert_column.
  rewrite decide_True; [done|]. apply Exists_exists. by exists c.
Qed.

(** C3 (what the code does). With a healthy storage layer, when a
    soft-deleted table bears the name and no live table does,
    [create_table] does not succeed: the insert violates [UNIQUE] on
    [tables.name]; and when a soft-deleted column of the table bears the
    name and no live column of the table does, [create_column] reports a
    conflict. In both cases the database is unchanged. *)
Theorem soft_deleted_name_not_reusable env d :
  healthy env →
  (∀ name t, Js.trim name ≠ "" →
     t ∈ tables d → t_name t = Js.trim name → ¬ live_table t →
     (∀ t', t' ∈ tables d → t_name t' = Js.trim name → ¬ live_table t') →
     run_handler (create_table env name) d
     = (Throw "UNIQUE constraint failed: tables.name", d)) ∧
  (∀ table_id name is_unique c, Js.trim name ≠ "" →
     c ∈ columns d → c_table_id c = table_id → c_name c = Js.trim name →
     ¬ live_column c →
     (∀ c', c' ∈ columns d → c_table_id c' = table_id →
            c_name c' = Js.trim name → ¬ live_column c') →
     run_handler (create_column env table_id name is_unique) d
     = (Throw ("Column " ++ Js.dq ++ Js.trim name ++ Js.dq
               ++ " already exists in this table"), d)).
Proof.
  intros Hh. split.
  - intros name t Hne Ht Hn _ Hlive. apply create_table_deleted_name; eauto.
  - intros table_id name is_unique c Hne Hc Ht Hn _ _.
    apply create_column_taken_name; eauto.
Qed.

Lemma reuse_db_reached :
  after (delete_table env0 1)
    (after (delete_column env0 1)
       (after (create_column env0 2 "Title" 0)
          (after (create_table env0 "Projects")
             (after (create_table env0 "Tasks") fresh_db)))) = reuse_db.
Proof. vm_compute. reflexivity. Qed.

Lemma env0_healthy : healthy env0.
Proof. intros n. reflexivity. Qed.

Lemma soft_deleted_name_not_reusable_witness :
  run_handler (create_table env0 "Tasks") reuse_db
  = (Throw "UNIQUE constraint failed: tables.name", reuse_db) ∧
  run_handler (create_column env0 2 " Title" 0) reuse_db
  = (Throw ("Column " ++ Js.dq ++ "Title" ++ Js.dq
            ++ " already exists in this table"), reuse_db).
Proof.
  destruct (soft_deleted_name_not_reusable env0 reuse_db env0_healthy) as [H1 H2].
  split.
  - apply (H1 "Tasks" {| t_id := 1; t_name := "Tasks"; t_created_at := 100;
                         t_deleted_at := Some 102 |}).
    + vm_compute. discriminate.
    + left.
    + vm_compute. reflexivity.
    + intros H. discriminate H.
    + intros t' Ht' Hn Hlive. vm_compute in Hn.
      unfold reuse_db in Ht'. cbn [tables] in Ht'.
      elem_cases Ht'; [discriminate Hlive|discriminate Hn].
  - apply (H2 2 " Title" 0 {| c_id := 1; c_table_id := 2; c_name := "Title";
                              c_display_order := 0; c_is_unique := 0;
                              c_created_at := 100; c_deleted_at := Some 101 |}).
    + vm_compute. discriminate.
    + left.
    + reflexivity.
    + vm_compute. reflexivity.
    + intros H. discriminate H.
    + intros c' Hc' _ _ Hlive. unfold reuse_db in Hc'. cbn [columns] in Hc'.
      elem_cases Hc'. discriminate Hlive.
Defined.

(** ** Deleting a table *)

(** The rows [delete_table] counts are the live rows of the table. *)
Lemma live_rows_spec d id r : r ∈ live_rows id d ↔ row_live d id r.
Proof.
  unfold live_rows, row_live, row_created.
  rewrite elem_of_remove_dups, list_elem_of_fmap. split.
  - intros (e & -> & (Hp & He)%list_elem_of_filter).
    destruct Hp as (Ht & Hs & Hd). split; [by exists e|].
    by rewrite <- deleted_rows_spec.
  - intros [(e & He & Ht & Hr & Hs) Hd]. exists e. split; [done|].
    apply list_elem_of_filter. split; [|done]. rewrite Hr, deleted_rows_spec. done.
Qed.

Lemma live_rows_NoDup d id : NoDup (live_rows id d).
Proof. apply NoDup_remove_dups. Qed.

Lemma live_row_count_pos d id : 0 < live_row_count id d ↔ ∃ r, row_live d id r.
Proof.
  unfold live_row_count. split.
  - destruct (live_rows id d) as [|r l] eqn:E; [cbn; lia|].
    intros _. exists r. apply live_rows_spec. rewrite E. left.
  - intros (r & Hr%live_rows_spec).
    destruct (live_rows id d); [by apply not_elem_of_nil in Hr|cbn; lia].
Qed.

Lemma tombstones_fmap {A} (P Q : A → Prop) `{∀ x, Decision (Q x)}
    (T : A → A → Prop) (f : A → A) (l : list A) :
  (∀ x, x ∈ l → Q x ↔ P x) → (∀ x, P x → T x (f x)) →
  tombstones P T l ((λ x, if decide (Q x) then f x else x) <$> l).
Proof.
  intros HQ HT. unfold tombstones. apply Forall2_fmap_r, Forall_Forall2_diag.
  apply Forall_forall. intros x Hx. unfold compose.
  case_decide as Hq.
  - split; [intros Hp; by apply HT|].
    intros Hn. exfalso. apply Hn. by apply HQ.
  - split; [|done]. intros Hp. exfalso. apply Hq. by apply HQ.
Qed.

Lemma sql_delete_fks_of_table_step id now d :
  ∃ d', sql_delete_fks_of_table id now d = Ok (tt, d') ∧ fks_step id d d'.
Proof.
  eexists. split; [reflexivity|]. split; [|done].
  cbn. apply tombstones_fmap.
  - intros fk _. unfold anchored_on.
    rewrite list_elem_of_fmap. split.
    + intros [Hl (c & Hid & (Hp & Hc)%list_elem_of_filter)]. split; [done|].
      exists c. destruct Hp. done.
    + intros [Hl (c & Hc & Hid & Ht & Hlive)]. split; [done|].
      exists c. split; [done|]. by apply list_elem_of_filter.
  - intros fk _. by repeat split.
Qed.

Lemma sql_delete_columns_of_table_step id now d :
  ∃ d', sql_delete_columns_of_table id now d = Ok (tt, d') ∧ columns_step id d d'.
Proof.
  eexists. split; [reflexivity|]. split; [|done].
  cbn. apply tombstones_fmap; [done|]. intros c _. by repeat split.
Qed.

Lemma sql_delete_table_step id now d :
  ∃ d', sql_delete_table id now d = Ok (tt, d') ∧ table_step id d d'.
Proof.
  eexists. split; [reflexivity|]. split; [|done].
  cbn. apply tombstones_fmap; [done|]. intros c _. by repeat split.
Qed.

Lemma fk_db_reached :
  after (create_foreign_key env0 1 2)
    (after (create_column env0 1 "Owner" 0)
       (after (create_table env0 "People")
          (after (create_table env0 "Tasks") fresh_db))) = fk_db.
Proof. vm_compute. reflexivity. Qed.

(** C4, as stated, fails: when the storage layer refuses the second
    statement of [delete_table], the handler fails and the foreign key
    tombstoned by the first statement stays tombstoned. *)
Lemma delete_table_not_rolled_back :
  run_handler (delete_table env_io 1) fk_db = (Throw "disk I/O error", fk_db_half)
  ∧ fk_db_half ≠ fk_db.
Proof. split; [vm_compute; reflexivity|discriminate]. Qed.

(** C4 (amended). [delete_table] fails with the message that reports the
    number of live rows whenever the table has a live row, leaving the
    database unchanged. Otherwise it issues three statements in turn, not
    grouped in a transaction: the first tombstones the live foreign keys
    anchored on live columns of the table, the second the live columns of
    the table, the third the table. When the storage layer refuses one of
    them the handler fails and the statements before it keep their effect;
    when none is refused all three effects are in place. *)
Theorem delete_table_spec env d id :
  ((∃ r, row_live d id r) →
     ∃ rows, NoDup rows ∧ (∀ r, r ∈ rows ↔ row_live d id r) ∧
       run_handler (delete_table env id) d =
       (Throw ("Cannot delete table: it still has " ++ Js.show (length rows)
               ++ " live row(s). Delete all rows first."), d)) ∧
  ((¬ ∃ r, row_live d id r) →
     ∃ d1 d2 d3, fks_step id d d1 ∧ columns_step id d1 d2 ∧ table_step id d2 d3 ∧
       run_handler (delete_table env id) d =
       match storage env 0, storage env 1, storage env 2 with
       | Some e, _, _ => (Throw e, d)
       | None, Some e, _ => (Throw e, d1)
       | None, None, Some e => (Throw e, d2)
       | None, None, None => (Ok tt, d3)
       end).
Proof.
  split.
  - intros Hlive%live_row_count_pos. exists (live_rows id d).
    split; [apply live_rows_NoDup|]. split; [apply live_rows_spec|].
    unfold delete_table, run_handler, bind, select. cbn [snd].
    by rewrite decide_True.
  - intros Hnone. rewrite <- live_row_count_pos in Hnone.
    destruct (sql_delete_fks_of_table_step id (clock env 0) d) as (d1 & E1 & H1).
    destruct (sql_delete_columns_of_table_step id (clock env 1) d1) as (d2 & E2 & H2).
    destruct (sql_delete_table_step id (clock env 2) d2) as (d3 & E3 & H3).
    exists d1, d2, d3. split; [done|]. split; [done|]. split; [done|].
    unfold delete_table, run_handler, bind, select. cbn [snd].
    rewrite decide_False by done. unfold statement. cbn [fst snd].
    destruct (storage env 0); [done|]. rewrite E1. cbn [fst snd].
    destruct (storage env 1); [done|]. rewrite E2. cbn [fst snd].
    destruct (storage env 2); [done|]. rewrite E3. done.
Qed.

Lemma delete_table_spec_witness :
  (∃ rows, NoDup rows ∧ (∀ r, r ∈ rows ↔ row_live tasks_db 1 r) ∧
     run_handler (delete_table env0 1) tasks_db =
     (Throw ("Cannot delete table: it still has " ++ Js.show (length rows)
             ++ " live row(s). Delete all rows first."), tasks_db)) ∧
  (∃ d1 d2 d3, fks_step 1 fk_db d1 ∧ columns_step 1 d1 d2 ∧ table_step 1 d2 d3 ∧
     run_handler (delete_table env0 1) fk_db = (Ok tt, d3)).
Proof.
  split.
  - apply (proj1 (delete_table_spec env0 tasks_db 1)).
    exists "row-1". split.
    + eexists. split; [left|]. done.
    + unfold net_deleted. vm_compute. lia.
  - apply (proj2 (delete_table_spec env0 fk_db 1)).
    intros (r & (e & He & _) & _). cbn in He. by apply not_elem_of_nil in He.
Defined.

(** ** Creating a foreign key *)

Lemma head_filter_None {A} (P : A → Prop) `{∀ x, Decision (P x)} (l : list A) :
  head (filter P l) = None ↔ ¬ ∃ x, x ∈ l ∧ P x.
Proof.
  split.
  - intros Hh (x & Hx & HP).
    assert (Hin : x ∈ filter P l) by by apply list_elem_of_filter.
    destruct (filter P l); [by apply not_elem_of_nil in Hin|done].
  - intros Hn. rewrite filter_nil_elem; [done|]. intros x Hx HP. apply Hn. eauto.
Qed.

Lemma head_filter_Some {A} (P : A → Prop) `{∀ x, Decision (P x)} (l : list A) x :
  head (filter P l) = Some x → x ∈ l ∧ P x.
Proof.
  intros Hh. assert (Hin : x ∈ filter P l).
  { destruct (filter P l); [done|]. injection Hh as ->. left. }
  apply list_elem_of_filter in Hin. tauto.
Qed.

Lemma filter_nil_length {A} (P : A → Prop) `{∀ x, Decision (P x)} (l : list A) :
  0 < length (filter P l) ↔ ∃ x, x ∈ l ∧ P x.
Proof.
  split.
  - destruct (filter P l) as [|x l'] eqn:E; [cbn; lia|]. intros _.
    assert (Hin : x ∈ filter P l) by (rewrite E; left).
    apply list_elem_of_filter in Hin. exists x. tauto.
  - intros (x & Hx & HP).
    assert (Hin : x ∈ filter P l) by by apply list_elem_of_filter.
    destruct (filter P l); [by apply not_elem_of_nil in Hin|cbn; lia].
Qed.

(** The outcome of [create_foreign_key]. *)
Lemma create_foreign_key_outcome env d from_column_id to_table_id :
  run_handler (create_foreign_key env from_column_id to_table_id) d =
  match head (filter (λ c, c_id c = from_column_id ∧ live_column c) (columns d)) with
  | None => (Throw "Column not found", d)
  | Some fromCol =>
      if decide (c_table_id fromCol = to_table_id)
      then (Throw "A table cannot reference itself", d)
      else match head (filter (λ t, t_id t = to_table_id ∧ live_table t) (tables d)) with
           | None => (Throw "Target table not found", d)
           | Some _ =>
               if decide (0 < length (filter
                    (λ fk, fk_from_column_id fk = from_column_id ∧ live_fk fk)
                    (foreign_keys d)))
               then (Throw "Column already has a foreign key defined", d)
               else
                 match storage env 0 with
                 | Some message => (Throw message, d)
                 | None =>
                     (Ok (next_id (fk_id <$> foreign_keys d), from_column_id, to_table_id),
                      with_foreign_keys d (foreign_keys d ++
                        [ {| fk_id := next_id (fk_id <$> foreign_keys d);
                             fk_from_column_id := from_column_id;
                             fk_to_table_id := to_table_id;
                             fk_created_at := clock env 0;
                             fk_deleted_at := None |} ]))
                 end
           end
  end.
Proof.
  unfold create_foreign_key, run_handler, bind, select. cbn [snd].
  destruct (head (filter _ (columns d))) as [fromCol|]; [|done].
  destruct (decide (c_table_id fromCol = to_table_id)); [done|]. cbn [snd].
  destruct (head (filter _ (tables d))); [|done]. cbn [snd].
  destruct (decide (0 < length _)); [done|].
  unfold statement. cbn [fst snd]. by destruct (storage env 0).
Qed.

(** A failing [create_foreign_key] writes nothing; a succeeding one
    appends one live foreign key. *)
Lemma create_foreign_key_change env d from_column_id to_table_id n :
  let d' := (create_foreign_key env from_column_id to_table_id (n, d)).2.2 in
  d' = d ∨
  (∃ fk, d' = with_foreign_keys d (foreign_keys d ++ [fk])
         ∧ fk_from_column_id fk = from_column_id ∧ fk_to_table_id fk = to_table_id
         ∧ (∃ c, c ∈ columns d ∧ c_id c = from_column_id ∧ live_column c
                 ∧ c_table_id c ≠ to_table_id)
         ∧ ¬ ∃ fk', fk' ∈ foreign_keys d ∧ fk_from_column_id fk' = from_column_id
                    ∧ live_fk fk').
Proof.
  cbv zeta. unfold create_foreign_key, bind, select. cbn [snd].
  destruct (head (filter _ (columns d))) as [fromCol|] eqn:Ec; [|by left].
  destruct (decide (c_table_id fromCol = to_table_id)) as [|Hself]; [by left|]. cbn [snd].
  destruct (head (filter _ (tables d))); [|by left]. cbn [snd].
  destruct (decide (0 < length _)) as [|Hfk]; [by left|].
  unfold statement. cbn [fst snd]. destruct (storage env n); [by left|].
  right. cbn. eexists. split; [reflexivity|]. cbn. split; [done|]. split; [done|].
  apply head_filter_Some in Ec as [Hc [Hid Hlive]].
  split; [by exists fromCol|]. by rewrite <- filter_nil_length.
Qed.

Lemma head_filter_unique {A B} (f : A → B) (P : A → Prop) `{∀ x, Decision (P x)}
    (l : list A) x :
  NoDup (f <$> l) → x ∈ l → P x → (∀ y, P y → f y = f x) →
  head (filter P l) = Some x.
Proof.
  intros Hnd Hx HP Hf.
  destruct (head (filter P l)) as [y|] eqn:E.
  - apply head_filter_Some in E as [Hy HPy]. f_equal.
    apply (NoDup_fmap_eq f l); auto.
  - apply head_filter_None in E. destruct E. eauto.
Qed.

(** Appending a live foreign key on a column that has none keeps the
    columns at one live foreign key each. *)
Lemma one_live_fk_snoc d fk :
  one_live_fk_per_column d →
  (¬ ∃ fk', fk' ∈ foreign_keys d ∧ fk_from_column_id fk' = fk_from_column_id fk
            ∧ live_fk fk') →
  one_live_fk_per_column (with_foreign_keys d (foreign_keys d ++ [fk])).
Proof.
  intros Hone Hnone i j fk1 fk2. cbn.
  rewrite !lookup_snoc_Some.
  intros [[Hi H1]|[Hi <-]] [[Hj H2]|[Hj <-]] L1 L2 Heq.
  - eauto.
  - destruct Hnone. exists fk1. split; [by eapply list_elem_of_lookup_2|done].
  - destruct Hnone. exists fk2. split; [by eapply list_elem_of_lookup_2|done].
  - lia.
Qed.

Lemma create_foreign_key_one_live env d from_column_id to_table_id :
  one_live_fk_per_column d →
  one_live_fk_per_column
    (run_handler (create_foreign_key env from_column_id to_table_id) d).2.
Proof.
  intros Hone. unfold run_handler. cbn [snd].
  destruct (create_foreign_key_change env d from_column_id to_table_id 0)
    as [->|(fk & -> & Hfrom & _ & _ & Hnone)]; [done|].
  apply one_live_fk_snoc; [done|]. by rewrite Hfrom.
Qed.

(** C8. With unique column keys, [create_foreign_key] fails, writing
    nothing, whenever the column does not exist live, or its table is the
    target table, or the target table does not exist live, or the column
    already has a live foreign key; in every other case, with a healthy
    storage layer, it succeeds and appends one live foreign key from the
    column to the target. In either case, if every column had at most one
    live foreign key before, so it has afterwards. *)
Theorem create_foreign_key_spec env d from_column_id to_table_id :
  column_ids_unique d →
  (fk_refused d from_column_id to_table_id →
     ∃ message,
       run_handler (create_foreign_key env from_column_id to_table_id) d
       = (Throw message, d)) ∧
  (¬ fk_refused d from_column_id to_table_id → healthy env →
     ∃ fk, run_handler (create_foreign_key env from_column_id to_table_id) d
           = (Ok (fk_id fk, from_column_id, to_table_id),
              with_foreign_keys d (foreign_keys d ++ [fk]))
           ∧ fk_from_column_id fk = from_column_id
           ∧ fk_to_table_id fk = to_table_id ∧ live_fk fk) ∧
  (one_live_fk_per_column d →
     one_live_fk_per_column
       (run_handler (create_foreign_key env from_column_id to_table_id) d).2).
Proof.
  intros Hids. split; [|split]; [| |apply create_foreign_key_one_live].
  - rewrite create_foreign_key_outcome. intros Href.
    destruct (head (filter _ (columns d))) as [fromCol|] eqn:Ec; [|by eexists].
    destruct (decide (c_table_id fromCol = to_table_id)) as [|Hself]; [by eexists|].
    destruct (head (filter _ (tables d))) eqn:Et; [|by eexists].
    destruct (decide (0 < length _)) as [|Hfk]; [by eexists|].
    exfalso. apply head_filter_Some in Ec as (Hc & Hid & Hlive).
    destruct Href as [Hn|[(c & Hc' & Hid' & Hlive' & Hself')|[Hn|Hex]]].
    + apply Hn. by exists fromCol.
    + apply Hself. rewrite <- Hself'. f_equal.
      apply (NoDup_fmap_eq c_id (columns d)); [done..|congruence].
    + apply head_filter_Some in Et. apply Hn. eauto.
    + apply Hfk, filter_nil_length. done.
  - rewrite create_foreign_key_outcome. intros Href Hh.
    destruct (head (filter _ (columns d))) as [fromCol|] eqn:Ec.
    2:{ destruct Href. left. by apply head_filter_None in Ec. }
    apply head_filter_Some in Ec as (Hc & Hid & Hlive).
    destruct (decide (c_table_id fromCol = to_table_id)) as [Hself|Hself].
    { destruct Href. right. left. by exists fromCol. }
    destruct (head (filter _ (tables d))) eqn:Et.
    2:{ destruct Href. right. right. left. by apply head_filter_None in Et. }
    destruct (decide (0 < length _)) as [Hfk|Hfk].
    { destruct Href. do 3 right. by apply filter_nil_length in Hfk. }
    rewrite Hh.
    by exists {| fk_id := next_id (fk_id <$> foreign_keys d);
                 fk_from_column_id := from_column_id;
                 fk_to_table_id := to_table_id;
                 fk_created_at := clock env 0; fk_deleted_at := None |}.
Qed.

Lemma create_foreign_key_spec_witness :
  (∃ message,
     run_handler (create_foreign_key env0 1 2) fk_db = (Throw message, fk_db)) ∧
  (∃ fk, run_handler (create_foreign_key env0 1 2) (with_foreign_keys fk_db [])
         = (Ok (fk_id fk, 1, 2),
            with_foreign_keys (with_foreign_keys fk_db []) ([] ++ [fk]))
         ∧ fk_from_column_id fk = 1 ∧ fk_to_table_id fk = 2 ∧ live_fk fk).
Proof.
  split.
  - refine (proj1 (create_foreign_key_spec env0 fk_db 1 2 _) _).
    + apply (bool_decide_unpack _). vm_compute. exact I.
    + do 3 right. eexists. split; [left|]. done.
  - refine (proj1 (proj2 (create_foreign_key_spec env0 (with_foreign_keys fk_db []) 1 2
                            _)) _ env0_healthy).
    + apply (bool_decide_unpack _). vm_compute. exact I.
    + intros [Hn|[(c & Hc & _ & _ & Ht)|[Hn|(fk & Hfk & _)]]].
      * apply Hn. eexists. split; [left|]. done.
      * cbn in Hc. elem_cases Hc. discriminate Ht.
      * apply Hn. eexists. split; [right; left|]. done.
      * cbn in Hfk. by apply not_elem_of_nil in Hfk.
Defined.

(** ** Validation *)

Lemma take_1_length {A} (l : list A) : 0 < length (take 1 l) ↔ l ≠ [].
Proof. destruct l; cbn; [split; [lia|done]|split; [done|lia]]. Qed.

Lemma check_uniqueness_ok table_id column_id col_name v row_id s :
  v ≠ "" → uniqueness_conflicts table_id column_id v row_id s.2 = [] →
  _check_uniqueness table_id column_id col_name (Some v) row_id s = (Ok tt, s).
Proof.
  intros Hv Hc. unfold _check_uniqueness, bind, select.
  rewrite decide_False by done. rewrite Hc. cbn. by rewrite decide_False by lia.
Qed.

Lemma check_uniqueness_throw table_id column_id col_name v row_id s :
  v ≠ "" → uniqueness_conflicts table_id column_id v row_id s.2 ≠ [] →
  ∃ message,
    _check_uniqueness table_id column_id col_name (Some v) row_id s = (Throw message, s).
Proof.
  intros Hv Hc. unfold _check_uniqueness, bind, select.
  rewrite decide_False by done. rewrite decide_True by by apply take_1_length.
  by eexists.
Qed.

Lemma check_fk_exists_ok to_table_id v col_name s :
  v ≠ "" → fk_targets to_table_id v s.2 ≠ [] →
  _check_fk_exists to_table_id (Some v) col_name s = (Ok tt, s).
Proof.
  intros Hv Hc. unfold _check_fk_exists, bind, select.
  rewrite decide_False by done. apply take_1_length in Hc.
  by rewrite decide_False by lia.
Qed.

Lemma check_fk_exists_throw to_table_id v col_name s :
  v ≠ "" → fk_targets to_table_id v s.2 = [] →
  ∃ message, _check_fk_exists to_table_id (Some v) col_name s = (Throw message, s).
Proof.
  intros Hv Hc. unfold _check_fk_exists, bind, select.
  rewrite decide_False by done. rewrite Hc. cbn. by eexists.
Qed.

(** The uniqueness query finds a conflict exactly when another row that
    is not net-deleted holds the value. *)
Lemma uniqueness_conflicts_spec d table_id column_id v row_id :
  event_ids_unique d →
  uniqueness_conflicts table_id column_id v row_id d = [] ↔
  unique_ok d table_id row_id column_id v.
Proof.
  intros Hids. unfold unique_ok, uniqueness_conflicts. split.
  - intros Hnil (r & Hr & Hdel & e & He & Hv).
    assert (Hin : Some v ∈ (latest_joined d table_id ≫= λ '(l, ch),
        if decide (l_column_id l = Some column_id ∧ ch_value ch = Some v
                   ∧ l_row_id l ≠ row_id ∧ l_row_id l ∉ deleted_rows d table_id)
        then [ch_value ch] else [])).
    { apply list_elem_of_bind. eexists (_, e). split; [|by apply is_latest_joined].
      cbn. rewrite decide_True; [rewrite Hv; left|].
      rewrite deleted_rows_spec. done. }
    rewrite Hnil in Hin. by apply not_elem_of_nil in Hin.
  - intros Hok. apply elem_of_nil_inv. intros x Hx.
    apply list_elem_of_bind in Hx as ([l ch] & Hx & Hl).
    destruct (decide _) as [(Hc & Hv & Hr & Hd)|]; [|by apply not_elem_of_nil in Hx].
    apply Hok. exists (l_row_id l). split; [done|].
    split; [by rewrite <- deleted_rows_spec|]. exists ch. split; [|done].
    rewrite <- Hc. by apply latest_joined_is_latest.
Qed.

(** The foreign-key query finds a target exactly when the value is a live
    row of the target table. *)
Lemma fk_targets_spec d to_table_id v :
  fk_targets to_table_id v d ≠ [] ↔ row_live d to_table_id v.
Proof.
  unfold fk_targets, row_live, row_created. split.
  - intros Hne. destruct (filter _ (cell_history d)) as [|e l] eqn:E; [done|].
    assert (He : e ∈ filter
      (λ ch, ch_table_id ch = to_table_id ∧ ch_sentinel ch = Some NEW
             ∧ ch_row_id ch = v ∧ (ch_row_id ch ∉ deleted_rows d to_table_id))
      (cell_history d)) by (rewrite E; left).
    apply list_elem_of_filter in He as [(Ht & Hs & Hr & Hd) He].
    split; [by exists e|]. by rewrite <- deleted_rows_spec, <- Hr.
  - intros [(e & He & Ht & Hr & Hs) Hd] Hnil.
    apply fmap_nil_inv in Hnil.
    assert (Hin : e ∈ filter
      (λ ch, ch_table_id ch = to_table_id ∧ ch_sentinel ch = Some NEW
             ∧ ch_row_id ch = v ∧ (ch_row_id ch ∉ deleted_rows d to_table_id))
      (cell_history d)).
    { apply list_elem_of_filter. rewrite Hr, deleted_rows_spec. done. }
    rewrite Hnil in Hin. by apply not_elem_of_nil in Hin.
Qed.

Lemma for_each_ext {A} (l : list A) (f g : A → M unit) s :
  (∀ x s, f x s = g x s) → for_each l f s = for_each l g s.
Proof.
  intros Hfg. revert s. induction l as [|x l IH]; intros s; cbn; [done|].
  unfold bind. rewrite Hfg. destruct (g x s) as [[[]|e] s']; [apply IH|done].
Qed.

(** The validation loops of [create_row] and [update_row] are the same
    computation. *)
Lemma create_row_validate_eq table_id row_id colMap fkMap cells s :
  create_row_validate table_id row_id colMap fkMap cells s
  = update_row_validate table_id row_id colMap fkMap cells s.
Proof.
  unfold create_row_validate, update_row_validate. apply for_each_ext.
  intros [colName value] s'. destruct (colMap !! colName) as [col|]; [|done].
  destruct (Js.truthy value) eqn:Ev; cbn [negb andb].
  - destruct (decide (col_is_unique col ≠ 0)).
    + by rewrite bool_decide_eq_true_2.
    + by rewrite bool_decide_eq_false_2.
  - unfold bind, ret. by destruct (fkMap !! col_id col).
Qed.

(** One round of the validation loop reads only, and passes exactly when
    the entry validates. *)
Lemma validate_cell d table_id row_id nv n :
  event_ids_unique d →
  ∃ r, (let '(colName, value) := nv in
        match _col_map_for_table table_id d !! colName with
        | None => ret tt
        | Some col =>
            (if Js.truthy value && bool_decide (col_is_unique col ≠ 0)
             then _check_uniqueness table_id (col_id col) colName value row_id
             else ret tt) ;;
            match _get_fk_map_for_table table_id d !! col_id col with
            | Some to_table_id =>
                if Js.truthy value
                then _check_fk_exists to_table_id value colName
                else ret tt
            | None => ret tt
            end
        end) (n, d) = (r, (n, d))
       ∧ (cell_validates d table_id row_id nv ↔ r = Ok tt).
Proof.
  intros Hids. destruct nv as [colName value]. unfold cell_validates. cbn [fst snd].
  destruct (_col_map_for_table table_id d !! colName) as [col|] eqn:Ecol.
  2:{ exists (Ok tt). split; [done|]. split; [done|]. intros _ v col' _ _ [=]. }
  destruct value as [v|]; cbn [Js.truthy].
  2:{ exists (Ok tt). cbn [andb]. split.
      - unfold bind, ret. by destruct (_get_fk_map_for_table _ _ !! _).
      - split; [done|]. intros _ v col' [=]. }
  destruct (decide (v = "")) as [->|Hv].
  { exists (Ok tt). cbn. split.
    - unfold bind, ret. by destruct (_get_fk_map_for_table _ _ !! _).
    - split; [done|]. intros _ v col' [= <-] Hne. done. }
  rewrite bool_decide_eq_false_2 by done. cbn [negb andb].
  assert (Hfk : ∃ r,
    match _get_fk_map_for_table table_id d !! col_id col with
    | Some to_table_id => _check_fk_exists to_table_id (Some v) colName
    | None => ret tt
    end (n, d) = (r, (n, d))
    ∧ ((∀ to_table_id, _get_fk_map_for_table table_id d !! col_id col = Some to_table_id
                       → row_live d to_table_id v) ↔ r = Ok tt)).
  { destruct (_get_fk_map_for_table table_id d !! col_id col) as [to|].
    - destruct (fk_targets to v d) as [|x l] eqn:Et.
      + destruct (check_fk_exists_throw to v colName (n, d) Hv Et) as (msg & ->).
        exists (Throw msg). split; [done|]. split; [|done].
        intros H. specialize (H to eq_refl). apply fk_targets_spec in H.
        by rewrite Et in H.
      + rewrite check_fk_exists_ok by (try done; cbn; by rewrite Et).
        exists (Ok tt). split; [done|]. split; [done|].
        intros _ to' [= <-]. apply fk_targets_spec. by rewrite Et.
    - exists (Ok tt). split; [done|]. split; [done|]. by intros _ to [=]. }
  destruct Hfk as (rfk & Efk & Hfk).
  destruct (decide (col_is_unique col ≠ 0)) as [Hu|Hu].
  - rewrite bool_decide_eq_true_2 by done.
    destruct (uniqueness_conflicts table_id (col_id col) v row_id d) as [|x l] eqn:Ec.
    + exists rfk. unfold bind at 1.
      rewrite check_uniqueness_ok by done. split; [done|].
      rewrite <- Hfk. split.
      * intros H. by apply (H v col).
      * intros H v' col' [= <-] _ [= <-]. split; [|done].
        intros _. by apply uniqueness_conflicts_spec.
    + destruct (check_uniqueness_throw table_id (col_id col) colName v row_id (n, d) Hv)
        as (msg & Emsg); [cbn; by rewrite Ec|].
      exists (Throw msg). unfold bind at 1. rewrite Emsg. split; [done|].
      split; [|done]. intros H. destruct (H v col eq_refl Hv eq_refl) as [H1 _].
      apply H1 in Hu. apply uniqueness_conflicts_spec in Hu; [|done].
      by rewrite Ec in Hu.
  - rewrite bool_decide_eq_false_2 by done. exists rfk. split; [done|].
    rewrite <- Hfk. split.
    + intros H. by apply (H v col).
    + intros H v' col' [= <-] _ [= <-]. split; [done|done].
Qed.

(** The validation loop reads only, and passes exactly when every entry
    validates. *)
Lemma update_row_validate_outcome d table_id row_id cells n :
  event_ids_unique d →
  ∃ r, update_row_validate table_id row_id (_col_map_for_table table_id d)
         (_get_fk_map_for_table table_id d) cells (n, d) = (r, (n, d))
       ∧ (validates d table_id row_id cells ↔ r = Ok tt).
Proof.
  intros Hids. unfold update_row_validate, validates.
  induction cells as [|nv cells (r & IH & Hr)].
  - exists (Ok tt). split; [done|]. split; [done|]. intros _. constructor.
  - cbn [for_each]. destruct (validate_cell d table_id row_id nv n Hids) as (r1 & E1 & H1).
    unfold bind at 1. destruct nv as [colName value]. rewrite E1.
    destruct r1 as [[]|msg].
    + exists r. split; [done|]. rewrite <- Hr, Forall_cons. tauto.
    + exists (Throw msg). split; [done|]. rewrite Forall_cons.
      split; [|done]. intros [Hc _]. by apply H1 in Hc.
Qed.

(** ** The column map *)

Lemma col_map_fold_lookup (l : list Column) (m0 : gmap string ColInfo) n col :
  foldl (λ map c, <[c_name c := {| col_id := c_id c; col_is_unique := c_is_unique c |}]> map)
        m0 l !! n = Some col →
  (∃ c, c ∈ l ∧ c_name c = n ∧ col_id col = c_id c ∧ col_is_unique col = c_is_unique c)
  ∨ m0 !! n = Some col.
Proof.
  revert m0. induction l as [|c l IH]; intros m0; cbn; [by right|].
  intros [(c' & Hc' & ?)|H]%IH.
  - left. exists c'. split; [by right|done].
  - destruct (decide (c_name c = n)) as [<-|Hn].
    + rewrite lookup_insert_eq in H. injection H as <-. left. exists c.
      split; [left|done].
    + rewrite lookup_insert_ne in H by done. by right.
Qed.

Lemma col_map_fold_is_Some (l : list Column) (m0 : gmap string ColInfo) n :
  (∃ c, c ∈ l ∧ c_name c = n) ∨ is_Some (m0 !! n) →
  is_Some (foldl (λ map c,
             <[c_name c := {| col_id := c_id c; col_is_unique := c_is_unique c |}]> map)
           m0 l !! n).
Proof.
  revert m0. induction l as [|c l IH]; intros m0; cbn.
  - intros [(c & []%not_elem_of_nil & _)|H]; done.
  - intros [(c' & [->|Hc']%elem_of_cons & Hn)|H]; apply IH.
    + right. rewrite Hn, lookup_insert_eq. by eexists.
    + left. by exists c'.
    + right. destruct (decide (c_name c = n)) as [<-|Hne].
      * rewrite lookup_insert_eq. by eexists.
      * by rewrite lookup_insert_ne.
Qed.

(** An entry of the column map is a live column of the table. *)
Lemma col_map_lookup d table_id n col :
  _col_map_for_table table_id d !! n = Some col →
  ∃ c, c ∈ columns d ∧ c_table_id c = table_id ∧ live_column c ∧ c_name c = n
       ∧ col_id col = c_id c ∧ col_is_unique col = c_is_unique c.
Proof.
  unfold _col_map_for_table. cbv zeta.
  intros [(c & (Hp & Hc)%list_elem_of_filter & Hn & Hid & Hu)|H]%col_map_fold_lookup.
  - exists c. tauto.
  - by rewrite lookup_empty in H.
Qed.

(** The names the column map knows are the recognized names. *)
Lemma col_map_recognized d table_id n :
  is_Some (_col_map_for_table table_id d !! n) ↔ recognized d table_id n.
Proof.
  unfold recognized. rewrite Exists_exists. split.
  - intros [col (c & ?)%col_map_lookup]. exists c. tauto.
  - intros (c & Hc & Ht & Hl & Hn). apply col_map_fold_is_Some. left.
    exists c. split; [|done]. by apply list_elem_of_filter.
Qed.

(** ** Appending events *)

Lemma max_list_snoc_ge ids x : (max_list ids ≤ x)%nat → max_list (ids ++ [x]) = x.
Proof.
  induction ids as [|a ids IH]; cbn [app max_list_with]; unfold id in *; [lia|].
  cbn [max_list_with] in *. intros H. rewrite IH; lia.
Qed.

Lemma next_id_snoc ids : next_id (ids ++ [next_id ids]) = S (next_id ids).
Proof. unfold next_id. f_equal. apply max_list_snoc_ge. lia. Qed.

Lemma appended_nil d : appended d d [].
Proof. split; [|done]. destruct d. unfold with_cell_history. cbn. by rewrite app_nil_r. Qed.

Lemma appended_cons d e d' new :
  ch_id e = next_id (ch_id <$> cell_history d) →
  appended (with_cell_history d (cell_history d ++ [e])) d' new →
  appended d d' (e :: new).
Proof.
  intros He [-> Hids]. split.
  - unfold with_cell_history. cbn. by rewrite <- app_assoc.
  - cbn in *. rewrite He. f_equal. rewrite Hids, fmap_app. cbn.
    by rewrite He, next_id_snoc.
Qed.

Lemma insert_event_healthy env table_id row_id column_id sentinel value n d :
  healthy env →
  statement env (sql_insert_event table_id row_id column_id sentinel value) (n, d) =
  (Ok tt, (S n, with_cell_history d (cell_history d ++
     [ {| ch_id := next_id (ch_id <$> cell_history d); ch_table_id := table_id;
          ch_row_id := row_id; ch_column_id := column_id; ch_sentinel := sentinel;
          ch_value := value; ch_timestamp := clock env n |} ]))).
Proof. intros Hh. by rewrite statement_healthy. Qed.

(** The events the write loop of [update_row] appends: one for each
    entry whose name the column map knows, in the order of the entries. *)
Lemma update_row_write_spec env table_id row_id colMap cells n d :
  healthy env →
  ∃ new d',
    update_row_write env table_id row_id colMap cells (n, d)
    = (Ok (bool_decide (new ≠ [])), (n + length new, d'))
    ∧ appended d d' new
    ∧ Forall2 (λ nv e,
         ch_table_id e = table_id ∧ ch_row_id e = row_id ∧ ch_sentinel e = None
         ∧ ch_value e = nv.2
         ∧ ∃ col, colMap !! nv.1 = Some col ∧ ch_column_id e = Some (col_id col))
       (filter (λ nv, is_Some (colMap !! nv.1)) cells) new.
Proof.
  intros Hh. unfold update_row_write.
  assert (Hgen : ∀ inserted n d, ∃ new d',
    for_fold cells inserted (λ inserted '(colName, value),
      match colMap !! colName with
      | None => ret inserted
      | Some col =>
          statement env (sql_insert_event table_id row_id (Some (col_id col)) None value) ;;
          ret true
      end) (n, d)
    = (Ok (inserted || bool_decide (new ≠ [])), (n + length new, d'))
    ∧ appended d d' new
    ∧ Forall2 (λ nv e,
         ch_table_id e = table_id ∧ ch_row_id e = row_id ∧ ch_sentinel e = None
         ∧ ch_value e = nv.2
         ∧ ∃ col, colMap !! nv.1 = Some col ∧ ch_column_id e = Some (col_id col))
       (filter (λ nv, is_Some (colMap !! nv.1)) cells) new).
  { clear n d. induction cells as [|[colName value] cells IH]; intros inserted n d.
    - exists [], d. cbn. rewrite Nat.add_0_r, orb_false_r.
      split; [done|]. split; [apply appended_nil|constructor].
    - cbn [for_fold]. rewrite filter_cons. cbn [fst].
      destruct (colMap !! colName) as [col|] eqn:Ecol.
      + rewrite decide_True by by eexists.
        unfold bind at 1 2. rewrite insert_event_healthy by done.
        set (e := {| ch_id := next_id (ch_id <$> cell_history d);
                     ch_table_id := table_id;
                     ch_row_id := row_id; ch_column_id := Some (col_id col);
                     ch_sentinel := None; ch_value := value;
                     ch_timestamp := clock env n |}).
        destruct (IH true (S n) (with_cell_history d (cell_history d ++ [e])))
          as (new & d' & E & Happ & Hall).
        exists (e :: new), d'. unfold ret at 1. rewrite E. cbn [length orb].
        rewrite orb_true_r. split; [f_equal; f_equal; lia|].
        split; [by apply appended_cons|].
        constructor; [|done]. cbn. repeat split. by exists col.
      + rewrite decide_False by (by intros [? ?]).
        unfold bind at 1. unfold ret at 1. apply IH. }
  apply (Hgen false).
Qed.


(** ** Updating a row *)

Lemma appended_nil_eq d d' : appended d d' [] → d' = d.
Proof.
  intros [-> _]. destruct d. unfold with_cell_history. cbn. by rewrite app_nil_r.
Qed.

Lemma written_events_for d table_id row_id (cells : list (string * option string)) new :
  Forall2 (λ nv e,
     ch_table_id e = table_id ∧ ch_row_id e = row_id ∧ ch_sentinel e = None
     ∧ ch_value e = nv.2
     ∧ ∃ col, _col_map_for_table table_id d !! nv.1 = Some col
              ∧ ch_column_id e = Some (col_id col)) cells new →
  Forall2 (cell_event_for d table_id row_id) cells new.
Proof.
  intros H. eapply Forall2_impl; [exact H|]. cbn beta.
  intros nv e (Ht & Hr & Hs & Hv & col & Hcol & Hc).
  unfold cell_event_for. repeat (split; [done|]).
  apply col_map_lookup in Hcol as (c & ? & ? & ? & ? & Hid & ?).
  exists c. rewrite <- Hid. done.
Qed.

(** What [update_row] does when its validation loop passes. *)
Lemma update_row_valid env d table_id row_id cells :
  healthy env → event_ids_unique d →
  validates d table_id row_id cells →
  ∃ new d', appended d d' new
    ∧ Forall2 (cell_event_for d table_id row_id) (accepted d table_id cells) new
    ∧ run_handler (update_row env table_id row_id cells) d =
      (if decide (new = []) then Throw "No valid columns found in update"
       else Ok row_id, d').
Proof.
  intros Hh Hids Hval.
  destruct (update_row_validate_outcome d table_id row_id cells 0 Hids) as (r & Er & Hr).
  unfold update_row, run_handler. rewrite !bind_select. cbn [snd].
  apply Hr in Hval as ->. rewrite (bind_ok _ _ _ _ _ Er).
  destruct (update_row_write_spec env table_id row_id (_col_map_for_table table_id d)
              cells 0 d Hh) as (new & d' & Ew & Happ & Hall).
  rewrite (bind_ok _ _ _ _ _ Ew).
  exists new, d'. split; [done|]. split.
  - unfold accepted.
    rewrite (list_filter_iff _ (λ nv, is_Some (_col_map_for_table table_id d !! nv.1)))
      by (intros nv; symmetry; apply col_map_recognized).
    by apply written_events_for.
  - destruct new; reflexivity.
Qed.







(** ** Creating a row *)

Lemma check_uniqueness_read_only table_id column_id col_name value row_id s :
  ∃ r, _check_uniqueness table_id column_id col_name value row_id s = (r, s).
Proof.
  unfold _check_uniqueness. destruct value as [v|]; [|by eexists].
  destruct (decide (v = "")); [by eexists|]. rewrite bind_select.
  destruct (decide _); by eexists.
Qed.

Lemma check_fk_exists_read_only to_table_id value col_name s :
  ∃ r, _check_fk_exists to_table_id value col_name s = (r, s).
Proof.
  unfold _check_fk_exists. destruct value as [v|]; [|by eexists].
  destruct (decide (v = "")); [by eexists|]. rewrite bind_select.
  destruct (decide _); by eexists.
Qed.

(** The validation loop writes nothing, whatever its outcome. *)
Lemma update_row_validate_read_only table_id row_id colMap fkMap cells s :
  ∃ r, update_row_validate table_id row_id colMap fkMap cells s = (r, s).
Proof.
  unfold update_row_validate.
  induction cells as [|[colName value] cells (r & IH)]; [by eexists|].
  cbn [for_each].
  assert (Hbody : ∃ r1,
    match colMap !! colName with
    | None => ret tt
    | Some col =>
        (if Js.truthy value && bool_decide (col_is_unique col ≠ 0)
         then _check_uniqueness table_id (col_id col) colName value row_id
         else ret tt) ;;
        match fkMap !! col_id col with
        | Some to_table_id =>
            if Js.truthy value
            then _check_fk_exists to_table_id value colName
            else ret tt
        | None => ret tt
        end
    end s = (r1, s)).
  { destruct (colMap !! colName) as [col|]; [|by eexists].
    assert (Hu : ∃ r, (if Js.truthy value && bool_decide (col_is_unique col ≠ 0)
         then _check_uniqueness table_id (col_id col) colName value row_id
         else ret tt) s = (r, s)).
    { destruct (_ && _); [apply check_uniqueness_read_only|by eexists]. }
    destruct Hu as ([[]|e] & Eu).
    - rewrite (bind_ok _ _ _ _ _ Eu).
      destruct (fkMap !! col_id col); [|by eexists].
      destruct (Js.truthy value); [apply check_fk_exists_read_only|by eexists].
    - rewrite (bind_throw _ _ _ _ _ Eu). by eexists. }
  destruct Hbody as ([[]|e] & E1).
  - rewrite (bind_ok _ _ _ _ _ E1). by exists r.
  - rewrite (bind_throw _ _ _ _ _ E1). by eexists.
Qed.







Lemma tasks_db_reached :
  after (create_row env0 1 [("Title", Some "Buy milk")])
    (after (create_column env0 1 "Title" 1)
       (after (create_table env0 "Tasks") fresh_db)) = tasks_db.
Proof. vm_compute. reflexivity. Qed.

Lemma env1_healthy : healthy env1.
Proof. intros n. reflexivity. Qed.


(** ** Rows that hold a value *)

Lemma latest_key_eq d t l1 l2 :
  l1 ∈ latest d t → l2 ∈ latest d t →
  l_row_id l1 = l_row_id l2 → l_column_id l1 = l_column_id l2 → l1 = l2.
Proof.
  intros (e1 & [H1 M1] & I1)%latest_spec (e2 & [H2 M2] & I2)%latest_spec Hr Hc.
  destruct l1 as [r1 c1 m1], l2 as [r2 c2 m2]. cbn in *. subst r2 c2.
  f_equal. apply M1 in H2. apply M2 in H1. lia.
Qed.

Lemma latest_NoDup d t : NoDup (latest d t).
Proof.
  unfold latest. cbv zeta. apply NoDup_fmap_2_strong; [|apply NoDup_remove_dups].
  intros [r1 c1] [r2 c2] _ _ [=]. by subst.
Qed.

Lemma latest_joined_NoDup d t : event_ids_unique d → NoDup (latest_joined d t).
Proof.
  intros Hids. unfold latest_joined. apply NoDup_bind; [| |apply latest_NoDup].
  - intros l1 l2 [l ch] _ _ (? & [= <- _]%list_elem_of_singleton & _)%list_elem_of_bind
      (? & [= <- _]%list_elem_of_singleton & _)%list_elem_of_bind. done.
  - intros l _. apply NoDup_bind.
    + intros ch1 ch2 [l' ch] _ _ [= _ <-]%list_elem_of_singleton
        [= _ <-]%list_elem_of_singleton. done.
    + intros ch _. apply NoDup_singleton.
    + apply NoDup_filter. by apply NoDup_fmap_1 in Hids.
Qed.

(** With unique event keys, the rows the reference query counts are,
    without repetition, the rows that are not net-deleted and currently
    hold the value in the column. *)
Lemma referencing_rows_spec d table_id column_id v :
  event_ids_unique d →
  NoDup (referencing_rows table_id column_id v d) ∧
  ∀ r, r ∈ referencing_rows table_id column_id v d ↔ holder d table_id column_id v r.
Proof.
  intros Hids. unfold referencing_rows. split.
  - apply NoDup_bind; [| |by apply latest_joined_NoDup].
    + intros [l1 ch1] [l2 ch2] r H1 H2 Hr1 Hr2.
      destruct (decide _) as [(Hc1 & _)|]; [|by apply not_elem_of_nil in Hr1].
      destruct (decide _) as [(Hc2 & _)|]; [|by apply not_elem_of_nil in Hr2].
      apply list_elem_of_singleton in Hr1, Hr2.
      apply latest_joined_spec in H1 as (Hl1 & Hh1 & Hi1).
      apply latest_joined_spec in H2 as (Hl2 & Hh2 & Hi2).
      assert (l1 = l2) as -> by (apply (latest_key_eq d table_id); congruence).
      f_equal. apply (NoDup_fmap_eq ch_id (cell_history d)); [done..|congruence].
    + intros [l ch] _. destruct (decide _); [apply NoDup_singleton|constructor].
  - intros r. rewrite list_elem_of_bind. unfold holder, holds_value. split.
    + intros ([l ch] & Hr & Hl).
      destruct (decide _) as [(Hc & Hv & Hd)|]; [|by apply not_elem_of_nil in Hr].
      apply list_elem_of_singleton in Hr. subst r.
      split; [by rewrite <- deleted_rows_spec|]. exists ch. split; [|done].
      rewrite <- Hc. by apply latest_joined_is_latest.
    + intros (Hd & e & He & Hv). eexists (_, e). split; [|by apply is_latest_joined].
      cbn. rewrite decide_True; [left|]. by rewrite deleted_rows_spec.
Qed.

(** ** Deleting a row *)

Lemma inbound_spec d table_id x :
  x ∈ inbound table_id d ↔
  ∃ fk c tb, inbound_fk d table_id fk c tb
    ∧ x = {| in_from_column_id := fk_from_column_id fk;
             in_from_table_id := c_table_id c;
             in_from_table_name := t_name tb |}.
Proof.
  unfold inbound, inbound_fk. rewrite list_elem_of_bind. split.
  - intros (fk & (c & (tb & Hx & (Htb & Htbin)%list_elem_of_filter)%list_elem_of_bind
                    & (Hc & Hcin)%list_elem_of_filter)%list_elem_of_bind & Hfk).
    destruct (decide _) as [(? & ? & ? & ?)|]; [|by apply not_elem_of_nil in Hx].
    apply list_elem_of_singleton in Hx. exists fk, c, tb. done.
  - intros (fk & c & tb & (? & ? & ? & ? & ? & ? & ? & ? & ?) & ->).
    exists fk. split; [|done]. apply list_elem_of_bind. exists c.
    split; [|by apply list_elem_of_filter]. apply list_elem_of_bind. exists tb.
    split; [|by apply list_elem_of_filter].
    rewrite decide_True by done. left.
Qed.

(** The loop of [delete_row] over the inbound foreign keys reads only;
    it throws at the first one that is referenced and passes when none
    is. *)
Lemma delete_row_check row_id (inb : list Inbound) s :
  (for_each inb (λ fk,
     let* cnt := select (referencing_count (in_from_table_id fk)
                           (in_from_column_id fk) row_id) in
     if decide (0 < cnt)
     then throw ("Cannot delete: " ++ Js.show cnt ++ " row(s) in " ++ Js.dq
                 ++ in_from_table_name fk ++ Js.dq ++ " reference this row")
     else ret tt) s = (Ok tt, s)
   ∧ ∀ fk, fk ∈ inb →
       referencing_count (in_from_table_id fk) (in_from_column_id fk) row_id s.2 = 0)
  ∨ (∃ fk, fk ∈ inb
       ∧ 0 < referencing_count (in_from_table_id fk) (in_from_column_id fk) row_id s.2
       ∧ for_each inb (λ fk,
           let* cnt := select (referencing_count (in_from_table_id fk)
                                 (in_from_column_id fk) row_id) in
           if decide (0 < cnt)
           then throw ("Cannot delete: " ++ Js.show cnt ++ " row(s) in " ++ Js.dq
                       ++ in_from_table_name fk ++ Js.dq ++ " reference this row")
           else ret tt) s
         = (Throw ("Cannot delete: "
                   ++ Js.show (referencing_count (in_from_table_id fk)
                                 (in_from_column_id fk) row_id s.2)
                   ++ " row(s) in " ++ Js.dq ++ in_from_table_name fk ++ Js.dq
                   ++ " reference this row"), s)).
Proof.
  induction inb as [|fk inb IH].
  - left. split; [done|]. by intros fk ?%not_elem_of_nil.
  - destruct (decide (0 < referencing_count (in_from_table_id fk)
                            (in_from_column_id fk) row_id s.2)) as [Hpos|Hzero].
    + right. exists fk. split; [left|]. split; [done|].
      apply for_each_cons_throw. rewrite bind_select. by rewrite decide_True.
    + rewrite (for_each_cons_ok _ _ _ s s)
        by (rewrite bind_select; by rewrite decide_False).
      destruct IH as [[E Hall]|(fk' & Hin & Hpos & E)].
      * left. split; [done|]. intros fk' [->|Hin]%elem_of_cons; [lia|auto].
      * right. exists fk'. split; [by right|done].
Qed.

Lemma max_list_app l1 l2 : max_list (l1 ++ l2) = max_list l1 `max` max_list l2.
Proof.
  induction l1 as [|x l1 IH]; [done|].
  rewrite <- app_comm_cons. cbn [max_list_with id]. rewrite IH. lia.
Qed.



(** What [delete_row] does, by the outcome of its loop. *)
Lemma delete_row_outcome env d table_id row_id :
  ((∀ x, x ∈ inbound table_id d →
      referencing_count (in_from_table_id x) (in_from_column_id x) row_id d = 0)
   ∧ run_handler (delete_row env table_id row_id) d
     = match storage env 0 with
       | Some message => (Throw message, d)
       | None =>
           (Ok tt, with_cell_history d (cell_history d ++
              [ {| ch_id := next_id (ch_id <$> cell_history d);
                   ch_table_id := table_id;
                   ch_row_id := row_id; ch_column_id := None;
                   ch_sentinel := Some DELETED; ch_value := Some "1";
                   ch_timestamp := clock env 0 |} ]))
       end)
  ∨ (∃ x, x ∈ inbound table_id d
       ∧ 0 < referencing_count (in_from_table_id x) (in_from_column_id x) row_id d
       ∧ run_handler (delete_row env table_id row_id) d
         = (Throw ("Cannot delete: "
                   ++ Js.show (referencing_count (in_from_table_id x)
                                 (in_from_column_id x) row_id d)
                   ++ " row(s) in " ++ Js.dq ++ in_from_table_name x ++ Js.dq
                   ++ " reference this row"), d)).
Proof.
  unfold delete_row, run_handler. rewrite bind_select. cbn [snd].
  destruct (delete_row_check row_id (inbound table_id d) (0, d))
    as [[E Hall]|(x & Hx & Hpos & E)].
  - left. split; [done|]. rewrite (bind_ok _ _ _ _ _ E).
    unfold bind, statement. cbn [fst snd]. by destruct (storage env 0).
  - right. exists x. split; [done|]. split; [done|].
    by rewrite (bind_throw _ _ _ _ _ E).
Qed.


Lemma people_db_reached :
  after (create_row {| clock := λ n, 100 + n; storage := λ _, None;
                       randomUUID := "t1" |} 2 [("Owner", Some "p1")])
    (after (create_row {| clock := λ n, 100 + n; storage := λ _, None;
                          randomUUID := "p1" |} 1 [])
       (after (create_foreign_key env0 1 1)
          (after (create_column env0 2 "Owner" 0)
             (after (create_table env0 "Tasks")
                (after (create_table env0 "People") fresh_db))))) = people_db.
Proof. vm_compute. reflexivity. Qed.


(** ** Enabling uniqueness *)






Lemma sql_set_unique_step u id now d :
  ∃ d', sql_set_unique u id now d = Ok (tt, d') ∧ unique_flag_step id u d d'.
Proof.
  eexists. split; [reflexivity|]. split; [|done].
  cbn. apply Forall2_fmap_r, Forall_Forall2_diag, Forall_forall.
  intros c _. unfold compose. case_decide as Hc.
  - split; [|done]. intros _. by repeat split.
  - split; [done|]. done.
Qed.


Lemma twins_db_reached :
  after (create_row env1 1 [("Title", Some "Buy milk")])
    (after (create_row env0 1 [("Title", Some "Buy milk")])
       (after (create_column env0 1 "Title" 0)
          (after (create_table env0 "Tasks") fresh_db))) = twins_db.
Proof. vm_compute. reflexivity. Qed.


(** ** Rows that were never created *)

(** When no row of another table holds the identifier through a live
    foreign key, every count of the loop of [delete_row] is zero. *)
Lemma unreferenced_counts d table_id row_id :
  event_ids_unique d → no_self_reference d →
  ¬ referenced d table_id row_id →
  ∀ x, x ∈ inbound table_id d →
    referencing_count (in_from_table_id x) (in_from_column_id x) row_id d = 0.
Proof.
  intros Hids Hself Hnot x (fk & c & tb & Hin & ->)%inbound_spec. cbn.
  pose proof Hin as (Hfk & _ & Hto & Hc & Hcid & _ & _ & Htid & _).
  unfold referencing_count.
  destruct (referencing_rows (c_table_id c) (fk_from_column_id fk) row_id d)
    as [|r rows] eqn:Er; [done|].
  exfalso. apply Hnot. exists fk, c, tb, r. split; [done|]. split.
  - rewrite Htid, <- Hto. by apply Hself.
  - rewrite Htid, Hcid. apply (referencing_rows_spec d _ _ _ Hids). rewrite Er. left.
Qed.

(** C10. With a healthy storage layer, unique event keys and no foreign
    key from a table to itself, for every row identifier, whatever the
    events of the row are (none at all when it was never created, a
    latest "deleted" marking when it is net-deleted): [update_row] succeeds
    and appends cell events under the identifier whenever some supplied
    name is recognized and the entries validate, and [delete_row] succeeds
    and appends a "deleted" lifecycle event whenever no row that is not
    net-deleted holds the identifier through a live foreign key. *)
Theorem row_existence_not_checked env d table_id row_id cells :
  healthy env → event_ids_unique d → no_self_reference d →
  (accepted d table_id cells ≠ [] → validates d table_id row_id cells →
     ∃ new d',
       run_handler (update_row env table_id row_id cells) d = (Ok row_id, d')
       ∧ appended d d' new ∧ new ≠ []
       ∧ Forall (λ e, ch_table_id e = table_id ∧ ch_row_id e = row_id
                      ∧ ch_sentinel e = None) new) ∧
  (¬ referenced d table_id row_id →
     ∃ e d',
       run_handler (delete_row env table_id row_id) d = (Ok tt, d')
       ∧ appended d d' [e]
       ∧ ch_table_id e = table_id ∧ ch_row_id e = row_id
       ∧ ch_sentinel e = Some DELETED ∧ ch_value e = Some "1").
Proof.
  intros Hh Hids Hself. split.
  - intros Hacc Hval.
    destruct (update_row_valid env d table_id row_id cells Hh Hids Hval)
      as (new & d' & Happ & Hall & Hrun).
    assert (Hne : new ≠ []).
    { intros ->. apply Forall2_nil_inv_r in Hall. done. }
    exists new, d'. rewrite decide_False in Hrun by done.
    split; [done|]. split; [done|]. split; [done|].
    clear -Hall. induction Hall as [|nv e l1 l2 (? & ? & ? & _) _ IH]; constructor; auto.
  - intros Hnot.
    destruct (delete_row_outcome env d table_id row_id)
      as [[_ E]|(x & Hx & Hpos & _)].
    + rewrite Hh in E. eexists _, _. split; [exact E|].
      split; [by apply appended_cons, appended_nil|]. done.
    + rewrite (unreferenced_counts d table_id row_id Hids Hself Hnot x Hx) in Hpos. lia.
Qed.

(** The identifier "ghost" was never created, "gone" is net-deleted. *)
Lemma row_existence_not_checked_witness :
  ¬ row_created (with_cell_history ghost_db []) 1 "ghost" ∧
  (∃ new d',
     run_handler (update_row env1 1 "ghost" [("Title", Some "x")])
                 (with_cell_history ghost_db []) = (Ok "ghost", d')
     ∧ appended (with_cell_history ghost_db []) d' new ∧ new ≠ []
     ∧ Forall (λ e, ch_table_id e = 1 ∧ ch_row_id e = "ghost" ∧ ch_sentinel e = None) new) ∧
  (∃ e d',
     run_handler (delete_row env1 1 "ghost") (with_cell_history ghost_db [])
     = (Ok tt, d')
     ∧ appended (with_cell_history ghost_db []) d' [e]
     ∧ ch_table_id e = 1 ∧ ch_row_id e = "ghost"
     ∧ ch_sentinel e = Some DELETED ∧ ch_value e = Some "1").
Proof.
  assert (H := row_existence_not_checked env1 (with_cell_history ghost_db []) 1 "ghost"
                 [("Title", Some "x")] env1_healthy).
  destruct H as [H1 H2].
  - apply (bool_decide_unpack _). vm_compute. exact I.
  - intros fk c Hfk. cbn in Hfk. by apply not_elem_of_nil in Hfk.
  - split; [|split].
    + intros (e & He & _). cbn in He. by apply not_elem_of_nil in He.
    + apply H1; [vm_compute; discriminate|].
      apply Forall_cons. split; [|apply Forall_nil_2].
      intros v col [= <-] _ Hcol. vm_compute in Hcol. injection Hcol as <-.
      split; [done|]. intros to Hto. vm_compute in Hto. discriminate Hto.
    + apply H2. intros (fk & c & tb & r & (Hfk & _) & _).
      cbn in Hfk. by apply not_elem_of_nil in Hfk.
Defined.

(** ** The constraints hold in every reachable state *)

Lemma keeps_ret {A} I (a : A) : keeps I (ret a).
Proof. by intros s. Qed.

Lemma keeps_throw {A} I e : keeps I (@throw A e).
Proof. by intros s. Qed.

Lemma keeps_select {A} I (q : DB → A) : keeps I (select q).
Proof. by intros s. Qed.

Lemma keeps_bind {A B} I (m : M A) (k : A → M B) :
  keeps I m → (∀ a, keeps I (k a)) → keeps I (bind m k).
Proof.
  intros Hm Hk s Hs. unfold bind. specialize (Hm s Hs).
  destruct (m s) as [[a|e] s']; [by apply Hk|done].
Qed.


Lemma keeps_try_catch {A} I (m : M A) (h : string → M A) :
  keeps I m → (∀ e, keeps I (h e)) → keeps I (try_catch m h).
Proof.
  intros Hm Hh s Hs. unfold try_catch. specialize (Hm s Hs).
  destruct (m s) as [[a|e] s']; [done|by apply Hh].
Qed.

Lemma keeps_statement {A} I env (sql : nat → DB → Res (A * DB)) :
  (∀ now d a d', I d → sql now d = Ok (a, d') → I d') →
  keeps I (statement env sql).
Proof.
  intros Hsql [n d] Hs. unfold statement. cbn [fst snd] in *.
  destruct (storage env n); [done|].
  destruct (sql (clock env n) d) as [[a d']|e] eqn:E; [|done]. cbn. eauto.
Qed.

Lemma keeps_for_each {A} I (l : list A) (body : A → M unit) :
  (∀ x, keeps I (body x)) → keeps I (for_each l body).
Proof.
  intros Hb. induction l as [|x l IH]; cbn [for_each]; [apply keeps_ret|].
  apply keeps_bind; [apply Hb|by intros _].
Qed.

Lemma keeps_for_fold {A S} I (l : list A) (acc : S) (body : S → A → M S) :
  (∀ acc x, keeps I (body acc x)) → keeps I (for_fold l acc body).
Proof.
  intros Hb. revert acc. induction l as [|x l IH]; intros acc; cbn [for_fold];
    [apply keeps_ret|].
  apply keeps_bind; [apply Hb|done].
Qed.

Lemma keeps_after {A} I (m : M A) d : keeps I m → I d → I (after m d).
Proof. intros Hm Hd. unfold after, run_handler. cbn. by apply (Hm (0, d)). Qed.

Lemma keeps_check_uniqueness I table_id column_id col_name value row_id :
  keeps I (_check_uniqueness table_id column_id col_name value row_id).
Proof.
  intros s Hs.
  destruct (check_uniqueness_read_only table_id column_id col_name value row_id s)
    as (r & ->). done.
Qed.

Lemma keeps_check_fk_exists I to_table_id value col_name :
  keeps I (_check_fk_exists to_table_id value col_name).
Proof.
  intros s Hs.
  destruct (check_fk_exists_read_only to_table_id value col_name s) as (r & ->). done.
Qed.

Lemma keeps_update_row_validate I table_id row_id colMap fkMap cells :
  keeps I (update_row_validate table_id row_id colMap fkMap cells).
Proof.
  intros s Hs.
  destruct (update_row_validate_read_only table_id row_id colMap fkMap cells s)
    as (r & ->). done.
Qed.

Lemma keeps_create_row_validate I table_id row_id colMap fkMap cells :
  keeps I (create_row_validate table_id row_id colMap fkMap cells).
Proof.
  intros s Hs. rewrite create_row_validate_eq.
  by apply keeps_update_row_validate.
Qed.


Lemma wf_with_tables d l : wf d → wf (with_tables d l).
Proof. intros []. by constructor. Qed.







(** One step of a proof that a handler keeps a property: the property is
    kept by each part of the computation. *)
Ltac keeps_step :=
  lazymatch goal with
  | |- keeps _ (ret _) => apply keeps_ret
  | |- keeps _ (throw _) => apply keeps_throw
  | |- keeps _ (select _) => apply keeps_select
  | |- keeps _ (_check_uniqueness _ _ _ _ _) => apply keeps_check_uniqueness
  | |- keeps _ (_check_fk_exists _ _ _) => apply keeps_check_fk_exists
  | |- keeps _ (update_row_validate _ _ _ _ _) => apply keeps_update_row_validate
  | |- keeps _ (create_row_validate _ _ _ _ _) => apply keeps_create_row_validate
  | |- keeps _ (bind _ _) => apply keeps_bind; [|intros ?]
  | |- keeps _ (try_catch _ _) => apply keeps_try_catch; [|intros ?]
  | |- keeps _ (for_each _ _) => apply keeps_for_each; intros ?
  | |- keeps _ (for_fold _ _ _) => apply keeps_for_fold; intros ? ?
  | |- keeps _ (if ?b then _ else _) => destruct b
  | |- keeps _ (match ?x with _ => _ end) => destruct x
  | |- keeps _ (let '(_, _) := ?x in _) => destruct x
  end.

Lemma keeps_sql_tables env (sql : nat → DB → Res (unit * DB)) :
  (∀ now d a d', sql now d = Ok (a, d') → ∃ l, d' = with_tables d l) →
  keeps wf (statement env sql).
Proof.
  intros Hsql. apply keeps_statement. intros now db res db' Hwf E.
  destruct (Hsql _ _ _ _ E) as (l & ->). by apply wf_with_tables.
Qed.






















(** ** The orders of the queries *)

#[global] Instance table_le_total : Total table_le.
Proof. intros x y. unfold table_le. lia. Qed.

#[global] Instance table_le_trans : Transitive table_le.
Proof. intros x y z. unfold table_le. lia. Qed.

#[global] Instance column_le_total : Total column_le.
Proof. intros x y. unfold column_le. lia. Qed.

#[global] Instance column_le_trans : Transitive column_le.
Proof. intros x y z. unfold column_le. lia. Qed.

#[global] Instance history_le_total : Total history_le.
Proof. intros x y. unfold history_le. lia. Qed.

#[global] Instance history_le_trans : Transitive history_le.
Proof. intros x y z. unfold history_le. lia. Qed.

#[global] Instance ranked_le_total : Total ranked_le.
Proof. intros x y. unfold ranked_le. lia. Qed.

#[global] Instance ranked_le_trans : Transitive ranked_le.
Proof. intros x y z. unfold ranked_le. lia. Qed.

#[global] Instance fk_row_le_total : Total fk_row_le.
Proof. intros x y. unfold fk_row_le. lia. Qed.

#[global] Instance fk_row_le_trans : Transitive fk_row_le.
Proof. intros x y z. unfold fk_row_le. lia. Qed.

Lemma ascii_compare_lt_trans a b c :
  Ascii.compare a b = Lt → Ascii.compare b c = Lt → Ascii.compare a c = Lt.
Proof.
  unfold Ascii.compare. rewrite !N.compare_lt_iff. lia.
Qed.

Lemma string_compare_lt_trans s1 s2 s3 :
  String.compare s1 s2 = Lt → String.compare s2 s3 = Lt → String.compare s1 s3 = Lt.
Proof.
  revert s2 s3. induction s1 as [|a s1 IH]; intros [|b s2] [|c s3]; cbn; try done.
  destruct (Ascii.compare a b) eqn:Eab; [|intros _|done].
  - apply Ascii.compare_eq_iff in Eab as ->.
    destruct (Ascii.compare b c); [apply IH|done|done].
  - destruct (Ascii.compare b c) eqn:Ebc; [|intros _|done].
    + apply Ascii.compare_eq_iff in Ebc as <-. by rewrite Eab.
    + by rewrite (ascii_compare_lt_trans a b c).
Qed.

#[global] Instance row_id_le_total : Total row_id_le.
Proof.
  intros x y. unfold row_id_le.
  destruct (String.leb_total x y) as [->| ->]; [by left|by right].
Qed.

#[global] Instance row_id_le_trans : Transitive row_id_le.
Proof.
  intros x y z. unfold row_id_le, String.leb.
  destruct (String.compare x y) eqn:Exy; [|intros _|done].
  - by apply String.compare_eq_iff in Exy as ->.
  - destruct (String.compare y z) eqn:Eyz; [|intros _|done].
    + apply String.compare_eq_iff in Eyz as <-. by rewrite Exy.
    + by rewrite (string_compare_lt_trans x y z).
Qed.

#[global] Instance row_id_le_antisym : AntiSymm (=) row_id_le.
Proof.
  intros x y Hxy Hyx. apply String.leb_antisym; by apply Is_true_true.
Qed.

(** ** What a request can change *)

Section Writes.

Variable I : DB → Prop.
Hypothesis write_keeps : ∀ d d', Write d d' → I d → I d'.

(** Closes a goal on a statement by the constructor of [Write] for it. *)
Ltac keeps_write :=
  apply keeps_statement;
  let E := fresh "E" in
  intros ? ? ? ? ? E;
  eapply write_keeps; [|eassumption];
  first
    [ eapply write_insert_table; exact E
    | eapply write_insert_column; exact E
    | eapply write_insert_fk; exact E
    | match type of E with _ = Ok (?a, _) => destruct a end;
      first
        [ eapply write_rename_table; exact E
        | eapply write_delete_fks_of_table; exact E
        | eapply write_delete_columns_of_table; exact E
        | eapply write_delete_table; exact E
        | eapply write_rename_column; exact E
        | eapply write_set_unique; exact E
        | eapply write_delete_fks_of_column; exact E
        | eapply write_delete_column; exact E
        | eapply write_delete_fk; exact E
        | eapply write_insert_event; [|exact E]; unfold event_shape; eauto ] ].

Lemma keeps_writes_schema env q :
  match q with
  | CreateRow _ _ | UpdateRow _ _ _ | DeleteRow _ _ => True
  | _ => ∀ d, I d → I (handle env q d)
  end.
Proof.
  destruct q; try done; intros d Hd; cbn [handle]; apply keeps_after; try done.
  - unfold create_table. cbv zeta. repeat keeps_step. keeps_write.
  - unfold rename_table. cbv zeta. repeat keeps_step. keeps_write.
  - unfold delete_table. repeat keeps_step; keeps_write.
  - unfold create_column. cbv zeta. repeat keeps_step. keeps_write.
  - unfold rename_column. cbv zeta. repeat keeps_step. keeps_write.
  - unfold set_column_unique. repeat keeps_step; keeps_write.
  - unfold delete_column. repeat keeps_step; keeps_write.
  - unfold create_foreign_key. repeat keeps_step. keeps_write.
  - unfold delete_foreign_key. repeat keeps_step. keeps_write.
Qed.

Lemma keeps_writes_rows env q :
  match q with
  | CreateRow _ _ | UpdateRow _ _ _ | DeleteRow _ _ => ∀ d, I d → I (handle env q d)
  | _ => True
  end.
Proof.
  destruct q; try done; intros d Hd; cbn [handle]; apply keeps_after; try done.
  - unfold create_row. cbv zeta. repeat keeps_step; [keeps_write|].
    unfold create_row_write. apply keeps_for_each. intros [colName value].
    repeat keeps_step. keeps_write.
  - unfold update_row. repeat keeps_step.
    unfold update_row_write. apply keeps_for_fold. intros inserted [colName value].
    repeat keeps_step. keeps_write.
  - unfold delete_row. repeat keeps_step. keeps_write.
Qed.

(** A property that every applied write statement keeps is kept by every
    request, whether the handler returns or throws. *)
Lemma handle_writes env q d : I d → I (handle env q d).
Proof.
  pose proof (keeps_writes_schema env q) as H1.
  pose proof (keeps_writes_rows env q) as H2.
  destruct q; first [apply H1|apply H2].
Qed.

End Writes.

(** ** Nothing is removed or rewritten *)

#[global] Instance table_kept_refl : Reflexive table_kept.
Proof. by intros t. Qed.

#[global] Instance column_kept_refl : Reflexive column_kept.
Proof. by intros c. Qed.

#[global] Instance fk_kept_refl : Reflexive fk_kept.
Proof. by intros fk. Qed.

#[global] Instance table_kept_trans : Transitive table_kept.
Proof.
  intros t1 t2 t3 (Hid & Hts & H12) (Hid' & Hts' & H23).
  split; [congruence|]. split; [congruence|].
  intros Hdead. rewrite <- (H12 Hdead). apply H23. by rewrite (H12 Hdead).
Qed.

#[global] Instance column_kept_trans : Transitive column_kept.
Proof.
  intros c1 c2 c3 (? & ? & ? & ? & H12) (? & ? & ? & ? & H23).
  repeat (split; [congruence|]).
  intros Hdead. rewrite <- (H12 Hdead). apply H23. by rewrite (H12 Hdead).
Qed.

#[global] Instance fk_kept_trans : Transitive fk_kept.
Proof.
  intros f1 f2 f3 (? & ? & ? & ? & H12) (? & ? & ? & ? & H23).
  repeat (split; [congruence|]).
  intros Hdead. rewrite <- (H12 Hdead). apply H23. by rewrite (H12 Hdead).
Qed.

Lemma extends_refl {A} (R : A → A → Prop) `{!Reflexive R} l : extends R l l.
Proof. exists l, []. split; [by rewrite app_nil_r|]. by apply Forall_Forall2_diag, Forall_true. Qed.

Lemma extends_trans {A} (R : A → A → Prop) `{!Transitive R} l1 l2 l3 :
  extends R l1 l2 → extends R l2 l3 → extends R l1 l3.
Proof.
  intros (k & new & -> & H12) (k' & new' & -> & H23).
  apply Forall2_app_inv_l in H23 as (k1 & k2 & Hk1 & Hk2 & ->).
  exists k1, (k2 ++ new')%list. split; [by rewrite <- app_assoc|].
  by etrans.
Qed.

Lemma extends_snoc {A} (R : A → A → Prop) `{!Reflexive R} l x :
  extends R l (l ++ [x]).
Proof. exists l, [x]. split; [done|]. by apply Forall_Forall2_diag, Forall_true. Qed.

Lemma extends_fmap {A} (R : A → A → Prop) (f : A → A) l :
  (∀ x, R x (f x)) → extends R l (f <$> l).
Proof.
  intros Hf. exists (f <$> l), []. split; [by rewrite app_nil_r|].
  apply Forall2_fmap_r, Forall_Forall2_diag, Forall_forall. auto.
Qed.

Lemma evolves_refl d : evolves d d.
Proof. split; [done|]. split; [|split]; by apply extends_refl. Qed.

Lemma evolves_trans d1 d2 d3 : evolves d1 d2 → evolves d2 d3 → evolves d1 d3.
Proof.
  intros (H1 & H2 & H3 & H4) (H1' & H2' & H3' & H4').
  split; [by etrans|]. split; [exact (extends_trans _ _ _ _ H2 H2')|].
  split; [exact (extends_trans _ _ _ _ H3 H3')|exact (extends_trans _ _ _ _ H4 H4')].
Qed.

Lemma evolves_tables d l :
  extends table_kept (tables d) l → evolves d (with_tables d l).
Proof. intros H. split; [done|]. split; [done|]. split; by apply extends_refl. Qed.

Lemma evolves_columns d l :
  extends column_kept (columns d) l → evolves d (with_columns d l).
Proof.
  intros H. split; [done|]. split; [by apply extends_refl|].
  split; [done|by apply extends_refl].
Qed.

Lemma evolves_fks d l :
  extends fk_kept (foreign_keys d) l → evolves d (with_foreign_keys d l).
Proof.
  intros H. split; [done|]. split; [by apply extends_refl|].
  split; [by apply extends_refl|done].
Qed.

Lemma evolves_events d new :
  evolves d (with_cell_history d (cell_history d ++ new)).
Proof.
  split; [by apply prefix_app_r|]. split; [|split]; by apply extends_refl.
Qed.

Lemma write_evolves d d' : Write d d' → evolves d d'.
Proof.
  destruct 1 as [name now d id d' E|name id now d d' E|table_id now d d' E
    |table_id now d d' E|id now d d' E
    |table_id name display_order is_unique now d id d' E|name id now d d' E
    |is_unique id now d d' E|column_id now d d' E|id now d d' E
    |table_id row_id column_id sentinel value now d d' _ E
    |from_column_id to_table_id now d id d' E|id now d d' E].
  - unfold sql_insert_table in E. destruct (decide _); [done|].
    injection E as _ <-. apply evolves_tables, extends_snoc, _.
  - unfold sql_rename_table in E. destruct (decide _); [done|].
    injection E as <-. apply evolves_tables, extends_fmap. intros t.
    destruct (decide _) as [[_ Hlive]|]; [|done]. by repeat split.
  - injection E as <-. apply evolves_fks, extends_fmap. intros fk.
    destruct (decide _) as [[Hlive _]|]; [|done]. by repeat split.
  - injection E as <-. apply evolves_columns, extends_fmap. intros c.
    destruct (decide _) as [[_ Hlive]|]; [|done]. by repeat split.
  - injection E as <-. apply evolves_tables, extends_fmap. intros t.
    destruct (decide _) as [[_ Hlive]|]; [|done]. by repeat split.
  - unfold sql_insert_column in E. destruct (decide _); [done|].
    injection E as _ <-. apply evolves_columns, extends_snoc, _.
  - unfold sql_rename_column in E. destruct (decide _); [done|].
    injection E as <-. apply evolves_columns, extends_fmap. intros c.
    destruct (decide _) as [[_ Hlive]|]; [|done]. by repeat split.
  - injection E as <-. apply evolves_columns, extends_fmap. intros c.
    destruct (decide _) as [[_ Hlive]|]; [|done]. by repeat split.
  - injection E as <-. apply evolves_fks, extends_fmap. intros fk.
    destruct (decide _) as [[_ Hlive]|]; [|done]. by repeat split.
  - injection E as <-. apply evolves_columns, extends_fmap. intros c.
    destruct (decide _) as [[_ Hlive]|]; [|done]. by repeat split.
  - injection E as <-. apply evolves_events.
  - injection E as _ <-. apply evolves_fks, extends_snoc, _.
  - injection E as <-. apply evolves_fks, extends_fmap. intros fk.
    destruct (decide _) as [[_ Hlive]|]; [|done]. by repeat split.
Qed.

Lemma handle_evolves env q d : evolves d (handle env q d).
Proof.
  apply (handle_writes (evolves d)); [|apply evolves_refl].
  intros d1 d2 Hw Hd1. eapply evolves_trans; [done|by apply write_evolves].
Qed.

(** X1. The event log is append-only: whatever the request and whether
    it succeeds or fails, the log afterwards starts with the log before;
    no event is removed, reordered or rewritten. *)
Theorem log_is_append_only env q d :
  cell_history d `prefix_of` cell_history (handle env q d).
Proof. by destruct (handle_evolves env q d) as [? _]. Qed.

(** X2. Deletion is soft and final: whatever the request, every table,
    column and foreign key recorded before is still recorded afterwards, at
    the same position, with its key, its creation time (and, for a
    column, its table and display order; for a foreign key, its two ends)
    unchanged; a record that was tombstoned is unchanged altogether. New
    records come after the old ones. *)
Theorem records_are_kept env q d :
  extends table_kept (tables d) (tables (handle env q d))
  ∧ extends column_kept (columns d) (columns (handle env q d))
  ∧ extends fk_kept (foreign_keys d) (foreign_keys (handle env q d)).
Proof. by destruct (handle_evolves env q d) as [_ ?]. Qed.

(** ** The shape of the log in reachable states *)

Lemma event_ids_increase_snoc d e :
  ch_id e = next_id (ch_id <$> cell_history d) →
  event_ids_increase d →
  event_ids_increase (with_cell_history d (cell_history d ++ [e])).
Proof.
  unfold event_ids_increase. cbn. intros He Hs.
  rewrite fmap_app, app_comm_cons. apply StronglySorted_app. split; [|split; [done|]].
  - intros x1 x2 Hx1 ->%list_elem_of_singleton. cbn. rewrite He. unfold next_id.
    apply elem_of_cons in Hx1 as [->|Hx1]; [lia|].
    apply max_list_elem_of_le in Hx1. lia.
  - repeat constructor.
Qed.

Lemma write_ids_increase d d' : Write d d' → event_ids_increase d → event_ids_increase d'.
Proof.
  destruct 1 as [name now d id d' E|name id now d d' E|table_id now d d' E
    |table_id now d d' E|id now d d' E
    |table_id name display_order is_unique now d id d' E|name id now d d' E
    |is_unique id now d d' E|column_id now d d' E|id now d d' E
    |table_id row_id column_id sentinel value now d d' _ E
    |from_column_id to_table_id now d id d' E|id now d d' E];
    try (injection E as <-; done); try (injection E as _ <-; done).
  - unfold sql_insert_table in E. destruct (decide _); [done|]. by injection E as _ <-.
  - unfold sql_rename_table in E. destruct (decide _); [done|]. by injection E as <-.
  - unfold sql_insert_column in E. destruct (decide _); [done|]. by injection E as _ <-.
  - unfold sql_rename_column in E. destruct (decide _); [done|]. by injection E as <-.
  - injection E as <-. by apply event_ids_increase_snoc.
Qed.

Lemma write_shaped d d' : Write d d' → events_shaped d → events_shaped d'.
Proof.
  destruct 1 as [name now d id d' E|name id now d d' E|table_id now d d' E
    |table_id now d d' E|id now d d' E
    |table_id name display_order is_unique now d id d' E|name id now d d' E
    |is_unique id now d d' E|column_id now d d' E|id now d d' E
    |table_id row_id column_id sentinel value now d d' Hshape E
    |from_column_id to_table_id now d id d' E|id now d d' E];
    try (injection E as <-; done); try (injection E as _ <-; done).
  - unfold sql_insert_table in E. destruct (decide _); [done|]. by injection E as _ <-.
  - unfold sql_rename_table in E. destruct (decide _); [done|]. by injection E as <-.
  - unfold sql_insert_column in E. destruct (decide _); [done|]. by injection E as _ <-.
  - unfold sql_rename_column in E. destruct (decide _); [done|]. by injection E as <-.
  - injection E as <-. intros Hs. apply Forall_app. split; [done|].
    by apply Forall_singleton.
Qed.

Lemma reachable_log d : reachable d → event_ids_increase d ∧ events_shaped d.
Proof.
  induction 1 as [|env q d _ [IH1 IH2]].
  - split; [repeat constructor|by apply Forall_nil].
  - split.
    + by apply (handle_writes _ write_ids_increase).
    + by apply (handle_writes _ write_shaped).
Qed.


Lemma handle_all_reachable qs d : reachable d → reachable (handle_all qs d).
Proof.
  revert d. induction qs as [|[env q] qs IH]; intros d Hd; cbn; [done|].
  by apply IH, reachable_handle.
Qed.

Lemma handle_all_evolves qs d : evolves d (handle_all qs d).
Proof.
  revert d. induction qs as [|[env q] qs IH]; intros d; cbn; [apply evolves_refl|].
  eapply evolves_trans; [apply handle_evolves|apply IH].
Qed.

Lemma max_marking_prefix v d d' t r :
  cell_history d `prefix_of` cell_history d' →
  (max_marking v d t r ≤ max_marking v d' t r)%nat.
Proof.
  intros [k Hk]. unfold max_marking. rewrite Hk, filter_app, fmap_app, max_list_app. lia.
Qed.

Lemma no_restored_marking d t r : events_shaped d → max_marking "0" d t r = 0.
Proof.
  intros Hs. unfold max_marking.
  rewrite filter_nil_elem; [done|].
  intros e He (_ & _ & Hsent & Hval).
  unfold events_shaped in Hs. rewrite Forall_forall in Hs.
  destruct (Hs e He) as [(_ & Hn & _)|[(_ & Hn)|(_ & _ & Hv)]];
    unfold NEW, DELETED in *; congruence.
Qed.

(** X3. No request restores a row: in a state the worker can reach, a row
    that is net-deleted stays net-deleted after any sequence of requests,
    and [get_rows] never returns it again. *)
Theorem deleted_rows_stay_deleted qs d table_id r :
  reachable d → net_deleted d table_id r →
  net_deleted (handle_all qs d) table_id r ∧ ¬ appears (handle_all qs d) table_id r.
Proof.
  intros Hd Hdel.
  assert (Hdel' : net_deleted (handle_all qs d) table_id r).
  { unfold net_deleted in *.
    destruct (reachable_log _ (handle_all_reachable qs d Hd)) as [_ Hs].
    rewrite (no_restored_marking _ _ _ Hs).
    destruct (handle_all_evolves qs d) as [Hp _].
    pose proof (max_marking_prefix "1" d _ table_id r Hp). lia. }
  split; [done|]. rewrite appears_iff. tauto.
Qed.

Lemma deleted_rows_stay_deleted_witness :
  net_deleted (handle_all [ (env1, UpdateRow 1 "row-1" [("Title", Some "Buy eggs")]) ]
                          deleted_db) 1 "row-1"
  ∧ ¬ appears (handle_all [ (env1, UpdateRow 1 "row-1" [("Title", Some "Buy eggs")]) ]
                          deleted_db) 1 "row-1".
Proof.
  apply deleted_rows_stay_deleted.
  - unfold deleted_db. cbn [handle_all]. repeat apply reachable_handle.
    apply reachable_fresh.
  - unfold net_deleted. vm_compute. lia.
Defined.

(** ** Requests that fail *)

Lemma read_only_ret {A} (a : A) : read_only (ret a).
Proof. by intros s. Qed.

Lemma read_only_throw {A} e : read_only (@throw A e).
Proof. by intros s. Qed.

Lemma read_only_select {A} (q : DB → A) : read_only (select q).
Proof. by intros s. Qed.

Lemma read_only_validate table_id row_id colMap fkMap cells :
  read_only (update_row_validate table_id row_id colMap fkMap cells).
Proof.
  intros s.
  by destruct (update_row_validate_read_only table_id row_id colMap fkMap cells s)
    as (r & ->).
Qed.

Lemma never_throws_ret {A} (a : A) : never_throws (ret a).
Proof. intros s. by eexists _, _. Qed.

Lemma never_throws_bind {A B} (m : M A) (k : A → M B) :
  never_throws m → (∀ a, never_throws (k a)) → never_throws (bind m k).
Proof.
  intros Hm Hk s. destruct (Hm s) as (a & s' & E). unfold bind. rewrite E. apply Hk.
Qed.

Lemma never_throws_statement {A} env (sql : nat → DB → Res (A * DB)) :
  healthy env → (∀ now d, ∃ a d', sql now d = Ok (a, d')) →
  never_throws (statement env sql).
Proof.
  intros Hh Hsql [n d]. rewrite statement_healthy by done.
  destruct (Hsql (clock env n) d) as (a & d' & ->). by eexists _, _.
Qed.

Lemma never_throws_for_each {A} (l : list A) (body : A → M unit) :
  (∀ x, never_throws (body x)) → never_throws (for_each l body).
Proof.
  intros Hb. induction l as [|x l IH]; cbn [for_each]; [apply never_throws_ret|].
  apply never_throws_bind; [apply Hb|done].
Qed.

Lemma fails_clean_never {A} (m : M A) : never_throws m → fails_clean m.
Proof. intros Hm s e s' E. destruct (Hm s) as (a & s1 & E1). congruence. Qed.

Lemma fails_clean_read_only {A} (m : M A) : read_only m → fails_clean m.
Proof. intros Hm s e s' E. specialize (Hm s). rewrite E in Hm. cbn in Hm. by subst. Qed.

Lemma fails_clean_statement {A} env (sql : nat → DB → Res (A * DB)) :
  fails_clean (statement env sql).
Proof.
  intros [n d] e s'. unfold statement. cbn [fst snd].
  destruct (storage env n); [by intros [= _ <-]|].
  destruct (sql (clock env n) d) as [[a d']|e']; [done|by intros [= _ <-]].
Qed.

(** Reads, then a computation that fails clean. *)
Lemma fails_clean_after_read {A B} (m : M A) (k : A → M B) :
  read_only m → (∀ a, fails_clean (k a)) → fails_clean (bind m k).
Proof.
  intros Hm Hk s e s'. unfold bind. specialize (Hm s).
  destruct (m s) as [[a|e1] s1]; cbn in Hm; subst s1.
  - apply Hk.
  - by intros [= _ <-].
Qed.

(** A computation that fails clean, then one that always returns. *)
Lemma fails_clean_before_return {A B} (m : M A) (k : A → M B) :
  fails_clean m → (∀ a, never_throws (k a)) → fails_clean (bind m k).
Proof.
  intros Hm Hk s e s'. unfold bind.
  destruct (m s) as [[a|e1] s1] eqn:E.
  - intros E'. destruct (Hk a s1) as (b & s2 & E2). congruence.
  - intros [= _ <-]. by eapply Hm.
Qed.

Lemma fails_clean_try_catch {A} (m : M A) (h : string → M A) :
  fails_clean m → (∀ e, read_only (h e)) → fails_clean (try_catch m h).
Proof.
  intros Hm Hh s e s'. unfold try_catch.
  destruct (m s) as [[a|e1] s1] eqn:E; [done|].
  intros E'. specialize (Hh e1 s1). rewrite E' in Hh. cbn in Hh. subst s'.
  by eapply Hm.
Qed.

Lemma read_only_bind {A B} (m : M A) (k : A → M B) :
  read_only m → (∀ a, read_only (k a)) → read_only (bind m k).
Proof.
  intros Hm Hk s. unfold bind. specialize (Hm s).
  destruct (m s) as [[a|e] s1]; cbn in Hm; subst s1; [apply Hk|done].
Qed.

Lemma read_only_for_each {A} (l : list A) (body : A → M unit) :
  (∀ x, read_only (body x)) → read_only (for_each l body).
Proof.
  intros Hb. induction l as [|x l IH]; cbn [for_each]; [apply read_only_ret|].
  apply read_only_bind; [apply Hb|done].
Qed.

Ltac read_only_step :=
  lazymatch goal with
  | |- read_only (ret _) => apply read_only_ret
  | |- read_only (throw _) => apply read_only_throw
  | |- read_only (select _) => apply read_only_select
  | |- read_only (update_row_validate _ _ _ _ _) => apply read_only_validate
  | |- read_only (bind _ _) => apply read_only_bind; [|intros ?]
  | |- read_only (for_each _ _) => apply read_only_for_each; intros ?
  | |- read_only (if ?b then _ else _) => destruct b
  | |- read_only (match ?x with _ => _ end) => destruct x
  end.

Section Failures.

Variable env : Env.
Hypothesis env_healthy : healthy env.

Ltac sql_returns :=
  apply never_throws_statement; [exact env_healthy|]; intros; by eexists _, _.

Ltac clean_step :=
  lazymatch goal with
  | |- fails_clean (ret _) => apply fails_clean_read_only, read_only_ret
  | |- fails_clean (throw _) => apply fails_clean_read_only, read_only_throw
  | |- fails_clean (bind (select _) _) =>
      apply fails_clean_after_read; [apply read_only_select|intros ?]
  | |- fails_clean (bind (statement _ _) (λ _, ret _)) =>
      apply fails_clean_before_return;
      [apply fails_clean_statement|intros ?; apply never_throws_ret]
  | |- fails_clean (if ?b then _ else _) => destruct b
  | |- fails_clean (match ?x with _ => _ end) => destruct x
  end.

Lemma fails_clean_create_table name : fails_clean (create_table env name).
Proof. unfold create_table. cbv zeta. repeat clean_step. Qed.

Lemma fails_clean_rename_table id name : fails_clean (rename_table env id name).
Proof. unfold rename_table. cbv zeta. repeat clean_step. Qed.

Lemma fails_clean_delete_table id : fails_clean (delete_table env id).
Proof.
  unfold delete_table. repeat clean_step. apply fails_clean_never.
  repeat (apply never_throws_bind; [sql_returns|intros ?]). apply never_throws_ret.
Qed.

Lemma fails_clean_create_column table_id name is_unique :
  fails_clean (create_column env table_id name is_unique).
Proof.
  unfold create_column. cbv zeta. repeat clean_step.
  apply fails_clean_before_return; [|intros ?; apply never_throws_ret].
  apply fails_clean_try_catch; [apply fails_clean_statement|].
  intros e. destruct (Js.includes e "UNIQUE"); apply read_only_throw.
Qed.

Lemma fails_clean_rename_column id name : fails_clean (rename_column env id name).
Proof. unfold rename_column. cbv zeta. repeat clean_step. Qed.

Lemma fails_clean_set_column_unique id is_unique :
  fails_clean (set_column_unique env id is_unique).
Proof.
  unfold set_column_unique. repeat clean_step.
  apply fails_clean_after_read; [repeat read_only_step|intros ?].
  repeat clean_step.
Qed.

Lemma fails_clean_delete_column id : fails_clean (delete_column env id).
Proof.
  unfold delete_column. apply fails_clean_never.
  repeat (apply never_throws_bind; [sql_returns|intros ?]). apply never_throws_ret.
Qed.

Lemma fails_clean_delete_foreign_key id : fails_clean (delete_foreign_key env id).
Proof. unfold delete_foreign_key. repeat clean_step. Qed.

Lemma fails_clean_create_foreign_key from_column_id to_table_id :
  fails_clean (create_foreign_key env from_column_id to_table_id).
Proof. unfold create_foreign_key. repeat clean_step. Qed.

Lemma fails_clean_delete_row table_id row_id :
  fails_clean (delete_row env table_id row_id).
Proof.
  unfold delete_row. repeat clean_step.
  apply fails_clean_after_read; [repeat read_only_step|intros ?].
  repeat clean_step.
Qed.

Lemma fails_clean_create_row table_id cells :
  fails_clean (create_row env table_id cells).
Proof.
  unfold create_row. cbv zeta. repeat clean_step.
  apply fails_clean_after_read.
  { intros s. rewrite create_row_validate_eq. apply read_only_validate. }
  intros _. apply fails_clean_never.
  apply never_throws_bind; [sql_returns|intros _].
  apply never_throws_bind; [|intros ?; apply never_throws_ret].
  unfold create_row_write. apply never_throws_for_each. intros [colName value].
  destruct (_ !! colName); [|apply never_throws_ret].
  destruct (Js.truthy value); [sql_returns|apply never_throws_ret].
Qed.

Lemma fails_clean_update_row table_id row_id cells :
  fails_clean (update_row env table_id row_id cells).
Proof.
  unfold update_row. repeat clean_step.
  apply fails_clean_after_read; [apply read_only_validate|intros _].
  intros [n d] e s'. unfold bind.
  destruct (update_row_write_spec env table_id row_id a cells n d env_healthy)
    as (new & d' & -> & Happ & _).
  destruct new as [|x new]; cbn; [|done].
  intros [= _ <-]. cbn. by apply appended_nil_eq in Happ.
Qed.

End Failures.

Lemma fails_clean_run {A} (m : M A) d message :
  fails_clean m → error_of (run_handler m d) = Some message → after m d = d.
Proof.
  intros Hm. unfold error_of, after, run_handler. cbn.
  destruct (m (0, d)) as [[a|e] s'] eqn:E; [done|]. intros _. cbn.
  by apply (Hm _ _ _ E).
Qed.

(** X4. With a storage layer that accepts every write, a request that is
    answered with an error has written nothing: the database is the one
    before the request. *)
Theorem failed_request_writes_nothing env q d message :
  healthy env → response_error env q d = Some message → handle env q d = d.
Proof.
  intros Hh. destruct q; cbn [response_error handle]; apply fails_clean_run.
  - by apply fails_clean_create_table.
  - by apply fails_clean_rename_table.
  - by apply fails_clean_delete_table.
  - by apply fails_clean_create_column.
  - by apply fails_clean_rename_column.
  - by apply fails_clean_set_column_unique.
  - by apply fails_clean_delete_column.
  - by apply fails_clean_create_row.
  - by apply fails_clean_update_row.
  - by apply fails_clean_delete_row.
  - by apply fails_clean_create_foreign_key.
  - by apply fails_clean_delete_foreign_key.
Qed.

Lemma failed_request_writes_nothing_witness :
  handle env1 (CreateRow 1 [("Title", Some "Buy milk")]) tasks_db = tasks_db.
Proof.
  apply (failed_request_writes_nothing env1 _ tasks_db
           ("Value " ++ Js.dq ++ "Buy milk" ++ Js.dq ++ " already exists in column "
            ++ Js.dq ++ "Title" ++ Js.dq ++ " (unique constraint)")).
  - intros n. reflexivity.
  - vm_compute. reflexivity.
Defined.

(** ** The lists of tables, columns and foreign keys *)

Lemma get_tables_elem d row :
  row ∈ get_tables d ↔
  ∃ t, t ∈ tables d ∧ live_table t
       ∧ row = {| tr_id := t_id t; tr_name := t_name t; tr_created_at := t_created_at t |}.
Proof.
  unfold get_tables. rewrite list_elem_of_fmap. split.
  - intros (t & -> & Ht). rewrite merge_sort_Permutation in Ht.
    apply list_elem_of_filter in Ht as [Hlive Ht]. by exists t.
  - intros (t & Ht & Hlive & ->). exists t. split; [done|].
    rewrite merge_sort_Permutation. by apply list_elem_of_filter.
Qed.

Lemma get_columns_elem d table_id row :
  row ∈ get_columns d table_id ↔
  ∃ c, c ∈ columns d ∧ c_table_id c = table_id ∧ live_column c
       ∧ row = {| cr_id := c_id c; cr_name := c_name c;
                  cr_display_order := c_display_order c;
                  cr_is_unique := c_is_unique c; cr_created_at := c_created_at c |}.
Proof.
  unfold get_columns. rewrite list_elem_of_fmap. split.
  - intros (c & -> & Hc). rewrite merge_sort_Permutation in Hc.
    apply list_elem_of_filter in Hc as [[Ht Hlive] Hc]. by exists c.
  - intros (c & Hc & Ht & Hlive & ->). exists c. split; [done|].
    rewrite merge_sort_Permutation. by apply list_elem_of_filter.
Qed.

Lemma get_foreign_keys_elem d table_id row :
  row ∈ get_foreign_keys d table_id ↔
  ∃ fk c t, fk ∈ foreign_keys d ∧ c ∈ columns d ∧ t ∈ tables d
    ∧ c_id c = fk_from_column_id fk ∧ t_id t = fk_to_table_id fk
    ∧ c_table_id c = table_id ∧ live_fk fk ∧ live_column c ∧ live_table t
    ∧ row = {| fr_id := fk_id fk; fr_from_column_id := fk_from_column_id fk;
               fr_from_column_name := c_name c; fr_to_table_id := fk_to_table_id fk;
               fr_to_table_name := t_name t; fr_created_at := fk_created_at fk |}.
Proof.
  unfold get_foreign_keys. rewrite merge_sort_Permutation. split.
  - intros (fk & Hrow & Hfk)%list_elem_of_bind.
    apply list_elem_of_bind in Hrow as (c & Hrow & [Hcid Hc]%list_elem_of_filter).
    apply list_elem_of_bind in Hrow as (t & Hrow & [Htid Ht]%list_elem_of_filter).
    destruct (decide _) as [(? & ? & ? & ?)|]; [|by apply not_elem_of_nil in Hrow].
    apply list_elem_of_singleton in Hrow. by exists fk, c, t.
  - intros (fk & c & t & Hfk & Hc & Ht & Hcid & Htid & Htab & ? & ? & ? & ->).
    apply list_elem_of_bind. exists fk. split; [|done].
    apply list_elem_of_bind. exists c. split; [|by apply list_elem_of_filter].
    apply list_elem_of_bind. exists t. split; [|by apply list_elem_of_filter].
    rewrite decide_True by done. by apply list_elem_of_singleton.
Qed.

(** ** Creating and renaming a table *)

Lemma next_id_gt ids x : x ∈ ids → (x < next_id ids)%nat.
Proof. intros H%max_list_elem_of_le. unfold next_id. lia. Qed.

(** X5. [create_table] trims the name; an empty name and the name of a
    live table are refused with a message of their own and nothing is
    written; a name no table bears is inserted (storage accepting the
    write) as a live table under a key greater than every key in use, the
    call returns that key with the trimmed name, and [get_tables] lists
    the new table beside the ones it listed before. *)
Theorem create_table_outcome env d name :
  (Js.trim name = "" →
     run_handler (create_table env name) d = (Throw "Table name cannot be empty", d)) ∧
  (Js.trim name ≠ "" →
   (∃ t, t ∈ tables d ∧ t_name t = Js.trim name ∧ live_table t) →
     run_handler (create_table env name) d
     = (Throw ("Table " ++ Js.dq ++ Js.trim name ++ Js.dq ++ " already exists"), d)) ∧
  (Js.trim name ≠ "" → (∀ t, t ∈ tables d → t_name t ≠ Js.trim name) → healthy env →
     ∃ id d',
       run_handler (create_table env name) d = (Ok (id, Js.trim name), d')
       ∧ d' = with_tables d (tables d ++
                [ {| t_id := id; t_name := Js.trim name; t_created_at := clock env 0;
                     t_deleted_at := None |} ])
       ∧ (∀ t, t ∈ tables d → (t_id t < id)%nat)
       ∧ {| tr_id := id; tr_name := Js.trim name; tr_created_at := clock env 0 |}
         ∈ get_tables d'
       ∧ ∀ row, row ∈ get_tables d → row ∈ get_tables d').
Proof.
  unfold create_table. cbv zeta. split; [|split].
  - intros ->. done.
  - intros Hne (t & Ht & Hn & Hlive). rewrite decide_False by done.
    unfold run_handler, bind, select. cbn [snd].
    rewrite decide_True; [done|]. apply filter_nil_length. by exists t.
  - intros Hne Hfree Hh. rewrite decide_False by done.
    unfold run_handler, bind, select. cbn [snd].
    rewrite filter_nil_elem by (intros t Ht [Hn _]; by apply (Hfree t)).
    cbn [length]. rewrite decide_False by lia.
    rewrite statement_healthy by done. unfold sql_insert_table.
    rewrite decide_False.
    2:{ intros (t & Hn & Ht)%list_elem_of_fmap. by apply (Hfree t). }
    eexists _, _. split; [reflexivity|]. split; [reflexivity|]. split; [|split].
    + intros t Ht. apply next_id_gt. by apply list_elem_of_fmap_2.
    + apply get_tables_elem.
      exists {| t_id := next_id (t_id <$> tables d); t_name := Js.trim name;
                t_created_at := clock env 0; t_deleted_at := None |}.
      split; [|done]. cbn. apply elem_of_app. right. left.
    + intros row (t & Ht & Hlive & ->)%get_tables_elem. apply get_tables_elem.
      exists t. split; [|done]. cbn. apply elem_of_app. by left.
Qed.

Lemma create_table_outcome_witness :
  ∃ id d',
    run_handler (create_table env0 "  Tasks ") fresh_db = (Ok (id, "Tasks"), d')
    ∧ d' = with_tables fresh_db
             [ {| t_id := id; t_name := "Tasks"; t_created_at := 100;
                  t_deleted_at := None |} ]
    ∧ (∀ t, t ∈ tables fresh_db → (t_id t < id)%nat)
    ∧ {| tr_id := id; tr_name := "Tasks"; tr_created_at := 100 |} ∈ get_tables d'
    ∧ ∀ row, row ∈ get_tables fresh_db → row ∈ get_tables d'.
Proof.
  apply (proj2 (proj2 (create_table_outcome env0 fresh_db "  Tasks "))).
  - vm_compute. discriminate.
  - intros t Ht. exfalso. cbn [tables fresh_db] in Ht. exact (not_elem_of_nil t Ht).
  - intros n. reflexivity.
Defined.

(** The table with key [id] renamed to [name], when it is live. *)
Lemma sql_rename_table_ok name id now d :
  (∀ t, t ∈ tables d → t_id t ≠ id → t_name t ≠ name) →
  sql_rename_table name id now d
  = Ok (tt, with_tables d (
       (λ t, if decide (t_id t = id ∧ live_table t)
             then {| t_id := t_id t; t_name := name;
                     t_created_at := t_created_at t; t_deleted_at := t_deleted_at t |}
             else t) <$> tables d)).
Proof.
  intros Hfree. unfold sql_rename_table. rewrite decide_False; [done|].
  intros [_ (t & Ht & Hid & Hn)%Exists_exists]. by apply (Hfree t).
Qed.

Lemma fmap_id_on {A} (f : A → A) (l : list A) : (∀ x, x ∈ l → f x = x) → f <$> l = l.
Proof.
  intros Hf. induction l as [|x l IH]; [done|]. cbn. rewrite Hf by left.
  f_equal. apply IH. intros y Hy. apply Hf. by right.
Qed.

(** X6. [rename_table] trims the name and refuses an empty name and the
    name of another live table, writing nothing. Otherwise (storage
    accepting the write) it reports success: when no live table has the
    key, a tombstoned or unknown one included, nothing changes; when a
    live table has it and no other table bears the name, the name of that
    table is replaced and nothing else changes; renaming a table to the
    name it has is accepted. *)
Theorem rename_table_outcome env d id name :
  (Js.trim name = "" →
     run_handler (rename_table env id name) d = (Throw "Table name cannot be empty", d)) ∧
  (Js.trim name ≠ "" →
   (∃ t, t ∈ tables d ∧ t_name t = Js.trim name ∧ t_id t ≠ id ∧ live_table t) →
     run_handler (rename_table env id name) d
     = (Throw ("Table " ++ Js.dq ++ Js.trim name ++ Js.dq ++ " already exists"), d)) ∧
  (Js.trim name ≠ "" → healthy env →
   (∀ t, t ∈ tables d → t_name t = Js.trim name → t_id t ≠ id → ¬ live_table t) →
   (∀ t, t ∈ tables d → t_id t = id → ¬ live_table t) →
     run_handler (rename_table env id name) d = (Ok (id, Js.trim name), d)) ∧
  (Js.trim name ≠ "" → healthy env →
   (∀ t, t ∈ tables d → t_id t ≠ id → t_name t ≠ Js.trim name) →
     ∃ d', run_handler (rename_table env id name) d = (Ok (id, Js.trim name), d')
       ∧ columns d' = columns d ∧ cell_history d' = cell_history d
       ∧ foreign_keys d' = foreign_keys d
       ∧ Forall2 (λ t t', if decide (t_id t = id ∧ live_table t)
                          then t_id t' = id ∧ t_name t' = Js.trim name
                               ∧ t_created_at t' = t_created_at t ∧ live_table t'
                          else t' = t) (tables d) (tables d')).
Proof.
  unfold rename_table. cbv zeta. split; [|split; [|split]].
  - intros ->. done.
  - intros Hne (t & Ht & Hn & Hid & Hlive). rewrite decide_False by done.
    unfold run_handler, bind, select. cbn [snd].
    rewrite decide_True; [done|]. apply filter_nil_length. by exists t.
  - intros Hne Hh Hfree Hdead. rewrite decide_False by done.
    unfold run_handler, bind, select. cbn [snd].
    rewrite filter_nil_elem by (intros t Ht (Hn & Hid & Hlive); by apply (Hfree t)).
    cbn [length]. rewrite decide_False by lia.
    rewrite statement_healthy by done. unfold sql_rename_table.
    rewrite decide_False.
    2:{ intros [(t & Ht & Hid & Hlive)%Exists_exists _]. by apply (Hdead t). }
    cbn. do 2 f_equal. destruct d as [ts cs evs fks]. unfold with_tables. cbn in *.
    f_equal. apply fmap_id_on. intros t Ht.
    rewrite decide_False; [done|]. intros [Hid Hlive]. by apply (Hdead t).
  - intros Hne Hh Hfree. rewrite decide_False by done.
    unfold run_handler, bind, select. cbn [snd].
    rewrite filter_nil_elem by (intros t Ht (Hn & Hid & Hlive); by apply (Hfree t)).
    cbn [length]. rewrite decide_False by lia.
    rewrite statement_healthy by done. rewrite sql_rename_table_ok by done.
    eexists. split; [reflexivity|]. cbn. repeat (split; [done|]).
    apply Forall2_fmap_r, Forall_Forall2_diag, Forall_forall. intros t _.
    unfold compose. by destruct (decide (t_id t = id ∧ live_table t)) as [[Hid Hlive]|].
Qed.

(** ** Creating a column *)

Lemma foldl_max_ge x l y : y ∈ x :: l → (y ≤ foldl Z.max x l)%Z.
Proof.
  revert x y. induction l as [|z l IH]; intros x y Hy; cbn.
  - apply list_elem_of_singleton in Hy. lia.
  - apply elem_of_cons in Hy as [->|Hy].
    + etrans; [|apply (IH _ (Z.max x z)); left]. lia.
    + apply elem_of_cons in Hy as [->|Hy].
      * etrans; [|apply (IH _ (Z.max x z)); left]. lia.
      * apply IH. by right.
Qed.

Lemma foldl_max_elem x l : foldl Z.max x l ∈ x :: l.
Proof.
  revert x. induction l as [|z l IH]; intros x; cbn; [left|].
  specialize (IH (Z.max x z)). apply elem_of_cons in IH as [->|IH].
  - destruct (Z.max_spec x z) as [[_ ->]|[_ ->]]; [right; left|left].
  - by do 2 right.
Qed.

(** [COALESCE(MAX(display_order), -1)]: an upper bound of the orders of
    the live columns of the table, reached when there is one. *)
Lemma max_order_spec table_id d :
  (∀ c, c ∈ columns d → c_table_id c = table_id → live_column c →
        (c_display_order c ≤ max_order table_id d)%Z)
  ∧ ((∀ c, c ∈ columns d → c_table_id c = table_id → ¬ live_column c) →
       max_order table_id d = (-1)%Z)
  ∧ ((∃ c, c ∈ columns d ∧ c_table_id c = table_id ∧ live_column c) →
       ∃ c, c ∈ columns d ∧ c_table_id c = table_id ∧ live_column c
            ∧ c_display_order c = max_order table_id d).
Proof.
  unfold max_order.
  destruct (c_display_order <$> filter _ (columns d)) as [|x l] eqn:E.
  - apply fmap_nil_inv in E. split; [|split; [done|]].
    + intros c Hc Ht Hlive.
      assert (Hin : c ∈ filter (λ c, c_table_id c = table_id ∧ live_column c) (columns d))
        by by apply list_elem_of_filter.
      rewrite E in Hin. by apply not_elem_of_nil in Hin.
    + intros (c & Hc & Ht & Hlive).
      assert (Hin : c ∈ filter (λ c, c_table_id c = table_id ∧ live_column c) (columns d))
        by by apply list_elem_of_filter.
      rewrite E in Hin. by apply not_elem_of_nil in Hin.
  - split; [|split].
    + intros c Hc Ht Hlive. apply foldl_max_ge. rewrite <- E.
      apply list_elem_of_fmap_2. by apply list_elem_of_filter.
    + intros Hnone. exfalso.
      assert (Hx : x ∈ c_display_order <$>
                filter (λ c, c_table_id c = table_id ∧ live_column c) (columns d))
        by (rewrite E; left).
      apply list_elem_of_fmap in Hx as (c & _ & [[Ht Hlive] Hc]%list_elem_of_filter).
      by apply (Hnone c).
    + intros _. pose proof (foldl_max_elem x l) as Hm. rewrite <- E in Hm.
      apply list_elem_of_fmap in Hm as (c & Hm & [[Ht Hlive] Hc]%list_elem_of_filter).
      by exists c.
Qed.

Lemma merge_sort_snoc_last (l : list Column) x :
  NoDup (c_id <$> l) →
  (∀ y, y ∈ l → (c_display_order y < c_display_order x)%Z) →
  merge_sort column_le (l ++ [x]) = (merge_sort column_le l ++ [x])%list.
Proof.
  intros Hnd Hlt. apply (StronglySorted_unique_strong column_le).
  - intros x1 x2 Hx1 Hx2 H12 H21.
    assert (c_display_order x1 = c_display_order x2 ∧ c_id x1 = c_id x2) as [Ho Hi]
      by (unfold column_le in *; lia).
    rewrite merge_sort_Permutation in Hx1.
    rewrite elem_of_app, merge_sort_Permutation in Hx2.
    apply elem_of_app in Hx1 as [Hx1|Hx1%list_elem_of_singleton];
      destruct Hx2 as [Hx2|Hx2%list_elem_of_singleton]; subst; try done.
    + by apply (NoDup_fmap_eq c_id l).
    + apply Hlt in Hx1. lia.
    + apply Hlt in Hx2. lia.
  - apply StronglySorted_merge_sort; apply _.
  - apply StronglySorted_app_2.
    + intros x1 x2 Hx1 ->%list_elem_of_singleton. rewrite merge_sort_Permutation in Hx1.
      left. by apply Hlt.
    + apply StronglySorted_merge_sort; apply _.
    + repeat constructor.
  - by rewrite !merge_sort_Permutation.
Qed.

(** X7. [create_column] trims the name and refuses an empty one; a name
    that a column of the table bears, tombstoned or not, is reported as a
    conflict (storage accepting the write); in both cases nothing is
    written. Otherwise the column is inserted as a live column of the
    table under a key greater than every key in use, with the uniqueness
    flag as given and a display order one above the greatest order among
    the live columns of the table (0 when there is none), and
    [get_columns] lists it last, after the columns it listed before.
    The table itself is not looked up: it may be unknown or tombstoned. *)
Theorem create_column_outcome env d table_id name is_unique :
  (Js.trim name = "" →
     run_handler (create_column env table_id name is_unique) d
     = (Throw "Column name cannot be empty", d)) ∧
  (Js.trim name ≠ "" → healthy env →
   (∃ c, c ∈ columns d ∧ c_table_id c = table_id ∧ c_name c = Js.trim name) →
     run_handler (create_column env table_id name is_unique) d
     = (Throw ("Column " ++ Js.dq ++ Js.trim name ++ Js.dq
               ++ " already exists in this table"), d)) ∧
  (Js.trim name ≠ "" → healthy env →
   (∀ c, c ∈ columns d → c_table_id c = table_id → c_name c ≠ Js.trim name) →
     ∃ id order d',
       run_handler (create_column env table_id name is_unique) d
       = (Ok (id, Js.trim name, order, is_unique), d')
       ∧ d' = with_columns d (columns d ++
                [ {| c_id := id; c_table_id := table_id; c_name := Js.trim name;
                     c_display_order := order; c_is_unique := is_unique;
                     c_created_at := clock env 0; c_deleted_at := None |} ])
       ∧ (∀ c, c ∈ columns d → (c_id c < id)%nat)
       ∧ (∀ c, c ∈ columns d → c_table_id c = table_id → live_column c →
               (c_display_order c < order)%Z)
       ∧ ((∃ c, c ∈ columns d ∧ c_table_id c = table_id ∧ live_column c) →
            ∃ c, c ∈ columns d ∧ c_table_id c = table_id ∧ live_column c
                 ∧ order = (c_display_order c + 1)%Z)
       ∧ ((∀ c, c ∈ columns d → c_table_id c = table_id → ¬ live_column c) →
            order = 0%Z)
       ∧ (column_ids_unique d →
            get_columns d' table_id
            = (get_columns d table_id ++
                [ {| cr_id := id; cr_name := Js.trim name; cr_display_order := order;
                     cr_is_unique := is_unique; cr_created_at := clock env 0 |} ])%list)).
Proof.
  split; [|split].
  - intros Hn. unfold create_column. cbv zeta. by rewrite decide_True.
  - intros Hne Hh Hc. by apply create_column_taken_name.
  - intros Hne Hh Hfree.
    destruct (max_order_spec table_id d) as (Hle & Hnone & Hsome).
    unfold create_column. cbv zeta. rewrite decide_False by done.
    unfold run_handler, bind, select, try_catch. cbn [snd].
    rewrite statement_healthy by done. unfold sql_insert_column.
    rewrite decide_False.
    2:{ intros (c & Hc & Ht & Hn)%Exists_exists. by apply (Hfree c). }
    eexists _, _, _. split; [reflexivity|]. split; [reflexivity|].
    split; [|split; [|split; [|split]]].
    + intros c Hc. apply next_id_gt. by apply list_elem_of_fmap_2.
    + intros c Hc Ht Hlive. specialize (Hle c Hc Ht Hlive). lia.
    + intros Hex. destruct (Hsome Hex) as (c & Hc & Ht & Hlive & Ho).
      exists c. by rewrite Ho.
    + intros Hdead. by rewrite (Hnone Hdead).
    + intros Hids. unfold get_columns, ret. cbn [columns with_columns fst snd].
      rewrite filter_app, filter_cons_True, filter_nil by done.
      rewrite merge_sort_snoc_last.
      * by rewrite fmap_app.
      * eapply sublist_NoDup; [exact Hids|]. apply fmap_sublist, sublist_filter.
      * intros c [[Ht Hlive] Hc]%list_elem_of_filter. cbn.
        specialize (Hle c Hc Ht Hlive). lia.
Qed.

(** ** Renaming a column, clearing its uniqueness flag *)

Lemma no_live_column_head d id :
  (∀ c, c ∈ columns d → c_id c = id → ¬ live_column c) →
  head (filter (λ c, c_id c = id ∧ live_column c) (columns d)) = None.
Proof.
  intros Hdead. apply head_filter_None. intros (c & Hc & Hid & Hlive).
  by apply (Hdead c).
Qed.

Lemma live_column_head d c :
  column_ids_unique d → c ∈ columns d → live_column c →
  head (filter (λ c', c_id c' = c_id c ∧ live_column c') (columns d)) = Some c.
Proof.
  intros Hids Hc Hlive.
  apply (head_filter_unique c_id); [done..|]. by intros y [? _].
Qed.

(** X8. [rename_column] trims the name and refuses an empty one; it
    answers "Column not found" when no live column has the key, and a
    conflict when another live column of the same table bears the name;
    in these cases nothing is written. When no other column of the table
    bears the name (storage accepting the write), the name of the column
    is replaced and nothing else changes. *)
Theorem rename_column_outcome env d id name :
  (Js.trim name = "" →
     run_handler (rename_column env id name) d
     = (Throw "Column name cannot be empty", d)) ∧
  (Js.trim name ≠ "" →
   (∀ c, c ∈ columns d → c_id c = id → ¬ live_column c) →
     run_handler (rename_column env id name) d = (Throw "Column not found", d)) ∧
  (∀ c, Js.trim name ≠ "" → column_ids_unique d →
     c ∈ columns d → c_id c = id → live_column c →
     ((∃ c', c' ∈ columns d ∧ c_table_id c' = c_table_id c ∧ c_name c' = Js.trim name
             ∧ c_id c' ≠ id ∧ live_column c') →
        run_handler (rename_column env id name) d
        = (Throw ("Column " ++ Js.dq ++ Js.trim name ++ Js.dq
                  ++ " already exists in this table"), d)) ∧
     ((∀ c', c' ∈ columns d → c_table_id c' = c_table_id c → c_id c' ≠ id →
             c_name c' ≠ Js.trim name) →
      healthy env →
        ∃ d', run_handler (rename_column env id name) d = (Ok (id, Js.trim name), d')
              ∧ column_renamed id (Js.trim name) d d')).
Proof.
  unfold rename_column. cbv zeta. split; [|split].
  - intros ->. done.
  - intros Hne Hdead. rewrite decide_False by done.
    unfold run_handler. rewrite bind_select. cbn [snd].
    by rewrite no_live_column_head.
  - intros c Hne Hids Hc <- Hlive. rewrite decide_False by done.
    unfold run_handler. rewrite bind_select. cbn [snd].
    rewrite live_column_head by done. rewrite bind_select. cbn [snd]. split.
    + intros (c' & Hc' & Ht & Hn & Hid & Hlive').
      rewrite decide_True; [done|]. apply filter_nil_length. by exists c'.
    + intros Hfree Hh.
      rewrite filter_nil_elem by (intros c' Hc' (Ht & Hn & Hid & _); by apply (Hfree c')).
      cbn [length]. rewrite decide_False by lia.
      unfold bind. rewrite statement_healthy by done. unfold sql_rename_column.
      rewrite decide_False.
      2:{ intros (c1 & Hc1 & Hid1 & Hlive1 & (c' & Hc' & Hid' & Ht & Hn)%Exists_exists)%Exists_exists.
          assert (c1 = c) as -> by by apply (NoDup_fmap_eq c_id (columns d)).
          by apply (Hfree c'). }
      eexists. split; [reflexivity|]. split; [|done]. cbn.
      apply Forall2_fmap_r, Forall_Forall2_diag, Forall_forall. intros c' _.
      unfold compose.
      destruct (decide (c_id c' = c_id c ∧ live_column c')) as [[Hid' Hlive']|]; [|done].
      by repeat split.
Qed.

(** X9. [set_column_unique] answers "Column not found" when no live
    column has the key, whichever flag is asked for. Clearing the flag of
    a live column never looks at the values: with a storage layer that
    accepts the write it succeeds, sets the flag to 0 and changes nothing
    else. *)
Theorem set_column_unique_off env d id :
  ((∀ c, c ∈ columns d → c_id c = id → ¬ live_column c) →
     ∀ is_unique,
       run_handler (set_column_unique env id is_unique) d
       = (Throw "Column not found", d)) ∧
  (∀ c, column_ids_unique d → c ∈ columns d → c_id c = id → live_column c →
     healthy env →
     ∃ d', run_handler (set_column_unique env id false) d = (Ok (id, 0), d')
           ∧ unique_flag_step id 0 d d').
Proof.
  unfold set_column_unique. split.
  - intros Hdead is_unique. unfold run_handler. rewrite bind_select. cbn [snd].
    by rewrite no_live_column_head.
  - intros c Hids Hc <- Hlive Hh. unfold run_handler. rewrite bind_select. cbn [snd].
    rewrite live_column_head by done.
    destruct (sql_set_unique_step 0 (c_id c) (clock env 0) d) as (d' & Ed & Hd').
    exists d'. split; [|done].
    unfold bind, ret. rewrite statement_healthy by done. by rewrite Ed.
Qed.

(** ** Deleting a column, a foreign key *)

Lemma sql_delete_fks_of_column_step id now d :
  ∃ d', sql_delete_fks_of_column id now d = Ok (tt, d') ∧ fks_of_column_step id d d'.
Proof.
  eexists. split; [reflexivity|]. split; [|done].
  cbn. apply tombstones_fmap; [done|]. intros fk _. by repeat split.
Qed.

Lemma sql_delete_column_step id now d :
  ∃ d', sql_delete_column id now d = Ok (tt, d') ∧ column_step id d d'.
Proof.
  eexists. split; [reflexivity|]. split; [|done].
  cbn. apply tombstones_fmap; [done|]. intros c _. by repeat split.
Qed.

Lemma sql_delete_fk_step id now d :
  ∃ d', sql_delete_fk id now d = Ok (tt, d') ∧ fk_step id d d'.
Proof.
  eexists. split; [reflexivity|]. split; [|done].
  cbn. apply tombstones_fmap; [done|]. intros fk _. by repeat split.
Qed.

Lemma tombstones_elem {A} (P : A → Prop) `{∀ x, Decision (P x)} (T : A → A → Prop) l l' x' :
  tombstones P T l l' → x' ∈ l' →
  ∃ x, x ∈ l ∧ ((P x ∧ T x x') ∨ (¬ P x ∧ x' = x)).
Proof.
  intros Ht Hx'. unfold tombstones in Ht.
  apply list_elem_of_lookup in Hx' as [i Hi].
  destruct (Forall2_lookup_r _ _ _ _ _ Ht Hi) as (x & Hx & HP & HnP).
  exists x. split; [by eapply list_elem_of_lookup_2|].
  destruct (decide (P x)) as [Hp|Hp]; [left|right]; auto.
Qed.

(** X10. [delete_column] checks nothing: with a storage layer that
    accepts the writes it always succeeds, first tombstoning the live
    foreign keys anchored on the column, then the column if it is live;
    nothing else changes. Afterwards [get_columns] lists no column with
    the key and [get_foreign_keys] no foreign key anchored on it, for any
    table. A key that no live column has is accepted the same way. *)
Theorem delete_column_outcome env d id :
  healthy env →
  ∃ d1 d',
    run_handler (delete_column env id) d = (Ok tt, d')
    ∧ fks_of_column_step id d d1 ∧ column_step id d1 d'
    ∧ (∀ table_id row, row ∈ get_columns d' table_id → cr_id row ≠ id)
    ∧ (∀ table_id row, row ∈ get_foreign_keys d' table_id → fr_from_column_id row ≠ id).
Proof.
  intros Hh.
  destruct (sql_delete_fks_of_column_step id (clock env 0) d) as (d1 & E1 & H1).
  destruct (sql_delete_column_step id (clock env 1) d1) as (d' & E2 & H2).
  exists d1, d'. split; [|split; [done|split; [done|]]].
  - unfold delete_column, run_handler, bind, ret.
    rewrite statement_healthy by done. rewrite E1.
    rewrite statement_healthy by done. by rewrite E2.
  - assert (Hcols : ∀ c, c ∈ columns d' → c_id c = id → ¬ live_column c).
    { intros c' Hc' Hid Hlive. destruct H2 as [Ht _].
      destruct (tombstones_elem _ _ _ _ _ Ht Hc') as (c & Hc & [[[Hi Hl] HT]|[Hn ->]]).
      - destruct HT as (_ & _ & _ & _ & _ & _ & Hdead). by apply Hdead.
      - apply Hn. done. }
    split.
    + intros table_id row (c & Hc & _ & Hlive & ->)%get_columns_elem Hid. cbn in Hid.
      by apply (Hcols c).
    + intros table_id row
        (fk & c & t & _ & Hc & _ & Hcid & _ & _ & _ & Hlive & _ & ->)%get_foreign_keys_elem
        Hid. cbn in Hid. apply (Hcols c); [done|congruence|done].
Qed.

Lemma delete_column_outcome_witness :
  ∃ d1 d',
    run_handler (delete_column env0 1) fk_db = (Ok tt, d')
    ∧ fks_of_column_step 1 fk_db d1 ∧ column_step 1 d1 d'
    ∧ (∀ table_id row, row ∈ get_columns d' table_id → cr_id row ≠ 1)
    ∧ (∀ table_id row, row ∈ get_foreign_keys d' table_id → fr_from_column_id row ≠ 1).
Proof. apply (delete_column_outcome env0 fk_db 1). intros n. reflexivity. Defined.

(** ** The foreign keys a table enforces *)

Lemma fk_map_fold_lookup (l : list ForeignKey) (m0 : gmap nat nat) k v :
  foldl (λ map fk, <[fk_from_column_id fk := fk_to_table_id fk]> map) m0 l !! k = Some v →
  (∃ fk, fk ∈ l ∧ fk_from_column_id fk = k ∧ fk_to_table_id fk = v) ∨ m0 !! k = Some v.
Proof.
  revert m0. induction l as [|fk l IH]; intros m0; cbn; [by right|].
  intros [(fk' & Hfk' & ?)|H]%IH.
  - left. exists fk'. split; [by right|done].
  - destruct (decide (fk_from_column_id fk = k)) as [<-|Hn].
    + rewrite lookup_insert_eq in H. injection H as <-. left. exists fk.
      split; [left|done].
    + rewrite lookup_insert_ne in H by done. by right.
Qed.

Lemma fk_map_fold_is_Some (l : list ForeignKey) (m0 : gmap nat nat) k :
  (∃ fk, fk ∈ l ∧ fk_from_column_id fk = k) ∨ is_Some (m0 !! k) →
  is_Some (foldl (λ map fk, <[fk_from_column_id fk := fk_to_table_id fk]> map) m0 l !! k).
Proof.
  revert m0. induction l as [|fk l IH]; intros m0; cbn.
  - intros [(fk & []%not_elem_of_nil & _)|H]; done.
  - intros [(fk' & [->|Hfk']%elem_of_cons & Hn)|H]; apply IH.
    + right. rewrite Hn, lookup_insert_eq. by eexists.
    + left. by exists fk'.
    + right. destruct (decide (fk_from_column_id fk = k)) as [<-|Hne].
      * rewrite lookup_insert_eq. by eexists.
      * by rewrite lookup_insert_ne.
Qed.

(** The foreign keys the query of [_get_fk_map_for_table] selects. *)
Lemma fk_map_rows d table_id fk :
  fk ∈ (fk ← foreign_keys d;
        c ← filter (λ c, c_id c = fk_from_column_id fk) (columns d);
        if decide (c_table_id c = table_id ∧ live_fk fk ∧ live_column c)
        then [fk] else []) ↔
  fk ∈ foreign_keys d ∧ live_fk fk
  ∧ ∃ c, c ∈ columns d ∧ c_id c = fk_from_column_id fk ∧ c_table_id c = table_id
         ∧ live_column c.
Proof.
  rewrite list_elem_of_bind. split.
  - intros (fk' & (c & Hin & [Hid Hc]%list_elem_of_filter)%list_elem_of_bind & Hfk').
    destruct (decide _) as [(Ht & Hl & Hlc)|]; [|by apply not_elem_of_nil in Hin].
    apply list_elem_of_singleton in Hin as ->. split; [done|]. split; [done|]. by exists c.
  - intros (Hfk & Hl & c & Hc & Hid & Ht & Hlc). exists fk. split; [|done].
    apply list_elem_of_bind. exists c. split; [|by apply list_elem_of_filter].
    rewrite decide_True by done. left.
Qed.

Lemma fk_map_lookup d table_id k v :
  _get_fk_map_for_table table_id d !! k = Some v →
  ∃ fk c, fk ∈ foreign_keys d ∧ live_fk fk ∧ fk_from_column_id fk = k
          ∧ fk_to_table_id fk = v
          ∧ c ∈ columns d ∧ c_id c = k ∧ c_table_id c = table_id ∧ live_column c.
Proof.
  unfold _get_fk_map_for_table. cbv zeta.
  intros [(fk & Hfk & Hk & Hv)|H]%fk_map_fold_lookup; [|by rewrite lookup_empty in H].
  apply fk_map_rows in Hfk as (Hfk & Hl & c & Hc & Hid & Ht & Hlc).
  exists fk, c. rewrite <- Hk. done.
Qed.

Lemma fk_map_lookup_live d table_id fk c :
  one_live_fk_per_column d →
  fk ∈ foreign_keys d → live_fk fk →
  c ∈ columns d → c_id c = fk_from_column_id fk → c_table_id c = table_id →
  live_column c →
  _get_fk_map_for_table table_id d !! fk_from_column_id fk = Some (fk_to_table_id fk).
Proof.
  intros Hone Hfk Hl Hc Hid Ht Hlc.
  destruct (fk_map_fold_is_Some
    (fk ← foreign_keys d;
     c ← filter (λ c, c_id c = fk_from_column_id fk) (columns d);
     if decide (c_table_id c = table_id ∧ live_fk fk ∧ live_column c)
     then [fk] else []) ∅ (fk_from_column_id fk)) as [v Hv].
  { left. exists fk. split; [|done]. apply fk_map_rows. split; [done|]. split; [done|].
    by exists c. }
  unfold _get_fk_map_for_table. cbv zeta. rewrite Hv. f_equal.
  apply fk_map_fold_lookup in Hv as [(fk' & Hfk' & Hk & <-)|H];
    [|by rewrite lookup_empty in H].
  apply fk_map_rows in Hfk' as (Hfk' & Hl' & _).
  apply list_elem_of_lookup in Hfk as [i Hi]. apply list_elem_of_lookup in Hfk' as [j Hj].
  assert (j = i) as -> by by apply (Hone j i fk' fk).
  congruence.
Qed.

(** X11. The foreign keys [create_row] and [update_row] enforce are live
    foreign keys anchored on live columns of the table, and with at most
    one live foreign key per column they include every foreign key that
    [get_foreign_keys] lists for the table, with the same target. *)
Theorem listed_foreign_keys_are_enforced d table_id :
  (∀ column_id to_table_id,
     _get_fk_map_for_table table_id d !! column_id = Some to_table_id →
     ∃ fk c, fk ∈ foreign_keys d ∧ live_fk fk ∧ fk_from_column_id fk = column_id
             ∧ fk_to_table_id fk = to_table_id
             ∧ c ∈ columns d ∧ c_id c = column_id ∧ c_table_id c = table_id
             ∧ live_column c) ∧
  (one_live_fk_per_column d →
   ∀ row, row ∈ get_foreign_keys d table_id →
     _get_fk_map_for_table table_id d !! fr_from_column_id row
     = Some (fr_to_table_id row)).
Proof.
  split; [apply fk_map_lookup|].
  intros Hone row
    (fk & c & t & Hfk & Hc & _ & Hcid & _ & Ht & Hl & Hlc & _ & ->)%get_foreign_keys_elem.
  cbn. by apply (fk_map_lookup_live d table_id fk c).
Qed.

(** X12. [delete_foreign_key] checks nothing: with a storage layer that
    accepts the write it always succeeds and tombstones the foreign key
    with the key if it is live, changing nothing else; [get_foreign_keys]
    no longer lists it. When the foreign key was the live one of its
    column (at most one per column), the column has no live foreign key
    afterwards: its values are no longer checked against a target and
    [create_foreign_key] no longer finds the column taken. *)
Theorem delete_foreign_key_outcome env d id :
  healthy env →
  ∃ d',
    run_handler (delete_foreign_key env id) d = (Ok tt, d')
    ∧ fk_step id d d'
    ∧ (∀ table_id row, row ∈ get_foreign_keys d' table_id → fr_id row ≠ id)
    ∧ (∀ fk, fk ∈ foreign_keys d → fk_id fk = id → live_fk fk →
         one_live_fk_per_column d →
         (∀ fk', fk' ∈ foreign_keys d' →
                 fk_from_column_id fk' = fk_from_column_id fk → ¬ live_fk fk')
         ∧ (∀ table_id,
              _get_fk_map_for_table table_id d' !! fk_from_column_id fk = None)).
Proof.
  intros Hh.
  destruct (sql_delete_fk_step id (clock env 0) d) as (d' & E & Hd').
  exists d'. split; [|split; [done|]].
  { unfold delete_foreign_key, run_handler, bind, ret.
    rewrite statement_healthy by done. by rewrite E. }
  destruct Hd' as (Ht & _).
  assert (Hdead : ∀ fk', fk' ∈ foreign_keys d' → fk_id fk' = id → ¬ live_fk fk').
  { intros fk' Hfk' Hid Hl.
    destruct (tombstones_elem _ _ _ _ _ Ht Hfk') as (fk0 & Hfk0 & [[_ HT]|[Hn ->]]).
    - destruct HT as (_ & _ & _ & _ & Hd). by apply Hd.
    - by apply Hn. }
  split.
  - intros table_id row
      (fk & c & t & Hfk & _ & _ & _ & _ & _ & Hl & _ & _ & ->)%get_foreign_keys_elem Hid.
    cbn in Hid. by apply (Hdead fk).
  - intros fk Hfk Hid Hl Hone.
    assert (Hcol : ∀ fk', fk' ∈ foreign_keys d' →
              fk_from_column_id fk' = fk_from_column_id fk → ¬ live_fk fk').
    { intros fk' Hfk' Hfrom Hl'.
      destruct (tombstones_elem _ _ _ _ _ Ht Hfk') as (fk0 & Hfk0 & [[_ HT]|[Hn ->]]).
      - destruct HT as (_ & _ & _ & _ & Hd). by apply Hd.
      - apply Hn. split; [|done].
        apply list_elem_of_lookup in Hfk as [i Hi].
        apply list_elem_of_lookup in Hfk0 as [j Hj].
        assert (j = i) as -> by by apply (Hone j i fk0 fk).
        congruence. }
    split; [done|]. intros table_id.
    destruct (_ !! _) as [v|] eqn:Ev; [|done].
    apply fk_map_lookup in Ev as (fk' & c & Hfk' & Hl' & Hfrom & _).
    by destruct (Hcol fk' Hfk' Hfrom).
Qed.

Lemma delete_foreign_key_outcome_witness :
  ∃ d',
    run_handler (delete_foreign_key env0 1) fk_db = (Ok tt, d')
    ∧ fk_step 1 fk_db d'
    ∧ (∀ table_id row, row ∈ get_foreign_keys d' table_id → fr_id row ≠ 1)
    ∧ (∀ fk, fk ∈ foreign_keys fk_db → fk_id fk = 1 → live_fk fk →
         one_live_fk_per_column fk_db →
         (∀ fk', fk' ∈ foreign_keys d' →
                 fk_from_column_id fk' = fk_from_column_id fk → ¬ live_fk fk')
         ∧ (∀ table_id,
              _get_fk_map_for_table table_id d' !! fk_from_column_id fk = None)).
Proof. apply (delete_foreign_key_outcome env0 fk_db 1). intros n. reflexivity. Defined.

(** ** Repeating a deletion *)

Lemma fmap_if_id {A} (P : A → Prop) `{∀ x, Decision (P x)} (f : A → A) (l : list A) :
  (∀ x, x ∈ l → ¬ P x) → (λ x, if decide (P x) then f x else x) <$> l = l.
Proof. intros Hn. apply fmap_id_on. intros x Hx. rewrite decide_False; [done|by apply Hn]. Qed.

Lemma with_tables_id d : with_tables d (tables d) = d.
Proof. by destruct d. Qed.

Lemma with_columns_id d : with_columns d (columns d) = d.
Proof. by destruct d. Qed.

Lemma with_foreign_keys_id d : with_foreign_keys d (foreign_keys d) = d.
Proof. by destruct d. Qed.

(** A statement that finds nothing to update leaves the database as it
    is, applied or refused. *)
Lemma statement_id env (sql : nat → DB → Res (unit * DB)) s :
  (∀ now, sql now s.2 = Ok (tt, s.2)) →
  (statement env sql s).2.2 = s.2
  ∧ ((statement env sql s).1 = Ok tt → statement env sql s = (Ok tt, (S s.1, s.2))).
Proof.
  intros Hsql. unfold statement. destruct (storage env s.1); [done|].
  by rewrite Hsql.
Qed.

Lemma no_change_bind env (sql : nat → DB → Res (unit * DB)) (k : M unit) s :
  (∀ now, sql now s.2 = Ok (tt, s.2)) →
  (∀ n, (k (n, s.2)).2.2 = s.2) →
  ((statement env sql ;; k) s).2.2 = s.2.
Proof.
  intros Hsql Hk. unfold bind, statement. destruct (storage env s.1); [done|].
  rewrite Hsql. apply Hk.
Qed.

Lemma delete_column_settled env' id d :
  (∀ fk, fk ∈ foreign_keys d → fk_from_column_id fk = id → ¬ live_fk fk) →
  (∀ c, c ∈ columns d → c_id c = id → ¬ live_column c) →
  after (delete_column env' id) d = d.
Proof.
  intros Hfk Hc. unfold after, run_handler, delete_column. cbn [snd].
  apply (no_change_bind env' _ _ (0, d)); cbn [snd].
  - intros now. unfold sql_delete_fks_of_column.
    rewrite fmap_if_id by (intros fk ? [? ?]; by apply (Hfk fk)).
    by rewrite with_foreign_keys_id.
  - intros n. apply (no_change_bind env' _ _ (n, d)); cbn [snd]; [|done].
    intros now. unfold sql_delete_column.
    rewrite fmap_if_id by (intros c ? [? ?]; by apply (Hc c)).
    by rewrite with_columns_id.
Qed.

Lemma delete_foreign_key_settled env' id d :
  (∀ fk, fk ∈ foreign_keys d → fk_id fk = id → ¬ live_fk fk) →
  after (delete_foreign_key env' id) d = d.
Proof.
  intros Hfk. unfold after, run_handler, delete_foreign_key. cbn [snd].
  apply (no_change_bind env' _ _ (0, d)); cbn [snd]; [|done].
  intros now. unfold sql_delete_fk.
  rewrite fmap_if_id by (intros fk ? [? ?]; by apply (Hfk fk)).
  by rewrite with_foreign_keys_id.
Qed.

Lemma delete_table_settled env' id d :
  (∀ c, c ∈ columns d → c_table_id c = id → ¬ live_column c) →
  (∀ t, t ∈ tables d → t_id t = id → ¬ live_table t) →
  after (delete_table env' id) d = d.
Proof.
  intros Hc Ht. unfold after, run_handler, delete_table. cbn [snd].
  rewrite bind_select. cbn [snd]. destruct (decide _) as [|Hcnt]; [done|].
  apply (no_change_bind env' _ _ (0, d)); cbn [snd].
  - intros now. unfold sql_delete_fks_of_table.
    rewrite (filter_nil_elem _ (columns d)) by (intros c ? [? ?]; by apply (Hc c)).
    rewrite fmap_if_id by (intros fk ? [_ []%not_elem_of_nil]).
    by rewrite with_foreign_keys_id.
  - intros n. apply (no_change_bind env' _ _ (n, d)); cbn [snd].
    + intros now. unfold sql_delete_columns_of_table.
      rewrite fmap_if_id by (intros c ? [? ?]; by apply (Hc c)).
      by rewrite with_columns_id.
    + intros n'. apply (no_change_bind env' _ _ (n', d)); cbn [snd]; [|done].
      intros now. unfold sql_delete_table.
      rewrite fmap_if_id by (intros t ? [? ?]; by apply (Ht t)).
      by rewrite with_tables_id.
Qed.

Lemma delete_column_result env d id d' :
  run_handler (delete_column env id) d = (Ok tt, d') →
  ∃ d1, fks_of_column_step id d d1 ∧ column_step id d1 d'.
Proof.
  destruct (sql_delete_fks_of_column_step id (clock env 0) d) as (d1 & E1 & H1).
  destruct (sql_delete_column_step id (clock env 1) d1) as (d2 & E2 & H2).
  unfold delete_column, run_handler, bind, statement, ret. cbn [fst snd].
  destruct (storage env 0); [done|]. rewrite E1. cbn [fst snd].
  destruct (storage env 1); [done|]. rewrite E2. cbn [fst snd].
  intros [= <-]. by exists d1.
Qed.

Lemma delete_table_result env d id d' :
  run_handler (delete_table env id) d = (Ok tt, d') →
  live_row_count id d = 0
  ∧ ∃ d1 d2, fks_step id d d1 ∧ columns_step id d1 d2 ∧ table_step id d2 d'.
Proof.
  destruct (sql_delete_fks_of_table_step id (clock env 0) d) as (d1 & E1 & H1).
  destruct (sql_delete_columns_of_table_step id (clock env 1) d1) as (d2 & E2 & H2).
  destruct (sql_delete_table_step id (clock env 2) d2) as (d3 & E3 & H3).
  unfold delete_table, run_handler. rewrite bind_select. cbn [snd].
  destruct (decide _) as [|Hcnt]; [done|].
  unfold bind, statement, ret. cbn [fst snd].
  destruct (storage env 0); [done|]. rewrite E1. cbn [fst snd].
  destruct (storage env 1); [done|]. rewrite E2. cbn [fst snd].
  destruct (storage env 2); [done|]. rewrite E3. cbn [fst snd].
  intros [= <-]. split; [lia|]. by exists d1, d2.
Qed.

Lemma delete_foreign_key_result env d id d' :
  run_handler (delete_foreign_key env id) d = (Ok tt, d') → fk_step id d d'.
Proof.
  destruct (sql_delete_fk_step id (clock env 0) d) as (d1 & E1 & H1).
  unfold delete_foreign_key, run_handler, bind, statement, ret. cbn [fst snd].
  destruct (storage env 0); [done|]. rewrite E1. cbn [fst snd].
  by intros [= <-].
Qed.

(** After the tombstoning of the elements that satisfy [P], when a
    tombstoned element never satisfies [P], none does. *)
Lemma tombstones_none {A} (P : A → Prop) `{∀ x, Decision (P x)} (T : A → A → Prop) l l' :
  (∀ x x', T x x' → ¬ P x') →
  tombstones P T l l' → ∀ x', x' ∈ l' → ¬ P x'.
Proof.
  intros HT Ht x' Hx'.
  destruct (tombstones_elem _ _ _ _ _ Ht Hx') as (x & Hx & [[_ HT']|[Hn ->]]); [|done].
  by eapply HT.
Qed.

Lemma columns_of_table_dead id d1 d2 :
  columns_step id d1 d2 →
  ∀ c, c ∈ columns d2 → c_table_id c = id → ¬ live_column c.
Proof.
  intros [Ht _] c Hc Hid Hlive.
  apply (tombstones_none _ _ _ _ (λ x x' (HT : column_tombstoned x x') HP,
           proj2 (proj2 (proj2 (proj2 (proj2 (proj2 HT))))) (proj2 HP)) Ht c Hc).
  done.
Qed.

(** X13. Tombstoning is idempotent: after a [delete_table],
    [delete_column] or [delete_foreign_key] that succeeded, the same
    request again, whatever the clock and the storage layer do, leaves
    the database as it is. *)
Theorem deletions_are_idempotent env env' d id :
  (∀ d', run_handler (delete_table env id) d = (Ok tt, d') →
         after (delete_table env' id) d' = d') ∧
  (∀ d', run_handler (delete_column env id) d = (Ok tt, d') →
         after (delete_column env' id) d' = d') ∧
  (∀ d', run_handler (delete_foreign_key env id) d = (Ok tt, d') →
         after (delete_foreign_key env' id) d' = d').
Proof.
  split; [|split].
  - intros d' (_ & d1 & d2 & _ & H2 & H3)%delete_table_result.
    destruct H3 as (Ht & Hcols & _). apply delete_table_settled.
    + rewrite Hcols. by apply (columns_of_table_dead id d1).
    + intros t Htin Hid Hlive.
      apply (tombstones_none _ _ _ _ (λ x x' (HT : table_tombstoned x x') HP,
               proj2 (proj2 (proj2 HT)) (proj2 HP)) Ht t Htin). done.
  - intros d' (d1 & H1 & H2)%delete_column_result.
    destruct H1 as (Hf & _). destruct H2 as (Hc & _ & Hfks & _).
    apply delete_column_settled.
    + rewrite Hfks. intros fk Hfk Hid Hlive.
      apply (tombstones_none _ _ _ _ (λ x x' (HT : fk_tombstoned x x') HP,
               proj2 (proj2 (proj2 (proj2 HT))) (proj2 HP)) Hf fk Hfk). done.
    + intros c Hcin Hid Hlive.
      apply (tombstones_none _ _ _ _ (λ x x' (HT : column_tombstoned x x') HP,
               proj2 (proj2 (proj2 (proj2 (proj2 (proj2 HT))))) (proj2 HP)) Hc c Hcin).
      done.
  - intros d' (Hf & _)%delete_foreign_key_result.
    apply delete_foreign_key_settled. intros fk Hfk Hid Hlive.
    apply (tombstones_none _ _ _ _ (λ x x' (HT : fk_tombstoned x x') HP,
             proj2 (proj2 (proj2 (proj2 HT))) (proj2 HP)) Hf fk Hfk). done.
Qed.

(** ** What is left of a deleted table *)

Lemma nil_no_elem {A} (l : list A) : (∀ x, x ∉ l) → l = [].
Proof. destruct l as [|x l]; [done|]. intros H. destruct (H x). left. Qed.

Lemma row_live_history d d' table_id r :
  cell_history d' = cell_history d → row_live d' table_id r ↔ row_live d table_id r.
Proof.
  intros E. unfold row_live, row_created, net_deleted, max_marking. by rewrite E.
Qed.

(** X14. After a [delete_table] that succeeded, [get_tables] lists no
    table with the key, and [get_columns], [get_foreign_keys] and
    [get_rows] return nothing for it (the last one for a log whose cell
    events are on columns of their own table, as in every reachable
    state). *)
Theorem deleted_table_is_empty env d id d' :
  events_in_own_table d →
  run_handler (delete_table env id) d = (Ok tt, d') →
  (∀ row, row ∈ get_tables d' → tr_id row ≠ id)
  ∧ get_columns d' id = []
  ∧ get_foreign_keys d' id = []
  ∧ get_rows d' id = [].
Proof.
  intros Hown (Hcnt & d1 & d2 & H1 & H2 & H3)%delete_table_result.
  pose proof (columns_of_table_dead id d1 d2 H2) as Hdead.
  destruct H1 as (_ & _ & Hc1 & He1). destruct H2 as (Hcols & _ & _ & He2).
  destruct H3 as (Ht & Hc3 & _ & He3). rewrite <- Hc3 in Hdead.
  split; [|split; [|split]].
  - intros row (t & Htin & Hlive & ->)%get_tables_elem Hid. cbn in Hid.
    apply (tombstones_none _ _ _ _ (λ x x' (HT : table_tombstoned x x') HP,
             proj2 (proj2 (proj2 HT)) (proj2 HP)) Ht t Htin). done.
  - apply nil_no_elem. intros row (c & Hc & Hid & Hlive & _)%get_columns_elem.
    by apply (Hdead c).
  - apply nil_no_elem.
    intros row (fk & c & t & _ & Hc & _ & _ & _ & Hid & _ & Hlive & _)%get_foreign_keys_elem.
    by apply (Hdead c).
  - apply nil_no_elem. intros o Ho.
    assert (Ha : appears d' id (row_id o)) by (by apply list_elem_of_fmap_2).
    apply appears_iff in Ha as [Hdel [(e & c & He & Hc & Hlive)|[Hcr _]]].
    + apply (Hdead c Hc); [|done].
      destruct He as (Hin & Htab & _ & _ & Hcol).
      rewrite He3, He2, He1 in Hin. rewrite Hc3 in Hc.
      destruct (tombstones_elem _ _ _ _ _ Hcols Hc) as (c0 & Hc0 & Hrel).
      rewrite Hc1 in Hc0.
      assert (c_id c = c_id c0 ∧ c_table_id c = c_table_id c0) as [Hi Hti].
      { destruct Hrel as [[_ (? & ? & _)]|[_ ->]]; done. }
      rewrite Hti, <- Htab. apply Hown; [done..|]. by rewrite <- Hi.
    + assert (Hlive : row_live d id (row_id o)).
      { apply (row_live_history d d'); [by rewrite He3, He2, He1|done]. }
      apply live_rows_spec in Hlive. unfold live_row_count in Hcnt.
      apply nil_length_inv in Hcnt. rewrite Hcnt in Hlive.
      by apply not_elem_of_nil in Hlive.
Qed.

Lemma deleted_table_is_empty_witness :
  (∀ row, row ∈ get_tables (after (delete_table env0 1) deleted_db) → tr_id row ≠ 1)
  ∧ get_columns (after (delete_table env0 1) deleted_db) 1 = []
  ∧ get_foreign_keys (after (delete_table env0 1) deleted_db) 1 = []
  ∧ get_rows (after (delete_table env0 1) deleted_db) 1 = [].
Proof.
  apply (deleted_table_is_empty env0 deleted_db 1).
  - intros e c He Hc. vm_compute in He, Hc. elem_cases He; elem_cases Hc; cbn; congruence.
  - vm_compute. reflexivity.
Defined.

(** ** The cells [get_rows] shows *)





(** ** The latest event is the last one written *)













(** ** Reading back what was written *)







Lemma supplied_last entries n :
  supplied entries n = snd <$> last (filter (λ nv, nv.1 = n) entries).
Proof. done. Qed.










(** ** The options of a foreign key *)

Lemma live_fk_head d fk :
  one_live_fk_per_column d → fk ∈ foreign_keys d → live_fk fk →
  head (filter (λ fk', fk_from_column_id fk' = fk_from_column_id fk ∧ live_fk fk')
               (foreign_keys d)) = Some fk.
Proof.
  intros Hone Hfk Hlive.
  destruct (head _) as [fk'|] eqn:E.
  - apply head_filter_Some in E as (Hfk' & Hfrom & Hlive'). f_equal.
    apply list_elem_of_lookup in Hfk as [i Hi]. apply list_elem_of_lookup in Hfk' as [j Hj].
    assert (j = i) as -> by by apply (Hone j i fk' fk). congruence.
  - apply head_filter_None in E. destruct E. by exists fk.
Qed.

Lemma fk_option_ids d fk :
  one_live_fk_per_column d → fk ∈ foreign_keys d → live_fk fk →
  (get_fk_options d (fk_from_column_id fk)).*1
  = merge_sort row_id_le (live_rows (fk_to_table_id fk) d).
Proof.
  intros Hone Hfk Hlive. unfold get_fk_options. rewrite live_fk_head by done.
  cbv zeta. rewrite <- list_fmap_compose. apply list_fmap_id.
Qed.

(** X18. [get_fk_options] returns nothing for a column without a live
    foreign key. For a column with one (at most one per column), it
    returns one option for each live row of the target table (created and
    not net-deleted), each once, in ascending order of the identifiers,
    and these identifiers are exactly the non-empty values that the
    foreign-key check of [create_row] and [update_row] accepts for the
    column. *)
Theorem fk_options_are_the_valid_values d column_id :
  ((∀ fk, fk ∈ foreign_keys d → fk_from_column_id fk = column_id → ¬ live_fk fk) →
     get_fk_options d column_id = []) ∧
  (∀ fk, one_live_fk_per_column d →
     fk ∈ foreign_keys d → fk_from_column_id fk = column_id → live_fk fk →
     (∀ r, r ∈ (get_fk_options d column_id).*1 ↔ row_live d (fk_to_table_id fk) r)
     ∧ NoDup (get_fk_options d column_id).*1
     ∧ StronglySorted row_id_le (get_fk_options d column_id).*1
     ∧ ∀ v col_name n, v ≠ "" →
         _check_fk_exists (fk_to_table_id fk) (Some v) col_name (n, d) = (Ok tt, (n, d))
         ↔ v ∈ (get_fk_options d column_id).*1).
Proof.
  split.
  - intros Hnone. unfold get_fk_options.
    rewrite (proj2 (head_filter_None _ _)); [done|].
    intros (fk & Hfk & Hfrom & Hlive). by apply (Hnone fk).
  - intros fk Hone Hfk <- Hlive. rewrite fk_option_ids by done.
    assert (Hmem : ∀ r, r ∈ merge_sort row_id_le (live_rows (fk_to_table_id fk) d)
                        ↔ row_live d (fk_to_table_id fk) r).
    { intros r. by rewrite merge_sort_Permutation, live_rows_spec. }
    split; [done|]. split; [|split].
    + rewrite merge_sort_Permutation. apply live_rows_NoDup.
    + apply StronglySorted_merge_sort; apply _.
    + intros v col_name n Hv. rewrite Hmem, <- fk_targets_spec. split.
      * intros E Hnil.
        destruct (check_fk_exists_throw (fk_to_table_id fk) v col_name (n, d) Hv Hnil)
          as (msg & E'). congruence.
      * intros Hne. by apply (check_fk_exists_ok _ _ _ (n, d)).
Qed.

Lemma fk_options_are_the_valid_values_witness :
  (∀ r, r ∈ (get_fk_options people_db 1).*1 ↔ row_live people_db 1 r)
  ∧ NoDup (get_fk_options people_db 1).*1
  ∧ StronglySorted row_id_le (get_fk_options people_db 1).*1
  ∧ ∀ v col_name n, v ≠ "" →
      _check_fk_exists 1 (Some v) col_name (n, people_db) = (Ok tt, (n, people_db))
      ↔ v ∈ (get_fk_options people_db 1).*1.
Proof.
  apply (proj2 (fk_options_are_the_valid_values people_db 1)
           {| fk_id := 1; fk_from_column_id := 1; fk_to_table_id := 1;
              fk_created_at := 100; fk_deleted_at := None |}).
  - intros i j fk1 fk2 Hi Hj _ _ _. destruct i as [|[|i]], j as [|[|j]]; done.
  - left.
  - reflexivity.
  - reflexivity.
Defined.

(** ** The history of a row *)






